(** * Funds-flow graph indexing: netting, batch writer, backfill scheduler

    A shallow embedding of
      - neurons/miners/bitcoin/funds_flow_v2/graph_indexer.py
      - neurons/miners/bitcoin/funds_flow/graph_indexer.py
      - neurons/miners/ethereum/funds_flow/indexer.py
    Python integers are [Z]; a Python [dict] is an insertion-ordered
    association list; the graph database is a record of node and edge
    lists with the match-or-create reading of Cypher's MERGE. *)

From Stdlib Require Import QArith.QArith_base.
From stdpp Require Import base list strings numbers pretty.

Local Open Scope Z_scope.

(** ** Python dictionaries with string keys and integer values.
  Insertion order is kept, since the writer emits its rows in the
  iteration order of the dictionaries. *)
Module PyDict.

Definition dict := list (string * Z).

(** [d.get(k)]; [None] when the key is absent. *)
Fixpoint get (d : dict) (k : string) : option Z :=
  match d with
  | [] => None
  | (k', v) :: d' => if String.eqb k k' then Some v else get d' k
  end.

(** [k in d] *)
Definition contains (d : dict) (k : string) : bool :=
  match get d k with Some _ => true | None => false end.

(** [d[k] = v]: overwrite in place, or append a new key. *)
Fixpoint set (d : dict) (k : string) (v : Z) : dict :=
  match d with
  | [] => [(k, v)]
  | (k', v') :: d' =>
      if String.eqb k k' then (k', v) :: d' else (k', v') :: set d' k v
  end.

(** [d.keys()] *)
Definition keys (d : dict) : list string := map fst d.

(** [d[k]] for a key known to be present (0 stands for the KeyError
    that the callers below never reach). *)
Definition item (d : dict) (k : string) : Z :=
  match get d k with Some v => v | None => 0 end.

End PyDict.

(** ** The block data handed to the writers. *)
Module Block.

(** [vin.tx_id] is the integer 0 for the coinbase input and the hash
    string of the funding transaction otherwise. *)
Inductive txref :=
| RefInt (n : Z)
| RefStr (s : string).

(** [ref == 0] *)
Definition is_zero (r : txref) : bool :=
  match r with
  | RefInt n => n =? 0
  | RefStr _ => false
  end.

Record Vin := { vin_tx_id : txref; vin_vout_id : Z }.

Record Vout := { vout_value_satoshi : Z; vout_address : string }.

Record Tx := {
  tx_id : string;
  timestamp : Z;
  block_height : Z;
  is_coinbase : bool;
  vins : list Vin;
  vouts : list Vout
}.

End Block.

(** ** Flow netting of funds_flow_v2 (lines 118-171 of its
  create_graph_focused_on_money_flow). *)
Module Netting.
Import PyDict Block.

(** The node adapter's
    [get_address_and_amount_by_txn_id_and_vout_id(tx_id, str(vout_id))];
    [None] when the lookup raises. *)
Definition resolver := txref -> string -> option (string * Z).

(** [if k in d: d[k] += amount else: d[k] = amount] *)
Definition accumulate (d : dict) (k : string) (amount : Z) : dict :=
  if contains d k then set d k (item d k + amount) else set d k amount.

(** The loop over [tx.vins]. *)
Fixpoint accumulate_vins (node : resolver) (vs : list Vin) (d : dict)
  : option dict :=
  match vs with
  | [] => Some d
  | vin :: rest =>
      if is_zero (vin_tx_id vin) then accumulate_vins node rest d
      else
        match node (vin_tx_id vin) (pretty (vin_vout_id vin)) with
        | None => None
        | Some (address, amount) =>
            accumulate_vins node rest (accumulate d address amount)
        end
  end.

(** The loop over [tx.vouts]. *)
Fixpoint accumulate_vouts (vs : list Vout) (d : dict) : dict :=
  match vs with
  | [] => d
  | vout :: rest =>
      accumulate_vouts rest
        (accumulate d (vout_address vout) (vout_value_satoshi vout))
  end.

(** The two raw maps of one transaction. *)
Definition raw_amounts (node : resolver) (tx : Tx) : option (dict * dict) :=
  match accumulate_vins node (vins tx) [] with
  | None => None
  | Some in_amount_by_address =>
      Some (in_amount_by_address, accumulate_vouts (vouts tx) [])
  end.

(** Body of [for address in in_amount_by_address.keys()]. *)
Definition net_address (st : dict * dict) (address : string) : dict * dict :=
  let '(i, o) := st in
  if item i address =? 0 then st
  else if contains o address && negb (item o address =? 0) then
    if item i address >? item o address then
      (set i address (item i address - item o address), set o address 0)
    else if item i address <? item o address then
      (set i address 0, set o address (item o address - item i address))
    else
      (set i address 0, set o address 0)
  else st.

(** The netting pass. Only values are assigned during the iteration, so
    the key view iterated over is the one of the raw inbound map. *)
Definition netting_pass (i o : dict) : dict * dict :=
  fold_left net_address (keys i) (i, o).

(** [[a for a in d.keys() if d[a] != 0]] *)
Definition nonzero_addresses (d : dict) : list string :=
  filter (fun a => item d a <> 0) (keys d).

(** [sum([d[a] for a in addresses])] *)
Definition total (d : dict) (addresses : list string) : Z :=
  foldr Z.add 0 (map (item d) addresses).

(** The dictionaries appended to [batch_inputs] / [batch_outputs]. *)
Record flow_row := { fr_address : string; fr_amount : Z; fr_tx_id : string }.

(** The dictionary appended to [batch_txns]. *)
Record txn_row := {
  tr_tx_id : string;
  tr_in_total_amount : Z;
  tr_out_total_amount : Z;
  tr_timestamp : Z;
  tr_block_height : Z;
  tr_is_coinbase : bool
}.

Definition flow_rows (d : dict) (addresses : list string) (id : string)
  : list flow_row :=
  map (fun a => {| fr_address := a; fr_amount := item d a; fr_tx_id := id |})
      addresses.

(** Everything the writer computes for one transaction. *)
Definition process_tx (node : resolver) (tx : Tx)
  : option (txn_row * list flow_row * list flow_row) :=
  match raw_amounts node tx with
  | None => None
  | Some (raw_in, raw_out) =>
      let '(i, o) := netting_pass raw_in raw_out in
      let input_addresses := nonzero_addresses i in
      let output_addresses := nonzero_addresses o in
      Some ({| tr_tx_id := tx_id tx;
               tr_in_total_amount := total i input_addresses;
               tr_out_total_amount := total o output_addresses;
               tr_timestamp := timestamp tx;
               tr_block_height := block_height tx;
               tr_is_coinbase := is_coinbase tx |},
            flow_rows i input_addresses (tx_id tx),
            flow_rows o output_addresses (tx_id tx))
  end.

End Netting.

(** ** The property graph kept by the database. *)
Module Graph.

(** A [:Transaction] node: its key and the properties that
    [ON CREATE SET] may give it (absent until set). *)
Record tx_node := {
  tn_tx_id : string;
  tn_timestamp : option Z;
  tn_block_height : option Z;
  tn_is_coinbase : option bool;
  tn_in_total_amount : option Z;
  tn_out_total_amount : option Z
}.

Inductive direction :=
| AddressToTx   (** [(a)-[:SENT]->(t)] *)
| TxToAddress.  (** [(t)-[:SENT]->(a)] *)

(** A [:SENT] relationship, and also the row it is created from. *)
Record sent_edge := {
  se_direction : direction;
  se_address : string;
  se_tx_id : string;
  se_value_satoshi : Z;
  se_is_coinbase : option bool
}.

Record graph := {
  tx_nodes : list tx_node;
  addr_nodes : list string;
  edges : list sent_edge
}.

Definition empty : graph :=
  {| tx_nodes := []; addr_nodes := []; edges := [] |}.

Definition tx_ids (g : graph) : list string := map tn_tx_id (tx_nodes g).

(** A node that only carries its key, as a bare MERGE creates it. *)
Definition bare_tx (id : string) : tx_node :=
  {| tn_tx_id := id; tn_timestamp := None; tn_block_height := None;
     tn_is_coinbase := None; tn_in_total_amount := None;
     tn_out_total_amount := None |}.

(** [MERGE (t:Transaction {tx_id: ..}) ON CREATE SET ..]: when a node with
    the key is matched nothing is written; otherwise the node is created
    with the given properties. *)
Definition merge_transaction (n : tx_node) (g : graph) : graph :=
  if bool_decide (tn_tx_id n ∈ tx_ids g) then g
  else {| tx_nodes := tx_nodes g ++ [n];
          addr_nodes := addr_nodes g;
          edges := edges g |}.

(** [MERGE (a:Address {address: ..})] *)
Definition merge_address (a : string) (g : graph) : graph :=
  if bool_decide (a ∈ addr_nodes g) then g
  else {| tx_nodes := tx_nodes g;
          addr_nodes := addr_nodes g ++ [a];
          edges := edges g |}.

(** Number of nodes bound by a pattern on the key. *)
Definition count_tx (id : string) (g : graph) : nat :=
  length (filter (fun k => k = id) (tx_ids g)).

Definition count_addr (a : string) (g : graph) : nat :=
  length (filter (fun k => k = a) (addr_nodes g)).

(** [CREATE (..)-[:SENT {..}]->(..)]: one relationship for every pair of
    bound nodes. *)
Definition create_sent (e : sent_edge) (g : graph) : graph :=
  {| tx_nodes := tx_nodes g;
     addr_nodes := addr_nodes g;
     edges := edges g ++
              replicate (count_addr (se_address e) g * count_tx (se_tx_id e) g) e |}.

(** The statements the writers send. *)
Inductive query :=
| MergeTransactions (rows : list tx_node)
    (** [UNWIND $transactions AS tx MERGE (t:Transaction ..) ON CREATE SET ..] *)
| CreateSent (rows : list sent_edge).
    (** [UNWIND $rows AS r MERGE (a:Address ..) MERGE (t:Transaction ..)
        CREATE ..] *)

Definition sent_row (g : graph) (e : sent_edge) : graph :=
  create_sent e (merge_transaction (bare_tx (se_tx_id e))
                   (merge_address (se_address e) g)).

Definition exec_query (q : query) (g : graph) : graph :=
  match q with
  | MergeTransactions rows => fold_left (fun g n => merge_transaction n g) rows g
  | CreateSent rows => fold_left sent_row rows g
  end.

Definition exec_all (qs : list query) (g : graph) : graph :=
  fold_left (fun g q => exec_query q g) qs g.

End Graph.

(** ** The database driver: one explicit transaction over the graph, with
  the calls that can raise decided by a fault plan. *)
Module Driver.
Import Graph.

(** [Exception] is what [except Exception] catches; [BaseException]
    stands for the others (KeyboardInterrupt, SystemExit). *)
Inductive exn := Exception | BaseException.

Inductive outcome (A : Type) :=
| Returned (a : A)
| Raised (e : exn).
Arguments Returned {A} a.
Arguments Raised {A} e.

Record txn := {
  committed : graph;   (** what readers of the store see *)
  working : graph;     (** the view inside the open transaction *)
  closed : bool;       (** [transaction.closed()] *)
  calls : nat          (** driver calls made so far *)
}.

(** The n-th driver call raises [e] when the plan says [Some e]. *)
Definition faults := nat -> option exn.

Definition M (A : Type) := txn -> outcome A * txn.

Definition ret {A} (a : A) : M A := fun s => (Returned a, s).

Definition raise {A} (e : exn) : M A := fun s => (Raised e, s).

Definition bind {A B} (m : M A) (k : A -> M B) : M B :=
  fun s =>
    match m s with
    | (Returned a, s') => k a s'
    | (Raised e, s') => (Raised e, s')
    end.

Notation "m >>> k" := (bind m (fun _ => k))
  (at level 62, right associativity).

Definition tick (s : txn) : txn :=
  {| committed := committed s; working := working s;
     closed := closed s; calls := S (calls s) |}.

(** [session.begin_transaction()] *)
Definition begin_transaction (g : graph) : txn :=
  {| committed := g; working := g; closed := false; calls := 0 |}.

Section Calls.
Variable fl : faults.

(** [transaction.run(query, rows)] *)
Definition run (q : query) : M unit := fun s =>
  match fl (calls s) with
  | Some e => (Raised e, tick s)
  | None =>
      (Returned tt,
       {| committed := committed s; working := exec_query q (working s);
          closed := closed s; calls := S (calls s) |})
  end.

(** [transaction.commit()] *)
Definition commit : M unit := fun s =>
  match fl (calls s) with
  | Some e => (Raised e, tick s)
  | None =>
      (Returned tt,
       {| committed := working s; working := working s;
          closed := true; calls := S (calls s) |})
  end.

(** [transaction.rollback()] *)
Definition rollback : M unit := fun s =>
  match fl (calls s) with
  | Some e => (Raised e, tick s)
  | None =>
      (Returned tt,
       {| committed := committed s; working := committed s;
          closed := true; calls := S (calls s) |})
  end.
End Calls.

(** [transaction.close()]: an open transaction is discarded. *)
Definition close : M unit := fun s =>
  (Returned tt,
   {| committed := committed s; working := committed s;
      closed := true; calls := calls s |}).

(** [for x in l: f x] *)
Fixpoint for_each {A} (l : list A) (f : A -> M unit) : M unit :=
  match l with
  | [] => ret tt
  | x :: l' => f x >>> for_each l' f
  end.

(** [try: body / except Exception: handler / finally: final] *)
Definition try_except_finally {A} (body handler : M A) (final : M unit)
  : M A := fun s =>
  let '(r, s1) := body s in
  let '(r', s2) := match r with
                   | Raised Exception => handler s1
                   | _ => (r, s1)
                   end in
  match final s2 with
  | (Returned _, s3) => (r', s3)
  | (Raised e, s3) => (Raised e, s3)
  end.

(** [range(0, stop, step)] for [0 <= stop]; [None] is the ValueError
    for a zero step. *)
Definition py_range (stop step : Z) : option (list Z) :=
  if step =? 0 then None
  else if step <? 0 then Some []
  else Some (map (fun j => Z.of_nat j * step)
                 (seq 0 (Z.to_nat ((stop + step - 1) / step)))).

(** [l[i : i + n]] for [0 <= i] and [0 < n]. *)
Definition slice {A} (l : list A) (i n : Z) : list A :=
  take (Z.to_nat n) (drop (Z.to_nat i) l).

(** The batches visited by
    [for i in range(0, len(l), batch_size): l[i : i + batch_size]]. *)
Definition batches {A} (l : list A) (batch_size : Z) : option (list (list A)) :=
  match py_range (Z.of_nat (length l)) batch_size with
  | None => None
  | Some starts => Some (map (fun i => slice l i batch_size) starts)
  end.

(** [if transaction.closed() is False: transaction.close()] *)
Definition close_if_open : M unit := fun s =>
  if closed s then ret tt s else close s.

End Driver.

(** ** funds_flow_v2/graph_indexer.py *)
Module FundsFlowV2.
Import PyDict Block Netting Graph Driver.

(** Rows of the three statements of one batch; [None] when an input
    cannot be resolved. *)
Fixpoint build_batch (node : resolver) (batch : list Tx)
  : option (list txn_row * list flow_row * list flow_row) :=
  match batch with
  | [] => Some ([], [], [])
  | tx :: rest =>
      match process_tx node tx with
      | None => None
      | Some (row, inputs, outputs) =>
          match build_batch node rest with
          | None => None
          | Some (batch_txns, batch_inputs, batch_outputs) =>
              Some (row :: batch_txns, inputs ++ batch_inputs,
                    outputs ++ batch_outputs)
          end
      end
  end.

Definition tx_node_of_row (r : txn_row) : tx_node :=
  {| tn_tx_id := tr_tx_id r;
     tn_timestamp := Some (tr_timestamp r);
     tn_block_height := Some (tr_block_height r);
     tn_is_coinbase := Some (tr_is_coinbase r);
     tn_in_total_amount := Some (tr_in_total_amount r);
     tn_out_total_amount := Some (tr_out_total_amount r) |}.

Definition edge_of_row (d : direction) (r : flow_row) : sent_edge :=
  {| se_direction := d; se_address := fr_address r; se_tx_id := fr_tx_id r;
     se_value_satoshi := fr_amount r; se_is_coinbase := None |}.

(** The three [transaction.run] statements of a batch. *)
Definition batch_queries
  (rows : list txn_row * list flow_row * list flow_row) : list query :=
  let '(batch_txns, batch_inputs, batch_outputs) := rows in
  [ MergeTransactions (map tx_node_of_row batch_txns);
    CreateSent (map (edge_of_row AddressToTx) batch_inputs);
    CreateSent (map (edge_of_row TxToAddress) batch_outputs) ].

Section Writer.
Variable fl : faults.
Variable node : resolver.

(** Body of [for i in range(0, len(transactions), batch_size)]. *)
Definition write_batch (transactions : list Tx) (batch_size i : Z) : M unit :=
  match build_batch node (slice transactions i batch_size) with
  | None => raise Exception
  | Some rows => for_each (batch_queries rows) (run fl)
  end.

Definition batch_loop (transactions : list Tx) (batch_size : Z) : M unit :=
  match py_range (Z.of_nat (length transactions)) batch_size with
  | None => raise Exception
  | Some starts => for_each starts (write_batch transactions batch_size)
  end.

Definition create_graph_focused_on_money_flow
  (g : graph) (transactions : list Tx) (batch_size : Z)
  : outcome bool * txn :=
  try_except_finally
    (batch_loop transactions batch_size >>> commit fl >>> ret true)
    (rollback fl >>> ret false)
    close_if_open
    (begin_transaction g).
End Writer.

(** The statements of a whole block when nothing raises. *)
Fixpoint block_queries (node : resolver) (batches : list (list Tx))
  : option (list query) :=
  match batches with
  | [] => Some []
  | b :: rest =>
      match build_batch node b with
      | None => None
      | Some rows =>
          match block_queries node rest with
          | None => None
          | Some qs => Some (batch_queries rows ++ qs)
          end
      end
  end.

End FundsFlowV2.

(** ** funds_flow/graph_indexer.py *)
Module FundsFlow.
Import Block Graph Driver.

Definition tx_node_of (tx : Tx) : tx_node :=
  {| tn_tx_id := tx_id tx;
     tn_timestamp := Some (timestamp tx);
     tn_block_height := Some (block_height tx);
     tn_is_coinbase := Some (is_coinbase tx);
     tn_in_total_amount := None;
     tn_out_total_amount := None |}.

(** [for index, vout in enumerate(tx.vouts)] with
    [is_coinbase = tx.is_coinbase and index == 0]. *)
Fixpoint vout_rows (tx : Tx) (index : nat) (vs : list Vout) : list sent_edge :=
  match vs with
  | [] => []
  | vout :: rest =>
      {| se_direction := TxToAddress;
         se_address := vout_address vout;
         se_tx_id := tx_id tx;
         se_value_satoshi := vout_value_satoshi vout;
         se_is_coinbase := Some (is_coinbase tx && Nat.eqb index 0) |}
      :: vout_rows tx (S index) rest
  end.

Definition batch_vouts (batch : list Tx) : list sent_edge :=
  concat (map (fun tx => vout_rows tx 0 (vouts tx)) batch).

Definition batch_queries (batch : list Tx) : list query :=
  [ MergeTransactions (map tx_node_of batch); CreateSent (batch_vouts batch) ].

(** One [session.run] of [create_graph_focused_on_money_flow2] that
    creates a relationship with a literal [is_coinbase]. *)
Definition vout_edge (tx : Tx) (vout : Vout) (cb : bool) : sent_edge :=
  {| se_direction := TxToAddress;
     se_address := vout_address vout;
     se_tx_id := tx_id tx;
     se_value_satoshi := vout_value_satoshi vout;
     se_is_coinbase := Some cb |}.

Section Writer.
Variable fl : faults.

Definition write_batch (transactions : list Tx) (batch_size i : Z) : M unit :=
  for_each (batch_queries (slice transactions i batch_size)) (run fl).

Definition batch_loop (transactions : list Tx) (batch_size : Z) : M unit :=
  match py_range (Z.of_nat (length transactions)) batch_size with
  | None => raise Exception
  | Some starts => for_each starts (write_batch transactions batch_size)
  end.

Definition create_graph_focused_on_money_flow
  (g : graph) (transactions : list Tx) (batch_size : Z)
  : outcome bool * txn :=
  try_except_finally
    (batch_loop transactions batch_size >>> commit fl >>> ret true)
    (rollback fl >>> ret false)
    close_if_open
    (begin_transaction g).

(** Body of [for tx in block_node.transactions] of the second writer;
    [tx.vouts[0]] raises IndexError on an empty list. *)
Definition write_tx2 (tx : Tx) : M unit :=
  run fl (MergeTransactions [tx_node_of tx]) >>>
  (if is_coinbase tx then
     match vouts tx with
     | [] => raise Exception
     | coinbase_vout :: _ => run fl (CreateSent [vout_edge tx coinbase_vout true])
     end
   else ret tt) >>>
  for_each (vouts tx) (fun vout => run fl (CreateSent [vout_edge tx vout false])).

Definition create_graph_focused_on_money_flow2
  (g : graph) (transactions : list Tx) : outcome bool * txn :=
  try_except_finally
    (for_each transactions write_tx2 >>> commit fl >>> ret true)
    (rollback fl >>> ret false)
    close
    (begin_transaction g).
End Writer.

(** The statements of a whole block. *)
Definition block_queries (batches : list (list Tx)) : list query :=
  concat (map batch_queries batches).

(** The statements the second writer sends for one transaction when
    nothing raises; [None] for a coinbase transaction without outputs. *)
Definition tx2_queries (tx : Tx) : option (list query) :=
  let per_vout := map (fun vout => CreateSent [vout_edge tx vout false]) (vouts tx) in
  if is_coinbase tx then
    match vouts tx with
    | [] => None
    | coinbase_vout :: _ =>
        Some (MergeTransactions [tx_node_of tx]
              :: CreateSent [vout_edge tx coinbase_vout true] :: per_vout)
    end
  else Some (MergeTransactions [tx_node_of tx] :: per_vout).

Fixpoint block2_queries (transactions : list Tx) : option (list query) :=
  match transactions with
  | [] => Some []
  | tx :: rest =>
      match tx2_queries tx, block2_queries rest with
      | Some qs, Some qs' => Some (qs ++ qs')
      | _, _ => None
      end
  end.

End FundsFlow.

(** ** ethereum/funds_flow/indexer.py *)
(** ** Python's true division of integers and [math.floor].

    [a / b] on two [int]s is the float nearest to the exact quotient (ties
    to the even mantissa, 53 bits, gradual underflow); it raises
    ZeroDivisionError for [b = 0] and OverflowError when that float would
    not be finite. *)
Module PyFloat.

(** [x * 2^p] for [p >= 0], and [x] otherwise. *)
Definition scale (x p : Z) : Z := x * 2 ^ Z.max 0 p.

(** [floor(log2(n / d))] for positive [n] and [d], from the bit lengths. *)
Definition floor_log2 (n d : Z) : Z :=
  let g := Z.log2 n - Z.log2 d in
  if scale d g <=? scale n (- g) then g else g - 1.

(** The integer nearest to [n / d], the even one of two equally near. *)
Definition round_half_even (n d : Z) : Z :=
  let q := n `div` d in
  let r := n `mod` d in
  if 2 * r <? d then q
  else if d <? 2 * r then q + 1
  else if Z.even q then q else q + 1.

(** A finite float: [mantissa * 2^exponent]. *)
Record float := { mantissa : Z; exponent : Z }.

(** [a / b]; [None] when it raises. The exponent [p] is that of the last
    place of the result: 52 below the exponent of the quotient, and not
    below -1074. *)
Definition true_div (a b : Z) : option float :=
  if b =? 0 then None
  else if a =? 0 then Some {| mantissa := 0; exponent := 0 |}
  else
    let n := Z.abs a in
    let d := Z.abs b in
    let p := Z.max (floor_log2 n d - 52) (-1074) in
    let m := round_half_even (scale n (- p)) (scale d p) in
    if scale (2 ^ 1024) (- p) <=? scale m p then None
    else Some {| mantissa := Z.sgn a * Z.sgn b * m; exponent := p |}.

(** [math.floor(x)], an [int]. *)
Definition floor (x : float) : Z :=
  scale (mantissa x) (exponent x) `div` scale 1 (- exponent x).

End PyFloat.

Module EthIndexer.

(** *** The start-up code under [if __name__ == "__main__"]. *)

(** The three environment variables, already parsed by [int]. *)
Record settings := {
  ETHEREUM_THREAD_CNT : option Z;
  ETHEREUM_START_BLOCK_HEIGHT : option Z;
  ETHEREUM_LAST_BLOCK_HEIGHT : option Z
}.

Definition num_threads (cfg : settings) : Z :=
  match ETHEREUM_THREAD_CNT cfg with
  | Some n => n
  | None => 8
  end.

(** [latest] is [graph_indexer.get_latest_block_number()]. *)
Definition start_height (cfg : settings) (latest : Z) : Z :=
  let graph_last_block_height := latest + 1 in
  match ETHEREUM_START_BLOCK_HEIGHT cfg with
  | Some s => s
  | None => graph_last_block_height
  end.

(** [current] is [ethereum_node.get_current_block_height()]. *)
Definition last_height (cfg : settings) (current : Z) : Z :=
  match ETHEREUM_LAST_BLOCK_HEIGHT cfg with
  | Some l => if current >? l then current else l
  | None => current
  end.

(** [floor((last_height - start_height) / num_threads)]: the quotient is
    a float; [None] when the division raises. *)
Definition thread_depth (start last n : Z) : option Z :=
  PyFloat.floor <$> PyFloat.true_div (last - start) n.

(** [(last_height - start_height) % num_threads] *)
Definition restHeight (start last n : Z) : Z := (last - start) `mod` n.

(** The arguments [(start, last)] of thread [i]. *)
Definition thread_range (start depth rest n i : Z) : Z * Z :=
  (start + i * depth,
   if i =? n - 1 then start + (i + 1) * depth + rest
   else start + (i + 1) * depth - 1).

(** [for i in range(num_threads)] *)
Definition thread_ranges (start last n : Z) : option (list (Z * Z)) :=
  match thread_depth start last n with
  | None => None
  | Some depth =>
      Some (map (fun i => thread_range start depth (restHeight start last n) n
                            (Z.of_nat i))
                (seq 0 (Z.to_nat n)))
  end.

Record plan := {
  backfill_start : Z;
  backfill_last : Z;
  workers : list (Z * Z);     (** [(start, last)] given to each thread *)
  follower_start : Z          (** the [start_height] given to [index_blocks] *)
}.

(** What the start-up code launches; [None] when it raises before. *)
Definition main (cfg : settings) (latest current : Z) : option plan :=
  let s := start_height cfg latest in
  let l := last_height cfg current in
  match thread_ranges s l (num_threads cfg) with
  | None => None
  | Some rs =>
      Some {| backfill_start := s; backfill_last := l; workers := rs;
              follower_start := l + 1 |}
  end.

(** [h] lies in the inclusive range [r]. *)
Definition covers (h : Z) (r : Z * Z) : Prop := r.1 <= h <= r.2.

Global Instance covers_dec h r : Decision (covers h r).
Proof. unfold covers. apply _. Defined.

(** *** The two indexing loops. *)

Inductive event :=
| GetCurrentHeight (tip : Z)        (** [get_current_block_height()] and its result *)
| Sleep (seconds : Q)               (** [time.sleep] *)
| GetBlock (h : Z)                  (** [get_block_by_height(h)] *)
| CreateInMemoryGraph (h : Z)       (** [create_in_memory_graph_from_block] *)
| WriteGraph (h : Z) (success : bool).
    (** [create_graph_focused_on_funds_flow] and its result *)

(** What [float] returns for the text of a variable: a finite number of
    seconds, an infinity or a NaN. *)
Inductive delay_value :=
| Finite (seconds : Q)
| Infinite
| NotANumber.

(** The world around a loop. The clock is the number of events so far.
    The two variables, when set, hold text that [int] and [float]
    accept. *)
Record env := {
  tip : nat -> Z;                  (** chain height reported at a time *)
  num_transactions : Z -> nat;     (** [len(block["transactions"])] at a height *)
  write_ok : nat -> bool;          (** does the write started at a time succeed *)
  shutdown_at : option nat;        (** when the signal handler sets the flag *)
  BLOCK_PROCESSING_TRANSACTION_THRESHOLD : option Z;
  BLOCK_PROCESSING_DELAY : option delay_value
}.

(** [int(os.getenv('BLOCK_PROCESSING_TRANSACTION_THRESHOLD', 500))] *)
Definition threshold (e : env) : Z :=
  match BLOCK_PROCESSING_TRANSACTION_THRESHOLD e with
  | Some n => n
  | None => 500
  end.

(** [float(os.getenv('BLOCK_PROCESSING_DELAY', 1))] *)
Definition delay (e : env) : delay_value :=
  match BLOCK_PROCESSING_DELAY e with
  | Some d => d
  | None => Finite (inject_Z 1)
  end.

(** [time.sleep(d)] for a float [d]: ValueError for a negative number or
    a NaN, OverflowError for an infinity or when the count of nanoseconds
    does not fit 64 bits; [None] when it raises. *)
Definition sleep (d : delay_value) : option event :=
  match d with
  | Finite seconds =>
      if Qle_bool 0 seconds &&
         negb (Qle_bool (inject_Z (2 ^ 63)) (seconds * inject_Z (10 ^ 9)))
      then Some (Sleep seconds) else None
  | Infinite | NotANumber => None
  end.

(** Does the true division [a / b] raise. *)
Definition division_raises (a b : Z) : bool :=
  match PyFloat.true_div a b with
  | Some _ => false
  | None => true
  end.

(** [index_blocks] polls the node; [index_blocks_by_last_height] uses its
    [last] argument instead. *)
Inductive loop :=
| Follower
| Worker (last_height : Z).

Inductive pc :=
| AtOuter                                   (** at [while not shutdown_flag] *)
| AtInner (block_height current_block_height : Z)
    (** at [while block_height <= current_block_height - skip_blocks] *)
| Stopped                                   (** the function returned *)
| Crashed.                                  (** an exception left the function *)

Record state := { at_pc : pc; trace : list event }.

Definition skip_blocks : Z := 6.

(** The global [shutdown_flag] read at a time; once set it stays set. *)
Definition shutdown_flag (e : env) (t : nat) : bool :=
  match shutdown_at e with
  | Some t0 => bool_decide (t0 <= t)%nat
  | None => false
  end.

Section Loop.
Variable e : env.
Variable k : loop.
Variable start_height : Z.

(** One pass from the outer loop test to the inner loop or a sleep. *)
Definition outer_step (tr : list event) : state :=
  if shutdown_flag e (length tr) then {| at_pc := Stopped; trace := tr |}
  else
    let '(current_block_height, tr1) :=
      match k with
      | Follower =>
          (tip e (length tr) - 6, tr ++ [GetCurrentHeight (tip e (length tr))])
      | Worker last_height => (last_height - 6, tr)
      end in
    if current_block_height - skip_blocks <? 0 then
      {| at_pc := AtOuter; trace := tr1 ++ [Sleep (inject_Z 10)] |}
    else if start_height >? current_block_height then
      {| at_pc := AtOuter; trace := tr1 ++ [Sleep (inject_Z 10)] |}
    else
      {| at_pc := AtInner start_height current_block_height; trace := tr1 |}.

(** One test of the inner loop and, when it holds, one body. *)
Definition inner_step (block_height current_block_height : Z)
  (tr : list event) : state :=
  if block_height <=? current_block_height - skip_blocks then
    let tr1 := tr ++ [GetBlock block_height] in
    let n := num_transactions e block_height in
    if Nat.eqb n 0 then
      {| at_pc := AtInner (block_height + 1) current_block_height;
         trace := tr1 |}
    else
      let tr2 := tr1 ++ [CreateInMemoryGraph block_height] in
      let success := write_ok e (length tr2) in
      let tr3 := tr2 ++ [WriteGraph block_height success] in
      (** [progress]: the follower asks the node again and divides
          [block_height] by the answer; the worker divides
          [block_height - start_height] by [last_height - start_height]. *)
      let '(tr4, raised) :=
        match k with
        | Follower =>
            (tr3 ++ [GetCurrentHeight (tip e (length tr3))],
             division_raises block_height (tip e (length tr3)))
        | Worker last_height =>
            (tr3, division_raises (block_height - start_height)
                    (last_height - start_height))
        end in
      if raised then {| at_pc := Crashed; trace := tr4 |}
      else
        (** [if success: .. else: ..]; [None] when [time.sleep] raises. *)
        let slept :=
          if success then
            if Z.of_nat n >? threshold e then
              match sleep (delay e) with
              | Some ev => Some (block_height + 1, tr4 ++ [ev])
              | None => None
              end
            else Some (block_height + 1, tr4)
          else Some (block_height, tr4 ++ [Sleep (inject_Z 30)]) in
        match slept with
        | None => {| at_pc := Crashed; trace := tr4 |}
        | Some (block_height', tr5) =>
            if shutdown_flag e (length tr5) then
              {| at_pc := AtOuter; trace := tr5 |}
            else
              {| at_pc := AtInner block_height' current_block_height;
                 trace := tr5 |}
        end
  else {| at_pc := AtOuter; trace := tr |}.

Definition step (s : state) : state :=
  match at_pc s with
  | AtOuter => outer_step (trace s)
  | AtInner block_height current_block_height =>
      inner_step block_height current_block_height (trace s)
  | Stopped | Crashed => s
  end.

Definition init : state := {| at_pc := AtOuter; trace := [] |}.

(** The loop after [fuel] steps. *)
Definition run (fuel : nat) : state := Nat.iter fuel step init.
End Loop.

(** [index_blocks(_ethereum_node, _graph_creator, _graph_indexer, start_height)] *)
Definition index_blocks (e : env) (start_height : Z) (fuel : nat) : state :=
  run e Follower start_height fuel.

(** [index_blocks_by_last_height(thread_index, start, last, ..)] *)
Definition index_blocks_by_last_height (e : env) (start last : Z) (fuel : nat)
  : state :=
  run e (Worker last) start fuel.

End EthIndexer.

(** ** Concrete inputs used to exercise the model. *)
Module Examples.
Import Block Netting Graph Driver EthIndexer.

(** A payment of 500 from C: 300 to B and 200 of change back to C. *)
Definition change_tx : Tx :=
  {| tx_id := "t1"; timestamp := 1700000000; block_height := 7;
     is_coinbase := false;
     vins := [ {| vin_tx_id := RefStr "t0"; vin_vout_id := 0 |} ];
     vouts := [ {| vout_value_satoshi := 200; vout_address := "C" |};
                {| vout_value_satoshi := 300; vout_address := "B" |} ] |}.

(** A node that resolves every input to 500 held by C. *)
Definition change_node : resolver := fun _ _ => Some ("C"%string, 500).

(** A coinbase transaction paying the reward to M. *)
Definition coinbase_tx : Tx :=
  {| tx_id := "t0"; timestamp := 1700000000; block_height := 7;
     is_coinbase := true;
     vins := [ {| vin_tx_id := RefInt 0; vin_vout_id := 0 |} ];
     vouts := [ {| vout_value_satoshi := 500000; vout_address := "M" |} ] |}.

(** No driver call raises. *)
Definition no_faults : faults := fun _ => None.

(** No environment variable is set. *)
Definition default_settings : settings :=
  {| ETHEREUM_THREAD_CNT := None;
     ETHEREUM_START_BLOCK_HEIGHT := None;
     ETHEREUM_LAST_BLOCK_HEIGHT := None |}.

(** A chain whose tip stays at [height], every block holding [n]
    transactions, every write succeeding unless [failing], no shutdown. *)
Definition steady (height : Z) (n : nat) (failing : bool) : env :=
  {| tip := fun _ => height;
     num_transactions := fun _ => n;
     write_ok := fun _ => negb failing;
     shutdown_at := None;
     BLOCK_PROCESSING_TRANSACTION_THRESHOLD := None;
     BLOCK_PROCESSING_DELAY := None |}.

(** A chain on which the node reports the height 13 when first asked and
    6 from then on; every block holds one transaction and every write
    succeeds. *)
Definition shortened : env :=
  {| tip := fun t => match t with O => 13 | S _ => 6 end;
     num_transactions := fun _ => 1%nat;
     write_ok := fun _ => true;
     shutdown_at := None;
     BLOCK_PROCESSING_TRANSACTION_THRESHOLD := None;
     BLOCK_PROCESSING_DELAY := None |}.

(** Two threads from height 0, no end-height override. *)
Definition two_threads : settings :=
  {| ETHEREUM_THREAD_CNT := Some 2;
     ETHEREUM_START_BLOCK_HEIGHT := Some 0;
     ETHEREUM_LAST_BLOCK_HEIGHT := None |}.

(** A chain as [steady height 1 false], with the threshold set to 0 and
    the delay variable holding [d]. *)
Definition throttled (height : Z) (d : option delay_value) : env :=
  {| tip := fun _ => height;
     num_transactions := fun _ => 1%nat;
     write_ok := fun _ => true;
     shutdown_at := None;
     BLOCK_PROCESSING_TRANSACTION_THRESHOLD := Some 0;
     BLOCK_PROCESSING_DELAY := d |}.

(** A delay of -1 second. *)
Definition minus_one : option delay_value := Some (Finite (inject_Z (-1))).

(** A chain on which the node reports the height 13 when first asked and
    0 from then on; every block holds one transaction and every write
    fails. *)
Definition vanished : env :=
  {| tip := fun t => match t with O => 13 | S _ => 0 end;
     num_transactions := fun _ => 1%nat;
     write_ok := fun _ => false;
     shutdown_at := None;
     BLOCK_PROCESSING_TRANSACTION_THRESHOLD := None;
     BLOCK_PROCESSING_DELAY := None |}.

(** Every driver call raises an Exception. *)
Definition all_faults : faults := fun _ => Some Exception.

(** Only the first driver call raises an Exception. *)
Definition first_fault : faults :=
  fun n => match n with O => Some Exception | S _ => None end.

End Examples.

(** ** The progress queries of the graph indexers
    (get_latest_block_number, get_min_block_number). *)
Module ProgressTracker.
Import Graph.

(** [MATCH (t:Transaction) RETURN t.block_height]: the values the
    aggregate sees; a node without the property contributes none. *)
Definition block_heights (g : graph) : list Z :=
  omap tn_block_height (tx_nodes g).

(** A Cypher aggregate ([MAX], [MIN]): null when it is given no value. *)
Definition aggregate (f : Z -> Z -> Z) (l : list Z) : option Z :=
  match l with
  | [] => None
  | x :: l => Some (fold_left f l x)
  end.

Definition get_latest_block_number (g : graph) : Z :=
  match aggregate Z.max (block_heights g) with
  | None => 0
  | Some h => h
  end.

Definition get_min_block_number (g : graph) : Z :=
  match aggregate Z.min (block_heights g) with
  | None => 0
  | Some h => h
  end.

End ProgressTracker.

(** ** The miner's wait for the graph to catch up with the chain
    (wait_for_blocks_sync of miner.py). *)
Module Miner.

(** What one pass of the loop body sees: both heights, or an Exception
    out of one of the calls inside the [try]. *)
Inductive poll :=
| Heights (latest_block_height current_block_height : Z)
| Fails.

(** The condition that sets [is_synced]. *)
Definition synced (p : poll) : bool :=
  match p with
  | Heights latest_block_height current_block_height =>
      bool_decide (latest_block_height - current_block_height < 100)
  | Fails => false
  end.

(** [while not is_synced]: pass [t] sees [polls t]; a pass that does not
    set the flag sleeps and the loop goes on. The result is the number of
    sleeps before the loop ended. *)
Fixpoint sync_loop (polls : nat -> poll) (t fuel : nat) : option nat :=
  match fuel with
  | O => None
  | S fuel =>
      if synced (polls t) then Some t
      else sync_loop polls (S t) fuel
  end.

(** The returned flag and the number of sleeps. *)
Definition wait_for_blocks_sync (wait_for_sync : bool) (polls : nat -> poll)
    (fuel : nat) : option (bool * nat) :=
  if negb wait_for_sync then Some (false, 0%nat)
  else match sync_loop polls 0 fuel with
       | Some n => Some (true, n)
       | None => None
       end.

End Miner.

Section NettingFacts.
Import PyDict Block Netting.

Lemma get_set_eq d k v : get (set d k v) k = Some v.
Proof.
  induction d as [|[k' v'] d IH]; simpl.
  - by rewrite String.eqb_refl.
  - destruct (String.eqb k k') eqn:E; simpl; rewrite E; done.
Qed.

Lemma get_set_ne d k k' v : k <> k' -> get (set d k v) k' = get d k'.
Proof.
  intros Hne. induction d as [|[k0 v0] d IH]; simpl.
  - destruct (String.eqb k' k) eqn:E; [|done].
    apply String.eqb_eq in E. congruence.
  - destruct (String.eqb k k0) eqn:E; simpl.
    + apply String.eqb_eq in E. subst k0.
      destruct (String.eqb k' k) eqn:E'; [|done].
      apply String.eqb_eq in E'. congruence.
    + by rewrite IH.
Qed.

Lemma item_set_eq d k v : item (set d k v) k = v.
Proof. unfold item. by rewrite get_set_eq. Qed.

Lemma item_set_ne d k k' v : k <> k' -> item (set d k v) k' = item d k'.
Proof. intros. unfold item. by rewrite get_set_ne. Qed.

Lemma contains_set d k k' v :
  contains d k' = true -> contains (set d k v) k' = true.
Proof.
  unfold contains. destruct (decide (k = k')) as [->|Hne].
  - by rewrite get_set_eq.
  - by rewrite get_set_ne.
Qed.

(** What the netting loop keeps true of one address [a], whatever the
    other addresses it visits. *)
Definition netted_at (a : string) (x y : Z) (st : dict * dict) : Prop :=
  contains st.1 a = true /\ contains st.2 a = true /\
  (item st.1 a = 0 \/ item st.2 a = 0) /\
  (x = y -> item st.1 a = 0 /\ item st.2 a = 0) /\
  item st.1 a - item st.2 a = x - y.

Definition raw_at (a : string) (x y : Z) (st : dict * dict) : Prop :=
  contains st.1 a = true /\ contains st.2 a = true /\
  item st.1 a = x /\ item st.2 a = y.

Lemma net_address_other st a b x y :
  a <> b -> raw_at a x y st -> raw_at a x y (net_address st b).
Proof.
  intros Hne (Hi & Ho & Hx & Hy). destruct st as [i o]. simpl in *.
  unfold net_address, raw_at.
  repeat case_match; simpl;
    rewrite ?item_set_ne by done; auto using contains_set.
Qed.

Lemma net_address_other_netted st a b x y :
  a <> b -> netted_at a x y st -> netted_at a x y (net_address st b).
Proof.
  intros Hne (Hi & Ho & H). destruct st as [i o]. simpl in *.
  unfold net_address, netted_at.
  repeat case_match; simpl;
    rewrite ?item_set_ne by done; auto using contains_set.
Qed.

Lemma net_address_self st a x y :
  raw_at a x y st -> netted_at a x y (net_address st a).
Proof.
  intros (Hi & Ho & Hx & Hy). destruct st as [i o]. simpl in *.
  unfold net_address, netted_at. rewrite Ho.
  repeat case_match; simpl; rewrite ?item_set_eq;
    repeat split; auto using contains_set; lia.
Qed.

Lemma net_address_again st a x y :
  netted_at a x y st -> netted_at a x y (net_address st a).
Proof.
  intros (Hi & Ho & Hz & Heq & Hd). destruct st as [i o]. simpl in *.
  unfold net_address, netted_at. rewrite Ho.
  repeat case_match; simpl; rewrite ?item_set_eq;
    repeat split; auto using contains_set; lia.
Qed.

Lemma fold_net_netted ks : forall st a x y,
  netted_at a x y st -> netted_at a x y (fold_left net_address ks st).
Proof.
  induction ks as [|k ks IH]; intros st a x y H; simpl; [done|].
  apply IH. destruct (decide (a = k)) as [->|Hne].
  - by apply net_address_again.
  - by apply net_address_other_netted.
Qed.

Lemma fold_net_raw ks : forall st a x y,
  a ∈ ks -> raw_at a x y st -> netted_at a x y (fold_left net_address ks st).
Proof.
  induction ks as [|k ks IH]; intros st a x y Hin H; simpl.
  - by apply elem_of_nil in Hin.
  - destruct (decide (a = k)) as [->|Hne].
    + apply fold_net_netted. by apply net_address_self.
    + apply IH.
      * apply elem_of_cons in Hin as [?|?]; [done|done].
      * by apply net_address_other.
Qed.

Lemma get_Some_keys d a x : get d a = Some x -> a ∈ keys d.
Proof.
  induction d as [|[k v] d IH]; simpl; [done|].
  destruct (String.eqb a k) eqn:E.
  - apply String.eqb_eq in E. subst. intros _. apply elem_of_cons. by left.
  - intros H. apply elem_of_cons. right. by apply IH.
Qed.

End NettingFacts.

Section NettingTheorems.
Import PyDict Block Netting Examples.

Lemma netting_pass_correct (raw_in raw_out : dict) (a : string) (x y : Z) :
  get raw_in a = Some x -> get raw_out a = Some y ->
  netted_at a x y (netting_pass raw_in raw_out).
Proof.
  intros Hx Hy. unfold netting_pass. apply fold_net_raw.
  - by eapply get_Some_keys.
  - unfold raw_at, contains, item. simpl. rewrite Hx, Hy. done.
Qed.

(** C1: for a transaction and an address present in both raw maps, after
    the netting pass the address is still in both maps, one of its two
    amounts is zero (both when the raw amounts are equal), and the
    difference inbound minus outbound is the raw difference. *)
Theorem netting_correct (node : resolver) (tx : Tx) (raw_in raw_out : dict)
    (a : string) (x y : Z) :
  raw_amounts node tx = Some (raw_in, raw_out) ->
  get raw_in a = Some x ->
  get raw_out a = Some y ->
  exists x' y',
    get (netting_pass raw_in raw_out).1 a = Some x' /\
    get (netting_pass raw_in raw_out).2 a = Some y' /\
    (x' = 0 \/ y' = 0) /\
    (x = y -> x' = 0 /\ y' = 0) /\
    x' - y' = x - y.
Proof.
  intros _ Hx Hy.
  destruct (netting_pass_correct raw_in raw_out a x y Hx Hy)
    as (Hi & Ho & Hz & He & Hd).
  unfold contains, item in *.
  destruct (get (netting_pass raw_in raw_out).1 a) as [x'|]; [|done].
  destruct (get (netting_pass raw_in raw_out).2 a) as [y'|]; [|done].
  exists x', y'. done.
Qed.

Lemma netting_correct_witness :
  exists x' y',
    get (netting_pass [("C"%string, 500)]
           [("C"%string, 200); ("B"%string, 300)]).1 "C" = Some x' /\
    get (netting_pass [("C"%string, 500)]
           [("C"%string, 200); ("B"%string, 300)]).2 "C" = Some y' /\
    (x' = 0 \/ y' = 0) /\
    (500 = 200 -> x' = 0 /\ y' = 0) /\
    x' - y' = 500 - 200.
Proof.
  apply (netting_correct change_node change_tx _ _ "C" 500 200); reflexivity.
Defined.

End NettingTheorems.

(** ** The driver: what a block of statements can and cannot change. *)
Section DriverFacts.
Import Graph Driver.
Variable fl : faults.

(** A computation that neither commits nor closes. *)
Definition inert {A} (m : M A) : Prop :=
  forall s, committed (m s).2 = committed s /\ closed (m s).2 = closed s.

(** A [finally] clause that leaves the transaction closed. *)
Definition releases (final : M unit) : Prop :=
  forall s, exists s',
    final s = (Returned tt, s') /\ closed s' = true /\ committed s' = committed s.

Lemma inert_ret {A} (a : A) : inert (ret a).
Proof. by intros s. Qed.

Lemma inert_raise {A} (e : exn) : inert (@raise A e).
Proof. by intros s. Qed.

Lemma inert_run q : inert (run fl q).
Proof. intros s. unfold run. by destruct (fl (calls s)). Qed.

Lemma inert_bind {A B} (m : M A) (k : A -> M B) :
  inert m -> (forall a, inert (k a)) -> inert (bind m k).
Proof.
  intros Hm Hk s. unfold bind. specialize (Hm s).
  destruct (m s) as [[a|e] s1]; simpl in *; [|done].
  destruct (Hk a s1) as [-> ->]. done.
Qed.

Lemma inert_for_each {A} (l : list A) (f : A -> M unit) :
  (forall x, inert (f x)) -> inert (for_each l f).
Proof.
  intros Hf. induction l as [|x l IH]; simpl.
  - apply inert_ret.
  - apply inert_bind; [apply Hf|]. intros _. apply IH.
Qed.

Lemma releases_close : releases close.
Proof. intros s. eexists. by split. Qed.

Lemma releases_close_if_open : releases close_if_open.
Proof.
  intros s. unfold close_if_open. destruct (closed s) eqn:E.
  - exists s. done.
  - eexists. by split.
Qed.

(** All the statements ran: the working view is the statements applied in
    order, and none of the calls was a fault. *)
Lemma for_each_run_returned qs : forall s s',
  for_each qs (run fl) s = (Returned tt, s') ->
  working s' = exec_all qs (working s) /\
  calls s' = (calls s + length qs)%nat.
Proof.
  induction qs as [|q qs IH]; intros s s' H; simpl in *.
  - inversion H; subst. split; [done|lia].
  - unfold bind in H. destruct (run fl q s) as [r s1] eqn:E.
    unfold run in E. destruct (fl (calls s)) as [e|] eqn:Hf.
    + inversion E; subst. done.
    + inversion E; subst. apply IH in H as [-> ->]. simpl. split; [done|lia].
Qed.

Lemma for_each_run_no_fault qs : forall s,
  (forall n, fl n = None) ->
  exists s', for_each qs (run fl) s = (Returned tt, s') /\
             working s' = exec_all qs (working s).
Proof.
  induction qs as [|q qs IH]; intros s Hfl; simpl.
  - by exists s.
  - unfold bind. destruct (run fl q s) as [r s1] eqn:E.
    unfold run in E. rewrite Hfl in E. inversion E; subst.
    destruct (IH {| committed := committed s;
                    working := exec_query q (working s);
                    closed := closed s; calls := S (calls s) |} Hfl)
      as (s' & Hs & Hw).
    rewrite Hs. exists s'. split; [done|]. by rewrite Hw.
Qed.

(** What a writer owes its caller, given the outcome [l] of its batch
    loop and its own outcome [out] on the store [g]. *)
Definition atomic_write (g : graph) (l : outcome unit * txn)
    (out : outcome bool * txn) : Prop :=
  closed out.2 = true /\
  (out.1 <> Returned true -> committed out.2 = g) /\
  (forall e, l.1 = Raised e ->
     out.1 <> Returned true /\ committed out.2 = g) /\
  (l.1 = Raised Exception -> fl (calls l.2) = None ->
     out.1 = Returned false) /\
  (l.1 = Returned tt -> fl (calls l.2) = None ->
     out.1 = Returned true /\ committed out.2 = working l.2) /\
  (out.1 = Returned true ->
     l.1 = Returned tt /\ committed out.2 = working l.2).

Lemma returned_true_dec (r : outcome bool) :
  {r = Returned true} + {r <> Returned true}.
Proof. destruct r as [[|]|e]; [by left|by right|by right]. Qed.

Lemma writer_outcome (loop final : M unit) (g : graph) :
  inert loop -> releases final ->
  atomic_write g (loop (begin_transaction g))
    (try_except_finally (loop >>> commit fl >>> ret true)
       (rollback fl >>> ret false) final (begin_transaction g)).
Proof.
  intros Hin Hrel. unfold atomic_write, try_except_finally, bind.
  destruct (Hin (begin_transaction g)) as [Hc Ho]. simpl in Hc, Ho.
  destruct (loop (begin_transaction g)) as [[[]|[|]] s0]; simpl in *;
    unfold commit, rollback, ret; simpl;
    repeat (match goal with
            | |- context [fl ?n] => destruct (fl n) as [[|]|] eqn:?; simpl
            end);
    match goal with |- context [final ?s] =>
      destruct (Hrel s) as (s' & -> & ? & ?) end;
    simpl in *; repeat split; intros; congruence.
Qed.

(** An exception that the handler does not turn into a result leaves the
    writer: one that [except Exception] does not catch, and the one that
    the rollback raises inside the handler. *)
Definition escapes (l : outcome unit * txn) (out : outcome bool * txn)
  : Prop :=
  (l.1 = Raised BaseException -> out.1 = Raised BaseException) /\
  (forall e, l.1 = Raised Exception -> fl (calls l.2) = Some e ->
     out.1 = Raised e).

Lemma writer_escapes (loop final : M unit) (g : graph) :
  inert loop -> releases final ->
  escapes (loop (begin_transaction g))
    (try_except_finally (loop >>> commit fl >>> ret true)
       (rollback fl >>> ret false) final (begin_transaction g)).
Proof.
  intros Hin Hrel. unfold escapes, try_except_finally, bind.
  destruct (loop (begin_transaction g)) as [[[]|[|]] s0]; simpl in *;
    unfold commit, rollback, ret; simpl;
    repeat (match goal with
            | |- context [fl ?n] => destruct (fl n) as [[|]|] eqn:?; simpl
            end);
    match goal with |- context [final ?s] =>
      destruct (Hrel s) as (s' & -> & ? & ?) end;
    simpl in *; repeat split; intros; congruence.
Qed.

End DriverFacts.

(** ** The two batch writers. *)
Section WriterFacts.
Import Block Netting Graph Driver.
Variable fl : faults.

Lemma exec_all_app qs1 qs2 g :
  exec_all (qs1 ++ qs2) g = exec_all qs2 (exec_all qs1 g).
Proof. unfold exec_all. apply fold_left_app. Qed.

Lemma v2_write_batch_inert node txs bs i :
  inert (FundsFlowV2.write_batch fl node txs bs i).
Proof.
  unfold FundsFlowV2.write_batch.
  destruct (FundsFlowV2.build_batch _ _).
  - apply inert_for_each. apply inert_run.
  - apply inert_raise.
Qed.

Lemma v2_batch_loop_inert node txs bs :
  inert (FundsFlowV2.batch_loop fl node txs bs).
Proof.
  unfold FundsFlowV2.batch_loop. destruct (py_range _ _).
  - apply inert_for_each. intros i. apply v2_write_batch_inert.
  - apply inert_raise.
Qed.

Lemma v1_batch_loop_inert txs bs : inert (FundsFlow.batch_loop fl txs bs).
Proof.
  unfold FundsFlow.batch_loop. destruct (py_range _ _).
  - apply inert_for_each. intros i. apply inert_for_each. apply inert_run.
  - apply inert_raise.
Qed.

Lemma write_tx2_inert tx : inert (FundsFlow.write_tx2 fl tx).
Proof.
  unfold FundsFlow.write_tx2.
  apply inert_bind; [apply inert_run|]. intros _.
  apply inert_bind.
  - destruct (is_coinbase tx); [|apply inert_ret].
    destruct (vouts tx); [apply inert_raise|apply inert_run].
  - intros _. apply inert_for_each. intros v. apply inert_run.
Qed.

(** When the loop of the netting writer returns, every batch was built
    and the working view is the block's statements applied in order. *)
Lemma v2_for_each_returned node txs bs starts : forall s s',
  for_each starts (FundsFlowV2.write_batch fl node txs bs) s = (Returned tt, s') ->
  exists qs,
    FundsFlowV2.block_queries node (map (fun i => slice txs i bs) starts) = Some qs /\
    working s' = exec_all qs (working s).
Proof.
  induction starts as [|i starts IH]; intros s s' H; simpl in *.
  - inversion H; subst. by exists [].
  - unfold bind in H.
    destruct (FundsFlowV2.write_batch fl node txs bs i s) as [[[]|e] s1] eqn:E;
      [|done].
    unfold FundsFlowV2.write_batch in E.
    destruct (FundsFlowV2.build_batch node (slice txs i bs)) as [rows|]; [|done].
    apply for_each_run_returned in E as [Hw _].
    apply IH in H as (qs & -> & Hq).
    eexists. split; [done|]. by rewrite exec_all_app, Hq, Hw.
Qed.

Lemma v2_loop_returned node txs bs s s' :
  FundsFlowV2.batch_loop fl node txs bs s = (Returned tt, s') ->
  exists bts qs,
    batches txs bs = Some bts /\
    FundsFlowV2.block_queries node bts = Some qs /\
    working s' = exec_all qs (working s).
Proof.
  unfold FundsFlowV2.batch_loop, batches.
  destruct (py_range _ _) as [starts|]; [|done].
  intros H. apply v2_for_each_returned in H as (qs & ? & ?).
  by exists (map (fun i => slice txs i bs) starts), qs.
Qed.

Lemma v2_for_each_no_fault node txs bs starts : forall s qs,
  (forall n, fl n = None) ->
  FundsFlowV2.block_queries node (map (fun i => slice txs i bs) starts) = Some qs ->
  exists s',
    for_each starts (FundsFlowV2.write_batch fl node txs bs) s = (Returned tt, s') /\
    working s' = exec_all qs (working s).
Proof.
  induction starts as [|i starts IH]; intros s qs Hfl Hq; simpl in *.
  - inversion Hq; subst. by exists s.
  - destruct (FundsFlowV2.build_batch node (slice txs i bs)) as [rows|] eqn:Hb;
      [|done].
    destruct (FundsFlowV2.block_queries node _) as [qs'|] eqn:E; [|done].
    inversion Hq; subst.
    destruct (for_each_run_no_fault fl (FundsFlowV2.batch_queries rows) s Hfl)
      as (s1 & Hs1 & Hw).
    destruct (IH s1 qs' Hfl eq_refl) as (s' & Hs' & Hw').
    exists s'. split.
    + unfold bind.
      replace (FundsFlowV2.write_batch fl node txs bs i s) with (Returned tt, s1);
        [done|].
      unfold FundsFlowV2.write_batch. by rewrite Hb.
    + by rewrite exec_all_app, Hw', Hw.
Qed.

Lemma v1_block_queries_cons b bts :
  FundsFlow.block_queries (b :: bts) =
  FundsFlow.batch_queries b ++ FundsFlow.block_queries bts.
Proof. reflexivity. Qed.

Lemma v1_for_each_returned txs bs starts : forall s s',
  for_each starts (FundsFlow.write_batch fl txs bs) s = (Returned tt, s') ->
  working s' =
    exec_all (FundsFlow.block_queries (map (fun i => slice txs i bs) starts))
      (working s).
Proof.
  induction starts as [|i starts IH]; intros s s' H; cbn [for_each map] in *.
  - by inversion H; subst.
  - unfold bind in H.
    destruct (FundsFlow.write_batch fl txs bs i s) as [[[]|e] s1] eqn:E; [|done].
    unfold FundsFlow.write_batch in E.
    apply for_each_run_returned in E as [Hw _].
    apply IH in H.
    by rewrite v1_block_queries_cons, exec_all_app, H, Hw.
Qed.

Lemma v1_loop_returned txs bs s s' :
  FundsFlow.batch_loop fl txs bs s = (Returned tt, s') ->
  exists bts,
    batches txs bs = Some bts /\
    working s' = exec_all (FundsFlow.block_queries bts) (working s).
Proof.
  unfold FundsFlow.batch_loop, batches.
  destruct (py_range _ _) as [starts|]; [|done].
  intros H. apply v1_for_each_returned in H. by eexists.
Qed.

Lemma v1_for_each_no_fault txs bs starts : forall s,
  (forall n, fl n = None) ->
  exists s',
    for_each starts (FundsFlow.write_batch fl txs bs) s = (Returned tt, s') /\
    working s' =
      exec_all (FundsFlow.block_queries (map (fun i => slice txs i bs) starts))
        (working s).
Proof.
  induction starts as [|i starts IH]; intros s Hfl; cbn [for_each map] in *.
  - by exists s.
  - destruct (for_each_run_no_fault fl
                (FundsFlow.batch_queries (slice txs i bs)) s Hfl)
      as (s1 & Hs1 & Hw).
    destruct (IH s1 Hfl) as (s' & Hs' & Hw').
    exists s'. split.
    + unfold bind.
      replace (FundsFlow.write_batch fl txs bs i s) with (Returned tt, s1); done.
    + by rewrite v1_block_queries_cons, exec_all_app, Hw', Hw.
Qed.

End WriterFacts.

(** ** MERGE as an upsert: nodes are only ever added, and only when their
    key is missing. *)
Section UpsertFacts.
Import Graph.

(** Every key of [g] is a key of [g']. *)
Definition grows (g g' : graph) : Prop :=
  tx_ids g ⊆ tx_ids g' /\ addr_nodes g ⊆ addr_nodes g'.

(** The two graphs have the same nodes, with the same properties. *)
Definition same_nodes (g g' : graph) : Prop :=
  tx_nodes g = tx_nodes g' /\ addr_nodes g = addr_nodes g'.

Definition unique_keys (g : graph) : Prop :=
  NoDup (tx_ids g) /\ NoDup (addr_nodes g).

(** An operation [op r] that touches nodes only by upserting the keys
    [txk r] and [ak r]. *)
Definition upsert_step {R} (op : R -> graph -> graph)
    (txk ak : R -> list string) : Prop :=
  forall r g,
    grows g (op r g) /\
    txk r ⊆ tx_ids (op r g) /\
    ak r ⊆ addr_nodes (op r g) /\
    (txk r ⊆ tx_ids g -> ak r ⊆ addr_nodes g -> same_nodes (op r g) g) /\
    (unique_keys g -> unique_keys (op r g)).

Lemma grows_refl g : grows g g.
Proof. by split. Qed.

Lemma grows_trans g1 g2 g3 : grows g1 g2 -> grows g2 g3 -> grows g1 g3.
Proof. intros [? ?] [? ?]. split; by etrans. Qed.

Lemma same_nodes_tx_ids g g' : same_nodes g g' -> tx_ids g = tx_ids g'.
Proof. intros [H _]. unfold tx_ids. by rewrite H. Qed.

Lemma tx_ids_app_one g n :
  map tn_tx_id (tx_nodes g ++ [n]) = tx_ids g ++ [tn_tx_id n].
Proof. unfold tx_ids. by rewrite map_app. Qed.

Lemma NoDup_snoc (l : list string) (x : string) :
  x ∉ l -> NoDup l -> NoDup (l ++ [x]).
Proof.
  intros Hx Hl. apply NoDup_app. repeat split; [done| |apply NoDup_singleton].
  intros y Hy Hy'. apply list_elem_of_singleton in Hy'. by subst.
Qed.

Lemma merge_transaction_upsert :
  upsert_step merge_transaction (fun n => [tn_tx_id n]) (fun _ => []).
Proof.
  intros n g. unfold merge_transaction. case_bool_decide as Hin.
  - split; [apply grows_refl|]. split; [|split; [|split]].
    + intros x Hx. apply list_elem_of_singleton in Hx. by subst.
    + intros x Hx. by apply elem_of_nil in Hx.
    + by intros.
    + done.
  - split; [|split; [|split; [|split]]].
    + split; simpl; [|done]. unfold tx_ids; simpl. rewrite map_app.
      intros x Hx. apply elem_of_app. by left.
    + unfold tx_ids; simpl. rewrite map_app.
      intros x Hx. apply elem_of_app. by right.
    + intros x Hx. by apply elem_of_nil in Hx.
    + intros Hk _. exfalso. apply Hin, Hk. by apply list_elem_of_singleton.
    + intros [Ht Ha]. split; simpl; [|done].
      unfold tx_ids; simpl. rewrite map_app. by apply NoDup_snoc.
Qed.

Lemma merge_address_upsert :
  upsert_step merge_address (fun _ => []) (fun a => [a]).
Proof.
  intros a g. unfold merge_address. case_bool_decide as Hin.
  - split; [apply grows_refl|]. split; [|split; [|split]].
    + intros x Hx. by apply elem_of_nil in Hx.
    + intros x Hx. apply list_elem_of_singleton in Hx. by subst.
    + by intros.
    + done.
  - split; [|split; [|split; [|split]]].
    + split; simpl; [done|]. intros x Hx. apply elem_of_app. by left.
    + intros x Hx. by apply elem_of_nil in Hx.
    + simpl. intros x Hx. apply elem_of_app. by right.
    + intros _ Hk. exfalso. apply Hin, Hk. by apply list_elem_of_singleton.
    + intros [Ht Ha]. split; simpl; [done|]. by apply NoDup_snoc.
Qed.

Lemma create_sent_upsert :
  upsert_step create_sent (fun _ => []) (fun _ => []).
Proof.
  intros e g. split; [by split|]. split; [|split; [|split]].
  - intros x Hx. by apply elem_of_nil in Hx.
  - intros x Hx. by apply elem_of_nil in Hx.
  - intros _ _. by split.
  - done.
Qed.

(** Two upserting operations in sequence. *)
Lemma upsert_compose {R} (op1 op2 : R -> graph -> graph) txk1 ak1 txk2 ak2 :
  upsert_step op1 txk1 ak1 -> upsert_step op2 txk2 ak2 ->
  upsert_step (fun r g => op2 r (op1 r g))
    (fun r => txk1 r ++ txk2 r) (fun r => ak1 r ++ ak2 r).
Proof.
  intros H1 H2 r g.
  destruct (H1 r g) as (G1 & T1 & A1 & F1 & U1).
  destruct (H2 r (op1 r g)) as (G2 & T2 & A2 & F2 & U2).
  split; [by eapply grows_trans|].
  split; [|split; [|split]].
  - intros x Hx. apply elem_of_app in Hx as [Hx|Hx]; [|by apply T2].
    by apply G2, T1.
  - intros x Hx. apply elem_of_app in Hx as [Hx|Hx]; [|by apply A2].
    by apply G2, A1.
  - intros Ht Ha.
    assert (S1 : same_nodes (op1 r g) g).
    { apply F1; intros x Hx; [apply Ht|apply Ha]; apply elem_of_app; by left. }
    assert (S2 : same_nodes (op2 r (op1 r g)) (op1 r g)).
    { apply F2; intros x Hx.
      - rewrite (same_nodes_tx_ids _ _ S1). apply Ht, elem_of_app. by right.
      - destruct S1 as [_ ->]. apply Ha, elem_of_app. by right. }
    destruct S1 as [E1 E1'], S2 as [E2 E2']. split; congruence.
  - auto.
Qed.

(** An upserting operation applied to each row in turn. *)
Lemma upsert_fold {R} (f : graph -> R -> graph) txk ak :
  upsert_step (fun r g => f g r) txk ak ->
  upsert_step (fun rows g => fold_left f rows g)
    (fun rows => concat (map txk rows)) (fun rows => concat (map ak rows)).
Proof.
  intros Hf rows. induction rows as [|r rows IH]; intros g; simpl.
  - split; [apply grows_refl|]. split; [|split; [|split]].
    + intros x Hx. by apply elem_of_nil in Hx.
    + intros x Hx. by apply elem_of_nil in Hx.
    + by intros.
    + done.
  - destruct (Hf r g) as (G1 & T1 & A1 & F1 & U1).
    destruct (IH (f g r)) as (G2 & T2 & A2 & F2 & U2).
    split; [by eapply grows_trans|].
    split; [|split; [|split]].
    + intros x Hx. apply elem_of_app in Hx as [Hx|Hx]; [|by apply T2].
      by apply G2, T1.
    + intros x Hx. apply elem_of_app in Hx as [Hx|Hx]; [|by apply A2].
      by apply G2, A1.
    + intros Ht Ha.
      assert (S1 : same_nodes (f g r) g).
      { apply F1; intros x Hx; [apply Ht|apply Ha]; apply elem_of_app; by left. }
      assert (S2 : same_nodes (fold_left f rows (f g r)) (f g r)).
      { apply F2; intros x Hx.
        - rewrite (same_nodes_tx_ids _ _ S1). apply Ht, elem_of_app. by right.
        - destruct S1 as [_ ->]. apply Ha, elem_of_app. by right. }
      destruct S1 as [E1 E1'], S2 as [E2 E2']. split; congruence.
    + auto.
Qed.

(** The two MERGE clauses of a relationship row. *)
Definition merge_ends (e : sent_edge) (g : graph) : graph :=
  merge_transaction (bare_tx (se_tx_id e)) (merge_address (se_address e) g).

Lemma merge_ends_upsert :
  upsert_step merge_ends (fun e => [se_tx_id e]) (fun e => [se_address e]).
Proof.
  apply (upsert_compose
    (fun e g => merge_address (se_address e) g)
    (fun e g => merge_transaction (bare_tx (se_tx_id e)) g)
    (fun _ => []) (fun e => [se_address e])
    (fun e => [se_tx_id e]) (fun _ => [])).
  - intros e g. apply (merge_address_upsert (se_address e) g).
  - intros e g. apply (merge_transaction_upsert (bare_tx (se_tx_id e)) g).
Qed.

Lemma sent_row_upsert :
  upsert_step (fun e g => sent_row g e)
    (fun e => [se_tx_id e]) (fun e => [se_address e]).
Proof.
  apply (upsert_compose merge_ends create_sent
    (fun e => [se_tx_id e]) (fun e => [se_address e])
    (fun _ => []) (fun _ => [])).
  - apply merge_ends_upsert.
  - apply create_sent_upsert.
Qed.

(** The node keys a statement upserts. *)
Definition q_tx_ids (q : query) : list string :=
  match q with
  | MergeTransactions rows => concat (map (fun n => [tn_tx_id n]) rows)
  | CreateSent rows => concat (map (fun e => [se_tx_id e]) rows)
  end.

Definition q_addrs (q : query) : list string :=
  match q with
  | MergeTransactions rows => concat (map (fun _ : tx_node => @nil string) rows)
  | CreateSent rows => concat (map (fun e => [se_address e]) rows)
  end.

Lemma exec_query_upsert : upsert_step exec_query q_tx_ids q_addrs.
Proof.
  intros [rows|rows] g; simpl.
  - apply (upsert_fold (fun g n => merge_transaction n g)
             (fun n => [tn_tx_id n]) (fun _ => []) merge_transaction_upsert).
  - apply (upsert_fold sent_row
             (fun e => [se_tx_id e]) (fun e => [se_address e]) sent_row_upsert).
Qed.

Lemma exec_all_upsert :
  upsert_step exec_all
    (fun qs => concat (map q_tx_ids qs)) (fun qs => concat (map q_addrs qs)).
Proof.
  apply (upsert_fold (fun g q => exec_query q g) q_tx_ids q_addrs).
  exact exec_query_upsert.
Qed.

(** Running the same statements again adds no node and changes none. *)
Lemma exec_all_twice qs g :
  same_nodes (exec_all qs (exec_all qs g)) (exec_all qs g).
Proof.
  destruct (exec_all_upsert qs g) as (_ & T & A & _ & _).
  destruct (exec_all_upsert qs (exec_all qs g)) as (_ & _ & _ & F & _).
  by apply F.
Qed.

Lemma exec_all_unique qs g : unique_keys g -> unique_keys (exec_all qs g).
Proof. intros H. by apply (exec_all_upsert qs g). Qed.

End UpsertFacts.

Section BatchWriterTheorems.
Import Block Netting Graph Driver.

(** The claim of the specification about an error in a batch: the writer
    returns False. *)
Definition failure_reported (fl : faults) (node : resolver) (g : graph)
    (txs : list Tx) (batch_size : Z) : Prop :=
  forall e,
    (FundsFlowV2.batch_loop fl node txs batch_size (begin_transaction g)).1
      = Raised e ->
    (FundsFlowV2.create_graph_focused_on_money_flow fl node g txs batch_size).1
      = Returned false.

(** C2, as amended: for both batch writers and every fault plan, the
    transaction is closed when the writer is left, whatever the exit path;
    unless the writer returns True the committed store is the one it
    started from, and after an exception in a batch it does not return
    True; an Exception raised while a batch is processed is followed by
    the rollback and, when the rollback call itself does not raise, by the
    result False; when the rollback call raises, its exception leaves the
    writer, and so does an exception that is not an Exception; and when
    no call raises the writer commits the statements of all batches and
    returns True. *)
Theorem batch_writer_atomic (fl : faults) (node : resolver) (g : graph)
    (txs : list Tx) (batch_size : Z) :
  atomic_write fl g
    (FundsFlowV2.batch_loop fl node txs batch_size (begin_transaction g))
    (FundsFlowV2.create_graph_focused_on_money_flow fl node g txs batch_size) /\
  atomic_write fl g
    (FundsFlow.batch_loop fl txs batch_size (begin_transaction g))
    (FundsFlow.create_graph_focused_on_money_flow fl g txs batch_size) /\
  escapes fl
    (FundsFlowV2.batch_loop fl node txs batch_size (begin_transaction g))
    (FundsFlowV2.create_graph_focused_on_money_flow fl node g txs batch_size) /\
  escapes fl
    (FundsFlow.batch_loop fl txs batch_size (begin_transaction g))
    (FundsFlow.create_graph_focused_on_money_flow fl g txs batch_size) /\
  ((forall n, fl n = None) ->
   forall bts, batches txs batch_size = Some bts ->
     (forall qs, FundsFlowV2.block_queries node bts = Some qs ->
        exists s,
          FundsFlowV2.create_graph_focused_on_money_flow fl node g txs batch_size
            = (Returned true, s) /\
          committed s = exec_all qs g /\ closed s = true) /\
     (exists s,
        FundsFlow.create_graph_focused_on_money_flow fl g txs batch_size
          = (Returned true, s) /\
        committed s = exec_all (FundsFlow.block_queries bts) g /\
        closed s = true)).
Proof.
  pose proof (writer_outcome fl (FundsFlowV2.batch_loop fl node txs batch_size)
                close_if_open g (v2_batch_loop_inert fl node txs batch_size)
                releases_close_if_open) as H2.
  pose proof (writer_outcome fl (FundsFlow.batch_loop fl txs batch_size)
                close_if_open g (v1_batch_loop_inert fl txs batch_size)
                releases_close_if_open) as H1.
  change (try_except_finally _ _ _ _) with
    (FundsFlowV2.create_graph_focused_on_money_flow fl node g txs batch_size)
    in H2.
  change (try_except_finally _ _ _ _) with
    (FundsFlow.create_graph_focused_on_money_flow fl g txs batch_size) in H1.
  split; [exact H2|]. split; [exact H1|].
  split.
  { exact (writer_escapes fl (FundsFlowV2.batch_loop fl node txs batch_size)
             close_if_open g (v2_batch_loop_inert fl node txs batch_size)
             releases_close_if_open). }
  split.
  { exact (writer_escapes fl (FundsFlow.batch_loop fl txs batch_size)
             close_if_open g (v1_batch_loop_inert fl txs batch_size)
             releases_close_if_open). }
  intros Hfl bts Hb. unfold batches in Hb.
  destruct (py_range _ _) as [starts|] eqn:Hr; [|done].
  inversion Hb; subst bts. clear Hb. split.
  - intros qs Hq.
    destruct (v2_for_each_no_fault fl node txs batch_size starts
                (begin_transaction g) qs Hfl Hq) as (s' & Hs' & Hw).
    destruct H2 as (Hc & _ & _ & _ & Hok & _).
    assert (Hl : FundsFlowV2.batch_loop fl node txs batch_size
                   (begin_transaction g) = (Returned tt, s')).
    { unfold FundsFlowV2.batch_loop. by rewrite Hr. }
    rewrite Hl in Hok. simpl in Hok.
    destruct (Hok eq_refl (Hfl _)) as [Hr1 Hr2].
    destruct (FundsFlowV2.create_graph_focused_on_money_flow _ _ _ _ _)
      as [r s]. simpl in *. subst r. exists s. by rewrite Hr2, Hw.
  - destruct (v1_for_each_no_fault fl txs batch_size starts
                (begin_transaction g) Hfl) as (s' & Hs' & Hw).
    destruct H1 as (Hc & _ & _ & _ & Hok & _).
    assert (Hl : FundsFlow.batch_loop fl txs batch_size
                   (begin_transaction g) = (Returned tt, s')).
    { unfold FundsFlow.batch_loop. by rewrite Hr. }
    rewrite Hl in Hok. simpl in Hok.
    destruct (Hok eq_refl (Hfl _)) as [Hr1 Hr2].
    destruct (FundsFlow.create_graph_focused_on_money_flow _ _ _ _)
      as [r s]. simpl in *. subst r. exists s. by rewrite Hr2, Hw.
Qed.

(** C4: once a write of a block has succeeded, writing the same block
    again, whether that second write succeeds or fails, leaves the
    Transaction nodes (keys and properties) and the Address nodes exactly
    as the first write left them, and a store without duplicate keys stays
    without; this holds for both batch writers. *)
Theorem node_upsert_idempotent (fl1 fl2 : faults) (node : resolver)
    (g : graph) (txs : list Tx) (batch_size : Z) :
  (forall s1,
     FundsFlowV2.create_graph_focused_on_money_flow fl1 node g txs batch_size
       = (Returned true, s1) ->
     same_nodes
       (committed (FundsFlowV2.create_graph_focused_on_money_flow
                     fl2 node (committed s1) txs batch_size).2)
       (committed s1) /\
     (unique_keys g -> unique_keys (committed s1))) /\
  (forall s1,
     FundsFlow.create_graph_focused_on_money_flow fl1 g txs batch_size
       = (Returned true, s1) ->
     same_nodes
       (committed (FundsFlow.create_graph_focused_on_money_flow
                     fl2 (committed s1) txs batch_size).2)
       (committed s1) /\
     (unique_keys g -> unique_keys (committed s1))).
Proof.
  split; intros s1 H1.
  - pose proof (writer_outcome fl1 (FundsFlowV2.batch_loop fl1 node txs batch_size)
                  close_if_open g (v2_batch_loop_inert fl1 node txs batch_size)
                  releases_close_if_open) as (_ & _ & _ & _ & _ & Hr).
    change (try_except_finally _ _ _ _) with
      (FundsFlowV2.create_graph_focused_on_money_flow fl1 node g txs batch_size)
      in Hr.
    rewrite H1 in Hr. simpl in Hr. destruct (Hr eq_refl) as [Hl Hc].
    destruct (FundsFlowV2.batch_loop fl1 node txs batch_size (begin_transaction g))
      as [r l1] eqn:E1. simpl in *. subst r.
    apply v2_loop_returned in E1 as (bts & qs & Hb & Hq & Hw). simpl in Hw.
    rewrite Hw in Hc. split; [|intros Hu; rewrite Hc; by apply exec_all_unique].
    pose proof (writer_outcome fl2 (FundsFlowV2.batch_loop fl2 node txs batch_size)
                  close_if_open (committed s1)
                  (v2_batch_loop_inert fl2 node txs batch_size)
                  releases_close_if_open) as (_ & Hno & _ & _ & _ & Hr2).
    change (try_except_finally _ _ _ _) with
      (FundsFlowV2.create_graph_focused_on_money_flow fl2 node (committed s1)
         txs batch_size) in Hno, Hr2.
    destruct (FundsFlowV2.create_graph_focused_on_money_flow fl2 node
                (committed s1) txs batch_size) as [r2 s2]. simpl in *.
    destruct (returned_true_dec r2) as [->|Hne].
    + destruct (Hr2 eq_refl) as [Hl2 Hc2].
      destruct (FundsFlowV2.batch_loop fl2 node txs batch_size
                  (begin_transaction (committed s1))) as [r l2] eqn:E2.
      simpl in *. subst r.
      apply v2_loop_returned in E2 as (bts' & qs' & Hb' & Hq' & Hw').
      simpl in Hw'. assert (bts' = bts) by congruence. subst bts'.
      assert (qs' = qs) by congruence. subst qs'.
      rewrite Hc2, Hw', Hc. apply exec_all_twice.
    + rewrite (Hno Hne). by split.
  - pose proof (writer_outcome fl1 (FundsFlow.batch_loop fl1 txs batch_size)
                  close_if_open g (v1_batch_loop_inert fl1 txs batch_size)
                  releases_close_if_open) as (_ & _ & _ & _ & _ & Hr).
    change (try_except_finally _ _ _ _) with
      (FundsFlow.create_graph_focused_on_money_flow fl1 g txs batch_size) in Hr.
    rewrite H1 in Hr. simpl in Hr. destruct (Hr eq_refl) as [Hl Hc].
    destruct (FundsFlow.batch_loop fl1 txs batch_size (begin_transaction g))
      as [r l1] eqn:E1. simpl in *. subst r.
    apply v1_loop_returned in E1 as (bts & Hb & Hw). simpl in Hw.
    rewrite Hw in Hc. split; [|intros Hu; rewrite Hc; by apply exec_all_unique].
    pose proof (writer_outcome fl2 (FundsFlow.batch_loop fl2 txs batch_size)
                  close_if_open (committed s1)
                  (v1_batch_loop_inert fl2 txs batch_size)
                  releases_close_if_open) as (_ & Hno & _ & _ & _ & Hr2).
    change (try_except_finally _ _ _ _) with
      (FundsFlow.create_graph_focused_on_money_flow fl2 (committed s1)
         txs batch_size) in Hno, Hr2.
    destruct (FundsFlow.create_graph_focused_on_money_flow fl2
                (committed s1) txs batch_size) as [r2 s2]. simpl in *.
    destruct (returned_true_dec r2) as [->|Hne].
    + destruct (Hr2 eq_refl) as [Hl2 Hc2].
      destruct (FundsFlow.batch_loop fl2 txs batch_size
                  (begin_transaction (committed s1))) as [r l2] eqn:E2.
      simpl in *. subst r.
      apply v1_loop_returned in E2 as (bts' & Hb' & Hw').
      simpl in Hw'. assert (bts' = bts) by congruence. subst bts'.
      rewrite Hc2, Hw', Hc. apply exec_all_twice.
    + rewrite (Hno Hne). by split.
Qed.

End BatchWriterTheorems.

(** ** Relationships: on a store without duplicate keys every CREATE adds
    exactly one. *)
Section EdgeFacts.
Import Block Graph Driver.

Lemma filter_absent (l : list string) (x : string) :
  x ∉ l -> filter (fun k => k = x) l = [].
Proof.
  induction l as [|y l IH]; intros Hx; [done|].
  apply not_elem_of_cons in Hx as [Hne Hx].
  rewrite filter_cons_False by congruence. by apply IH.
Qed.

Lemma count_one (l : list string) (x : string) :
  NoDup l -> x ∈ l -> length (filter (fun k => k = x) l) = 1%nat.
Proof.
  induction 1 as [|y l Hy Hl IH]; intros Hx.
  - by apply elem_of_nil in Hx.
  - destruct (decide (y = x)) as [->|Hne].
    + rewrite filter_cons_True by done. by rewrite filter_absent.
    + rewrite filter_cons_False by done.
      apply IH. apply elem_of_cons in Hx as [?|?]; [congruence|done].
Qed.

Lemma merge_ends_edges e g : edges (merge_ends e g) = edges g.
Proof.
  unfold merge_ends, merge_transaction, merge_address.
  repeat case_bool_decide; done.
Qed.

Lemma sent_row_edges g e :
  unique_keys g -> edges (sent_row g e) = edges g ++ [e].
Proof.
  intros Hu. change (sent_row g e) with (create_sent e (merge_ends e g)).
  destruct (merge_ends_upsert e g) as (_ & T & A & _ & U).
  destruct (U Hu) as [Ut Ua].
  unfold create_sent, count_addr, count_tx. simpl.
  rewrite (count_one _ _ Ua), (count_one _ _ Ut), merge_ends_edges; [done| |].
  - apply T. by apply list_elem_of_singleton.
  - apply A. by apply list_elem_of_singleton.
Qed.

(** The relationships a statement creates. *)
Definition q_edges (q : query) : list sent_edge :=
  match q with
  | MergeTransactions _ => []
  | CreateSent rows => rows
  end.

Lemma merge_transactions_edges rows : forall g,
  edges (fold_left (fun g n => merge_transaction n g) rows g) = edges g.
Proof.
  induction rows as [|n rows IH]; intros g; simpl; [done|].
  rewrite IH. unfold merge_transaction. by case_bool_decide.
Qed.

Lemma sent_rows_edges rows : forall g,
  unique_keys g -> edges (fold_left sent_row rows g) = edges g ++ rows.
Proof.
  induction rows as [|e rows IH]; intros g Hu; simpl.
  - by rewrite app_nil_r.
  - rewrite IH by (by apply (sent_row_upsert e g)).
    rewrite sent_row_edges by done. by rewrite <- app_assoc.
Qed.

Lemma exec_query_edges q g :
  unique_keys g -> edges (exec_query q g) = edges g ++ q_edges q.
Proof.
  intros Hu. destruct q as [rows|rows]; simpl.
  - by rewrite merge_transactions_edges, app_nil_r.
  - by apply sent_rows_edges.
Qed.

Lemma exec_all_edges qs : forall g,
  unique_keys g ->
  edges (exec_all qs g) = edges g ++ concat (map q_edges qs).
Proof.
  induction qs as [|q qs IH]; intros g Hu; simpl.
  - by rewrite app_nil_r.
  - change (exec_all (q :: qs) g) with (exec_all qs (exec_query q g)).
    rewrite IH by (by apply (exec_query_upsert q g)).
    rewrite exec_query_edges by done. by rewrite <- app_assoc.
Qed.

End EdgeFacts.

(** ** The second writer of funds_flow/graph_indexer.py. *)
Section SecondWriterFacts.
Import Block Graph Driver.
Variable fl : faults.
Hypothesis no_fault : forall n, fl n = None.

Lemma run_no_fault q s :
  run fl q s =
  (Returned tt,
   {| committed := committed s; working := exec_query q (working s);
      closed := closed s; calls := S (calls s) |}).
Proof. unfold run. by rewrite no_fault. Qed.

Lemma for_each_map_run {A} (h : A -> query) (l : list A) : forall s,
  for_each l (fun x => run fl (h x)) s = for_each (map h l) (run fl) s.
Proof.
  induction l as [|x l IH]; intros s; simpl; [done|].
  unfold bind. destruct (run fl (h x) s) as [[[]|e] s1]; [apply IH|done].
Qed.

Lemma write_tx2_as_queries tx qs s :
  FundsFlow.tx2_queries tx = Some qs ->
  FundsFlow.write_tx2 fl tx s = for_each qs (run fl) s.
Proof.
  unfold FundsFlow.tx2_queries, FundsFlow.write_tx2.
  destruct (is_coinbase tx).
  - destruct (vouts tx) as [|v rest] eqn:Hv; [done|].
    intros [= <-]. cbn [for_each]. unfold bind.
    rewrite !run_no_fault. by rewrite for_each_map_run.
  - intros [= <-]. cbn [for_each]. unfold bind.
    rewrite !run_no_fault. unfold ret. by rewrite for_each_map_run.
Qed.

Lemma block2_no_fault txs : forall s qs,
  FundsFlow.block2_queries txs = Some qs ->
  exists s',
    for_each txs (FundsFlow.write_tx2 fl) s = (Returned tt, s') /\
    working s' = exec_all qs (working s).
Proof.
  induction txs as [|tx txs IH]; intros s qs Hq; simpl in Hq.
  - inversion Hq; subst. by exists s.
  - destruct (FundsFlow.tx2_queries tx) as [q1|] eqn:E1; [|done].
    destruct (FundsFlow.block2_queries txs) as [q2|] eqn:E2; [|done].
    inversion Hq; subst. cbn [for_each]. unfold bind.
    rewrite (write_tx2_as_queries tx q1 s E1).
    destruct (for_each_run_no_fault fl q1 s no_fault) as (s1 & -> & Hw1).
    destruct (IH s1 q2 eq_refl) as (s' & -> & Hw').
    exists s'. split; [done|]. by rewrite exec_all_app, Hw', Hw1.
Qed.

End SecondWriterFacts.

Section SecondWriterQueries.
Import Block Graph Driver.

Lemma block2_queries_total txs :
  (forall t, t ∈ txs -> is_coinbase t = true -> vouts t <> []) ->
  exists qs, FundsFlow.block2_queries txs = Some qs.
Proof.
  induction txs as [|tx txs IH]; intros H; simpl; [by eexists|].
  destruct IH as [qs' ->].
  { intros t Ht. apply H. apply elem_of_cons. by right. }
  assert (Ht : exists q, FundsFlow.tx2_queries tx = Some q).
  { unfold FundsFlow.tx2_queries.
    destruct (is_coinbase tx) eqn:Hc; [|by eexists].
    destruct (vouts tx) eqn:Hv; [|by eexists].
    exfalso. apply (H tx); [apply elem_of_cons; by left|done|done]. }
  destruct Ht as [q ->]. by eexists.
Qed.

Lemma block2_queries_split pre tx post : forall qs,
  FundsFlow.block2_queries (pre ++ tx :: post) = Some qs ->
  exists qa qt qb,
    FundsFlow.tx2_queries tx = Some qt /\ qs = qa ++ qt ++ qb.
Proof.
  induction pre as [|p pre IH]; intros qs H; simpl in H.
  - destruct (FundsFlow.tx2_queries tx) as [qt|]; [|done].
    destruct (FundsFlow.block2_queries post) as [qb|]; [|done].
    inversion H; subst. by exists [], qt, qb.
  - destruct (FundsFlow.tx2_queries p) as [qp|]; [|done].
    destruct (FundsFlow.block2_queries (pre ++ tx :: post)) as [qr|]; [|done].
    inversion H; subst.
    destruct (IH qr eq_refl) as (qa & qt & qb & Ht & ->).
    exists (qp ++ qa), qt, qb. split; [done|]. by rewrite <- app_assoc.
Qed.

End SecondWriterQueries.

Section SecondWriterTheorem.
Import Block Graph Driver.

(** C10: in create_graph_focused_on_money_flow2, on a store without
    duplicate keys and with no call raising, the block is committed and,
    for a coinbase transaction with first output [v], the committed
    relationships contain, next to each other, one SENT relationship to the
    address of [v] with is_coinbase true and one with is_coinbase false,
    both with the amount of [v]. *)
Theorem coinbase_first_output_two_edges (fl : faults) (g : graph)
    (pre post : list Tx) (tx : Tx) (v : Vout) (rest : list Vout) :
  (forall n, fl n = None) ->
  unique_keys g ->
  (forall t, t ∈ pre ++ tx :: post -> is_coinbase t = true -> vouts t <> []) ->
  is_coinbase tx = true ->
  vouts tx = v :: rest ->
  exists s es1 es2,
    FundsFlow.create_graph_focused_on_money_flow2 fl g (pre ++ tx :: post)
      = (Returned true, s) /\
    edges (committed s) =
      es1 ++ [FundsFlow.vout_edge tx v true; FundsFlow.vout_edge tx v false]
          ++ es2 /\
    se_is_coinbase (FundsFlow.vout_edge tx v true) = Some true /\
    se_is_coinbase (FundsFlow.vout_edge tx v false) = Some false /\
    se_value_satoshi (FundsFlow.vout_edge tx v true) = vout_value_satoshi v /\
    se_value_satoshi (FundsFlow.vout_edge tx v false) = vout_value_satoshi v /\
    se_address (FundsFlow.vout_edge tx v true) = vout_address v /\
    se_address (FundsFlow.vout_edge tx v false) = vout_address v.
Proof.
  intros Hfl Hu Hall Hcb Hv.
  destruct (block2_queries_total _ Hall) as [qs Hq].
  destruct (block2_no_fault fl Hfl _ (begin_transaction g) qs Hq)
    as (s' & Hs' & Hw).
  pose proof (writer_outcome fl
                (for_each (pre ++ tx :: post) (FundsFlow.write_tx2 fl))
                close g
                (inert_for_each _ _ (write_tx2_inert fl))
                releases_close) as (_ & _ & _ & _ & Hok & _).
  change (try_except_finally _ _ _ _) with
    (FundsFlow.create_graph_focused_on_money_flow2 fl g (pre ++ tx :: post))
    in Hok.
  rewrite Hs' in Hok. destruct (Hok eq_refl (Hfl _)) as [Hr Hc].
  destruct (FundsFlow.create_graph_focused_on_money_flow2 fl g
              (pre ++ tx :: post)) as [r s]. simpl in *. subst r.
  destruct (block2_queries_split pre tx post qs Hq) as (qa & qt & qb & Ht & ->).
  unfold FundsFlow.tx2_queries in Ht. rewrite Hcb, Hv in Ht.
  inversion Ht; subst qt. clear Ht.
  exists s, (edges g ++ concat (map q_edges qa)),
    (concat (map q_edges
       (map (fun vout => CreateSent [FundsFlow.vout_edge tx vout false]) rest))
     ++ concat (map q_edges qb)).
  split; [done|]. split; [|done].
  rewrite Hc, Hw. simpl. rewrite exec_all_edges by done.
  rewrite !map_app, !concat_app. simpl.
  rewrite !map_app, !concat_app. by rewrite <- !app_assoc.
Qed.

End SecondWriterTheorem.

(** ** The backfill scheduler of the start-up code. *)
(** ** The float quotient against the exact one. *)
Section FloatFacts.
Import PyFloat.

Lemma scale_pos x p : 0 <= p -> scale x p = x * 2 ^ p.
Proof. intros H. unfold scale. by rewrite Z.max_r. Qed.

Lemma scale_neg x p : p <= 0 -> scale x p = x.
Proof. intros H. unfold scale. rewrite Z.max_l by done. simpl. lia. Qed.

Lemma pow2_pos p : 0 <= p -> 0 < 2 ^ p.
Proof. intros H. by apply Z.pow_pos_nonneg. Qed.

Lemma pow2_add p q : 0 <= p -> 0 <= q -> 2 ^ p * 2 ^ q = 2 ^ (p + q).
Proof. intros Hp Hq. by rewrite Z.pow_add_r. Qed.

(** [2^e <= n / d < 2^(e+1)], without fractions. *)
Definition at_least_pow (n d e : Z) : Prop := scale d e <= scale n (- e).

Lemma floor_log2_spec n d :
  0 < n -> 0 < d ->
  at_least_pow n d (floor_log2 n d) /\ ~ at_least_pow n d (floor_log2 n d + 1).
Proof.
  intros Hn Hd. unfold floor_log2.
  destruct (Z.log2_spec n Hn) as [Ln Un].
  destruct (Z.log2_spec d Hd) as [Ld Ud].
  pose proof (Z.log2_nonneg n) as Hln. pose proof (Z.log2_nonneg d) as Hld.
  set (la := Z.log2 n) in *. set (lb := Z.log2 d) in *.
  rewrite <- Z.add_1_r in Un, Ud.
  assert (A : at_least_pow n d (la - lb - 1)).
  { unfold at_least_pow. destruct (decide (0 <= la - lb - 1)) as [H|H].
    - rewrite scale_pos, scale_neg by lia.
      pose proof (pow2_add (lb + 1) (la - lb - 1) ltac:(lia) ltac:(lia)) as E.
      replace (lb + 1 + (la - lb - 1)) with la in E by lia.
      pose proof (pow2_pos (la - lb - 1) ltac:(lia)). nia.
    - rewrite scale_neg, scale_pos by lia.
      pose proof (pow2_add la (- (la - lb - 1)) ltac:(lia) ltac:(lia)) as E.
      replace (la + - (la - lb - 1)) with (lb + 1) in E by lia.
      pose proof (pow2_pos (- (la - lb - 1)) ltac:(lia)). nia. }
  assert (B : ~ at_least_pow n d (la - lb + 1)).
  { unfold at_least_pow. destruct (decide (0 <= la - lb + 1)) as [H|H].
    - rewrite scale_pos, scale_neg by lia.
      pose proof (pow2_add lb (la - lb + 1) ltac:(lia) ltac:(lia)) as E.
      replace (lb + (la - lb + 1)) with (la + 1) in E by lia.
      pose proof (pow2_pos (la - lb + 1) ltac:(lia)). nia.
    - rewrite scale_neg, scale_pos by lia.
      pose proof (pow2_add (la + 1) (- (la - lb + 1)) ltac:(lia) ltac:(lia)) as E.
      replace (la + 1 + - (la - lb + 1)) with lb in E by lia.
      pose proof (pow2_pos (- (la - lb + 1)) ltac:(lia)). nia. }
  destruct (scale d (la - lb) <=? scale n (- (la - lb))) eqn:E.
  - apply Z.leb_le in E. split; [exact E|exact B].
  - apply Z.leb_gt in E. split; [exact A|].
    replace (la - lb - 1 + 1) with (la - lb) by lia.
    unfold at_least_pow. lia.
Qed.

Lemma round_half_even_cases n d :
  0 < d ->
  round_half_even n d = n `div` d \/
  (round_half_even n d = n `div` d + 1 /\ d <= 2 * (n `mod` d)).
Proof.
  intros Hd. unfold round_half_even.
  destruct (2 * (n `mod` d) <? d) eqn:E1; [by left|].
  apply Z.ltb_ge in E1.
  destruct (d <? 2 * (n `mod` d)); [by right|].
  destruct (Z.even (n `div` d)); [by left|by right].
Qed.

(** Below [2^53] the floor of the float quotient is the floor of the exact
    quotient. *)
Lemma floor_true_div_exact a b :
  0 <= a < 2 ^ 53 -> 1 <= b ->
  floor <$> true_div a b = Some (a `div` b).
Proof.
  intros Ha Hb. unfold true_div.
  destruct (b =? 0) eqn:Eb; [lia|].
  destruct (a =? 0) eqn:Ea.
  { apply Z.eqb_eq in Ea. subst a. simpl.
    rewrite (Z.div_0_l b) by lia. reflexivity. }
  apply Z.eqb_neq in Ea. cbv zeta.
  rewrite (Z.abs_eq a), (Z.abs_eq b) by lia.
  rewrite (Z.sgn_pos a), (Z.sgn_pos b) by lia.
  destruct (floor_log2_spec a b ltac:(lia) ltac:(lia)) as [Hlo Hhi].
  set (e := floor_log2 a b) in *.
  unfold at_least_pow in Hlo, Hhi.
  assert (He : e <= 52).
  { destruct (decide (e <= 52)) as [|Hgt]; [done|]. exfalso.
    rewrite scale_pos, scale_neg in Hlo by lia.
    assert (HY : 2 ^ 53 <= 2 ^ e) by (apply Z.pow_le_mono_r; lia).
    revert Hlo HY Ha.
    generalize (2 ^ e), (2 ^ 53). intros Y Z0 ? ? ?. nia. }
  set (p := Z.max (e - 52) (-1074)).
  assert (Hp : -1074 <= p <= 0) by lia.
  rewrite (scale_pos a (- p)), (scale_neg b p) by lia.
  rewrite (scale_pos (2 ^ 1024) (- p)) by lia.
  set (s := - p).
  pose proof (pow2_pos s ltac:(lia)) as HX.
  set (X := 2 ^ s) in *.
  set (m := round_half_even (a * X) b).
  rewrite (scale_neg m p) by lia.
  assert (Hq0 : ((a * X) `div` b) `div` X = a `div` b).
  { rewrite Z.div_div by lia.
    rewrite Z.div_mul_cancel_r by lia. done. }
  pose proof (Z.div_mod (a * X) b ltac:(lia)) as HN.
  pose proof (Z.mod_pos_bound (a * X) b ltac:(lia)) as Hr0.
  pose proof (Z.div_mod a b ltac:(lia)) as Hk.
  pose proof (Z.mod_pos_bound a b ltac:(lia)) as Hr.
  pose proof (Z.div_pos a b ltac:(lia) ltac:(lia)) as Hk0.
  assert (Hq0' : 0 <= (a * X) `div` b <= a * X).
  { split; [apply Z.div_pos; lia|].
    apply Z.div_le_upper_bound; [lia|]. nia. }
  assert (Hm : 0 <= m <= a * X + 1 /\ m `div` X = a `div` b).
  { destruct (round_half_even_cases (a * X) b ltac:(lia)) as [E|[E Hhalf]];
      fold m in E; rewrite E; [split; [lia|done]|].
    split; [lia|].
    set (q0 := (a * X) `div` b) in *. set (r0 := (a * X) `mod` b) in *.
    set (k := a `div` b) in *. set (r := a `mod` b) in *.
    assert (Hk1 : k * X <= q0 < (k + 1) * X).
    { pose proof (Z.div_mod q0 X ltac:(lia)) as H1.
      pose proof (Z.mod_pos_bound q0 X ltac:(lia)) as H2.
      rewrite Hq0 in H1. lia. }
    assert (Hup : q0 + 1 < (k + 1) * X).
    { destruct (decide (-1074 <= e - 52)) as [Hn|Hs].
      - (* the last place is 52 below the exponent *)
        assert (Hb2 : b < 2 * X).
        { assert (s = 52 - e) by lia.
          destruct (decide (0 <= e)) as [He0|He0].
          - rewrite scale_pos, scale_neg in Hlo by lia.
            pose proof (pow2_add (s + 1) e ltac:(lia) ltac:(lia)) as E2.
            replace (s + 1 + e) with 53 in E2 by lia.
            rewrite Z.pow_add_r in E2 by lia. fold X in E2.
            pose proof (pow2_pos e ltac:(lia)). nia.
          - rewrite scale_neg, scale_pos in Hlo by lia.
            pose proof (pow2_add 53 (- e) ltac:(lia) ltac:(lia)) as E2.
            replace (53 + - e) with (s + 1) in E2 by lia.
            rewrite (Z.pow_add_r 2 s 1) in E2 by lia. fold X in E2.
            pose proof (pow2_pos (- e) ltac:(lia)). nia. }
        assert (2 * b * (q0 + 1) < 2 * b * ((k + 1) * X)) by nia.
        nia.
      - (* a subnormal result *)
        assert (s = 1074) by lia.
        rewrite scale_neg, scale_pos in Hhi by lia.
        assert (Hk00 : k = 0).
        { apply Z.div_small. split; [lia|].
          pose proof (pow2_pos (- (e + 1)) ltac:(lia)). nia. }
        assert (q0 < 2 ^ 52).
        { apply Z.div_lt_upper_bound; [lia|].
          assert (2 ^ 1022 <= 2 ^ (- (e + 1))) by (apply Z.pow_le_mono_r; lia).
          assert (EX : X = 2 ^ 1022 * 2 ^ 52).
          { unfold X. rewrite pow2_add by lia. f_equal. lia. }
          assert (0 < 2 ^ 52) by (by apply pow2_pos).
          nia. }
        rewrite Hk00.
        assert (2 ^ 52 + 1 < X).
        { unfold X. replace s with 1074 by lia. done. }
        lia. }
    symmetry. apply (Z.div_unique_pos _ _ _ (q0 + 1 - k * X)); lia. }
  destruct Hm as [Hm1 Hm2].
  destruct (2 ^ 1024 * X <=? m) eqn:Eo.
  { apply Z.leb_le in Eo. exfalso.
    assert (2 ^ 53 < 2 ^ 1024) by done. nia. }
  simpl. f_equal. unfold floor. simpl.
  change (Z.max (e - 52) (-1074)) with p.
  rewrite Z.mul_1_l, (scale_neg m p), (scale_pos 1 (- p)) by lia.
  fold s. fold X. rewrite Z.mul_1_l. done.
Qed.

(** A quotient of at most one does not overflow. *)
Lemma true_div_small a b :
  0 <= a <= b -> 0 < b -> exists x, true_div a b = Some x.
Proof.
  intros Ha Hb. unfold true_div.
  destruct (b =? 0) eqn:Eb; [lia|].
  destruct (a =? 0) eqn:Ea; [by eexists|].
  apply Z.eqb_neq in Ea. cbv zeta.
  rewrite (Z.abs_eq a), (Z.abs_eq b) by lia.
  destruct (floor_log2_spec a b ltac:(lia) ltac:(lia)) as [Hlo _].
  set (e := floor_log2 a b) in *.
  unfold at_least_pow in Hlo.
  assert (He : e <= 0).
  { destruct (decide (e <= 0)) as [|Hgt]; [done|]. exfalso.
    rewrite scale_pos, scale_neg in Hlo by lia.
    assert (HY : 2 ^ 1 <= 2 ^ e) by (apply Z.pow_le_mono_r; lia).
    revert Hlo HY. generalize (2 ^ e). intros Y ? ?. nia. }
  set (p := Z.max (e - 52) (-1074)).
  assert (Hp : -1074 <= p <= 0) by lia.
  rewrite (scale_pos a (- p)), (scale_neg b p) by lia.
  rewrite (scale_pos (2 ^ 1024) (- p)) by lia.
  pose proof (pow2_pos (- p) ltac:(lia)) as HX.
  set (X := 2 ^ (- p)) in *.
  set (m := round_half_even (a * X) b).
  rewrite (scale_neg m p) by lia.
  assert (Hq : (a * X) `div` b <= X).
  { apply Z.div_le_upper_bound; [lia|]. nia. }
  assert (Hm : m <= X + 1).
  { destruct (round_half_even_cases (a * X) b ltac:(lia)) as [E|[E _]];
      fold m in E; lia. }
  destruct (2 ^ 1024 * X <=? m) eqn:Eo; [|by eexists].
  apply Z.leb_le in Eo. exfalso.
  assert (2 < 2 ^ 1024) by done. nia.
Qed.

End FloatFacts.

Section SchedulerFacts.
Import EthIndexer.

(** The range of a thread that is not the final one. *)
Definition even_range (start depth : Z) (i : nat) : Z * Z :=
  (start + Z.of_nat i * depth, start + (Z.of_nat i + 1) * depth - 1).

(** The claim of the specification about [(start, stop, n)]: the ranges
    are computed, there are [n] of them, a height of [start..stop] lies in
    exactly one of them and any other height in none, each range starts
    right after the one before, the first starts at [start] and the final
    one ends at [stop]. *)
Definition partition_exact (start stop n : Z) : Prop :=
  exists rs,
    thread_ranges start stop n = Some rs /\
    length rs = Z.to_nat n /\
    (forall h, length (filter (covers h) rs) =
               if bool_decide (start <= h <= stop) then 1%nat else 0%nat) /\
    (forall i r1 r2, rs !! i = Some r1 -> rs !! S i = Some r2 ->
                     r2.1 = r1.2 + 1) /\
    fst <$> head rs = Some start /\
    snd <$> last rs = Some stop.

Lemma count_even start depth h k :
  0 <= depth ->
  length (filter (covers h) (map (even_range start depth) (seq 0 k))) =
  if bool_decide (start <= h < start + Z.of_nat k * depth) then 1%nat else 0%nat.
Proof.
  intros Hd. induction k as [|k IH].
  - simpl. case_bool_decide; [lia|done].
  - rewrite seq_S, map_app, filter_app, length_app, IH. simpl.
    rewrite filter_cons, filter_nil. unfold covers, even_range. simpl.
    rewrite Nat2Z.inj_succ, Z.mul_succ_l.
    repeat case_bool_decide; case_decide; simpl; lia.
Qed.

Lemma lookup_even start depth k i r :
  map (even_range start depth) (seq 0 k) !! i = Some r ->
  r = even_range start depth i /\ (i < k)%nat.
Proof.
  change (map (even_range start depth) (seq 0 k))
    with (even_range start depth <$> seq 0 k).
  rewrite list_lookup_fmap.
  destruct (seq 0 k !! i) as [j|] eqn:E; simpl; [|done].
  intros [= <-]. apply lookup_seq in E as [-> ?]. done.
Qed.

Lemma thread_ranges_shape start stop n :
  1 <= n -> 0 <= stop - start < 2 ^ 53 ->
  exists k,
    Z.of_nat k = n - 1 /\
    thread_ranges start stop n =
    Some (map (even_range start ((stop - start) `div` n)) (seq 0 k) ++
          [(start + (n - 1) * ((stop - start) `div` n), stop)]).
Proof.
  intros Hn Hb. exists (Z.to_nat (n - 1)). split; [lia|].
  unfold thread_ranges, thread_depth.
  rewrite (floor_true_div_exact (stop - start) n Hb Hn). f_equal.
  replace (Z.to_nat n) with (S (Z.to_nat (n - 1))) by lia.
  rewrite seq_S, map_app. simpl. f_equal.
  - apply map_ext_in. intros i Hi. apply in_seq in Hi.
    unfold thread_range, even_range.
    destruct (Z.of_nat i =? n - 1) eqn:E'; [lia|done].
  - unfold thread_range, restHeight.
    replace (Z.of_nat (Z.to_nat (n - 1))) with (n - 1) by lia.
    rewrite Z.eqb_refl. f_equal. f_equal.
    pose proof (Z.div_mod (stop - start) n). lia.
Qed.

(** C3, as amended: for a worker count of at least one, a start height
    not above the end height and fewer than 2^53 heights between them (so
    that the float quotient is exact), the computed sub-ranges are
    contiguous and cover the heights from start to end once each and no
    other height, the final sub-range ending at the end height. *)
Theorem range_partition_exact (start stop n : Z) :
  1 <= n -> start <= stop -> stop - start < 2 ^ 53 ->
  partition_exact start stop n.
Proof.
  intros Hn Hle Hb.
  destruct (thread_ranges_shape start stop n Hn ltac:(lia)) as (k & Hk & Hrs).
  set (d := (stop - start) `div` n) in *.
  assert (Hd : 0 <= d) by (apply Z.div_pos; lia).
  assert (Hnd : n * d <= stop - start) by (apply Z.mul_div_le; lia).
  eexists. split; [exact Hrs|]. split; [|split; [|split; [|split]]].
  - rewrite length_app, length_map, length_seq. simpl. lia.
  - intros h. rewrite filter_app, length_app, count_even by done.
    rewrite filter_cons, filter_nil. unfold covers. simpl. rewrite Hk.
    repeat case_bool_decide; case_decide; simpl; nia.
  - intros i r1 r2 H1 H2.
    apply lookup_app_Some in H1 as [H1|[Hlen H1]].
    + apply lookup_even in H1 as [-> Hi].
      apply lookup_app_Some in H2 as [H2|[Hlen2 H2]].
      * apply lookup_even in H2 as [-> _]. unfold even_range. simpl. lia.
      * rewrite length_map, length_seq in *.
        apply list_lookup_singleton_Some in H2 as [Hz <-].
        unfold even_range. simpl. nia.
    + rewrite length_map, length_seq in *.
      apply list_lookup_singleton_Some in H1 as [Hz _].
      apply lookup_app_Some in H2 as [H2|[_ H2]].
      * apply lookup_even in H2 as [_ ?]. lia.
      * rewrite length_map, length_seq in H2.
        apply list_lookup_singleton_Some in H2 as [Hz2 _]. lia.
  - rewrite head_lookup. destruct k as [|k].
    + simpl. f_equal. nia.
    + simpl. f_equal. lia.
  - by rewrite last_snoc.
Qed.

End SchedulerFacts.

Section SchedulerTheorems.
Import EthIndexer.

Lemma range_partition_exact_witness : partition_exact 0 100 8.
Proof. apply (range_partition_exact 0 100 8); [lia|lia|reflexivity]. Defined.

(** C3 fails as stated: from start 10 to end 9 with three workers the
    final worker is handed the heights 8 and 9. *)
Lemma range_partition_start_above_end : ~ partition_exact 10 9 3.
Proof.
  intros (rs & Hrs & _ & Hcount & _).
  vm_compute in Hrs. inversion Hrs; subst rs.
  specialize (Hcount 8). vm_compute in Hcount. discriminate.
Qed.

(** The bound on the number of heights is needed: the quotient is a
    float, and from 2^53 heights on it is rounded. One worker for the
    heights 1 to 2^53 + 2 is handed the range that ends at 2^53 + 1. *)
Lemma range_partition_rounded :
  thread_ranges 1 (2 ^ 53 + 2) 1 = Some [(1, 2 ^ 53 + 1)] /\
  thread_ranges 0 (2 ^ 53 + 3) 2 =
    Some [(0, 2 ^ 52 + 1); (2 ^ 52 + 2, 2 ^ 53 + 5)].
Proof. split; reflexivity. Qed.

(** The claim of the specification about where the head follower starts. *)
Definition follower_starts_after_latest (cfg : settings) (latest current : Z)
  : Prop :=
  ETHEREUM_START_BLOCK_HEIGHT cfg = None ->
  forall p, main cfg latest current = Some p -> follower_start p = latest + 1.

(** C5, as amended: without a start-height override the backfill range
    starts one past the latest indexed height, and the head follower
    starts one past the end of the backfill range, which is the chain tip
    at start-up or the end-height override when that is larger. *)
Theorem follower_starts_after_backfill (cfg : settings) (latest current : Z)
    (p : plan) :
  ETHEREUM_START_BLOCK_HEIGHT cfg = None ->
  main cfg latest current = Some p ->
  backfill_start p = latest + 1 /\
  follower_start p = backfill_last p + 1 /\
  backfill_last p =
    match ETHEREUM_LAST_BLOCK_HEIGHT cfg with
    | Some l => Z.max l current
    | None => current
    end /\
  current < follower_start p.
Proof.
  intros Hs Hm. unfold main in Hm.
  destruct (thread_ranges _ _ _) as [rs|]; [|done].
  inversion Hm; subst p. clear Hm. simpl.
  unfold start_height, last_height. rewrite Hs.
  destruct (ETHEREUM_LAST_BLOCK_HEIGHT cfg) as [l|]; [|lia].
  destruct (current >? l) eqn:E; lia.
Qed.

End SchedulerTheorems.

Section SchedulerExamples.
Import EthIndexer Examples.

Lemma follower_starts_after_backfill_witness :
  exists p,
    main default_settings 100 200 = Some p /\
    backfill_start p = 100 + 1 /\
    follower_start p = backfill_last p + 1 /\
    backfill_last p = 200 /\
    200 < follower_start p.
Proof.
  eexists. split; [reflexivity|].
  apply (follower_starts_after_backfill default_settings 100 200); reflexivity.
Defined.

(** C5 fails as stated: with the store indexed up to 100 and the chain
    tip at 200 the head follower is started at 201, not at 101. *)
Lemma follower_does_not_start_after_latest :
  ~ follower_starts_after_latest default_settings 100 200.
Proof.
  intros H. specialize (H eq_refl _ eq_refl). vm_compute in H. discriminate.
Qed.

End SchedulerExamples.

Section BatchWriterExamples.
Import Block Netting Graph Driver Examples.

Lemma batch_writer_atomic_witness :
  (FundsFlowV2.create_graph_focused_on_money_flow first_fault change_node
     Graph.empty [coinbase_tx; change_tx] 8).1 = Returned false /\
  committed
    (FundsFlowV2.create_graph_focused_on_money_flow first_fault change_node
       Graph.empty [coinbase_tx; change_tx] 8).2 = Graph.empty /\
  closed
    (FundsFlowV2.create_graph_focused_on_money_flow first_fault change_node
       Graph.empty [coinbase_tx; change_tx] 8).2 = true /\
  exists s,
    FundsFlowV2.create_graph_focused_on_money_flow no_faults change_node
      Graph.empty [coinbase_tx; change_tx] 8 = (Returned true, s) /\
    tx_ids (committed s) = ["t0"; "t1"]%string /\
    closed s = true.
Proof.
  destruct (batch_writer_atomic first_fault change_node Graph.empty
              [coinbase_tx; change_tx] 8)
    as ((Hcl & Hno & _ & Hfalse & _) & _ & _ & _ & _).
  pose proof (Hfalse eq_refl eq_refl) as Hf.
  split; [exact Hf|]. split.
  { apply Hno. rewrite Hf. discriminate. }
  split; [exact Hcl|].
  destruct (batch_writer_atomic no_faults change_node Graph.empty
              [coinbase_tx; change_tx] 8) as (_ & _ & _ & _ & H).
  destruct (H (fun _ => eq_refl) _ eq_refl) as [H2 _].
  destruct (H2 _ eq_refl) as (s & Hs & Hc & Hcl').
  exists s. split; [exact Hs|]. split; [|exact Hcl'].
  rewrite Hc. reflexivity.
Defined.

(** C2 fails as stated: when a statement of the batch and then the
    rollback raise, the second exception leaves the writer; it returns
    nothing, and so not False. *)
Lemma failed_rollback_escapes :
  ~ failure_reported all_faults change_node Graph.empty
      [coinbase_tx; change_tx] 8.
Proof.
  intros H. specialize (H Exception eq_refl). vm_compute in H. discriminate.
Qed.

(** What the writer does there: the exception of the rollback is its
    outcome, the store is untouched and the transaction is closed. *)
Lemma failed_rollback_outcome :
  exists s,
    FundsFlowV2.create_graph_focused_on_money_flow all_faults change_node
      Graph.empty [coinbase_tx; change_tx] 8 = (Raised Exception, s) /\
    committed s = Graph.empty /\ closed s = true.
Proof. eexists. split; [reflexivity|]. split; reflexivity. Qed.

Lemma node_upsert_idempotent_witness :
  same_nodes
    (committed
       (FundsFlowV2.create_graph_focused_on_money_flow no_faults change_node
          (committed
             (FundsFlowV2.create_graph_focused_on_money_flow no_faults
                change_node Graph.empty [coinbase_tx; change_tx] 8).2)
          [coinbase_tx; change_tx] 8).2)
    (committed
       (FundsFlowV2.create_graph_focused_on_money_flow no_faults change_node
          Graph.empty [coinbase_tx; change_tx] 8).2).
Proof.
  apply (proj1 (node_upsert_idempotent no_faults no_faults change_node
                  Graph.empty [coinbase_tx; change_tx] 8) _ eq_refl).
Defined.

Lemma coinbase_first_output_two_edges_witness :
  exists s es1 es2,
    FundsFlow.create_graph_focused_on_money_flow2 no_faults Graph.empty
      ([] ++ coinbase_tx :: [change_tx]) = (Returned true, s) /\
    edges (committed s) =
      es1 ++ [FundsFlow.vout_edge coinbase_tx
                {| vout_value_satoshi := 500000; vout_address := "M" |} true;
              FundsFlow.vout_edge coinbase_tx
                {| vout_value_satoshi := 500000; vout_address := "M" |} false]
          ++ es2.
Proof.
  destruct (coinbase_first_output_two_edges no_faults Graph.empty
              [] [change_tx] coinbase_tx
              {| vout_value_satoshi := 500000; vout_address := "M" |} [])
    as (s & es1 & es2 & Hs & He & _).
  - intros n. reflexivity.
  - split; apply NoDup_nil_2.
  - intros t Ht _.
    apply elem_of_cons in Ht as [->|Ht]; [done|].
    apply list_elem_of_singleton in Ht as ->. done.
  - reflexivity.
  - reflexivity.
  - exists s, es1, es2. split; [exact Hs|exact He].
Defined.

End BatchWriterExamples.

(** ** The two indexing loops. *)
Section LoopFacts.
Import EthIndexer.
Variable e : env.
Variable k : loop.
Variable start_height : Z.

(** The extra node call of [index_blocks] for its progress figure, made at
    time [t]; the worker makes none. *)
Definition progress_poll (t : nat) : list event :=
  match k with
  | Follower => [GetCurrentHeight (tip e t)]
  | Worker _ => []
  end.

(** Does the division of the progress figure raise for the block at
    [block_height], the node answering at time [t]. *)
Definition progress_raises (block_height : Z) (t : nat) : bool :=
  match k with
  | Follower => division_raises block_height (tip e t)
  | Worker last_height =>
      division_raises (block_height - start_height)
        (last_height - start_height)
  end.

(** The sleep that ends an iteration on a block of [n] transactions;
    nothing when [time.sleep] raises. *)
Definition pause (n : nat) (success : bool) : list event :=
  if success then
    if Z.of_nat n >? threshold e then
      match sleep (delay e) with
      | Some ev => [ev]
      | None => []
      end
    else []
  else [Sleep (inject_Z 30)].

(** Does that sleep raise. *)
Definition pause_raises (n : nat) (success : bool) : bool :=
  success && (Z.of_nat n >? threshold e) &&
  match sleep (delay e) with
  | Some _ => false
  | None => true
  end.

(** Does an iteration on a block that holds transactions raise. *)
Definition iteration_raises (block_height : Z) (t : nat) (n : nat)
    (success : bool) : bool :=
  progress_raises block_height t || pause_raises n success.

Definition is_sleep (ev : event) : Prop :=
  match ev with
  | Sleep _ => True
  | _ => False
  end.

Lemma sleep_is_sleep d ev : sleep d = Some ev -> is_sleep ev.
Proof.
  destruct d as [q| |]; simpl; [|done|done].
  destruct (_ && _); [|done]. by intros [= <-].
Qed.

Lemma pause_sleeps n success : Forall is_sleep (pause n success).
Proof.
  unfold pause. destruct success; [|by repeat constructor].
  destruct (Z.of_nat n >? threshold e); [|constructor].
  destruct (sleep (delay e)) as [ev|] eqn:E; [|constructor].
  apply Forall_cons_2; [by eapply sleep_is_sleep|constructor].
Qed.

Lemma inner_step_done block_height current tr :
  current - skip_blocks < block_height ->
  inner_step e k start_height block_height current tr = {| at_pc := AtOuter; trace := tr |}.
Proof.
  intros H. unfold inner_step.
  destruct (block_height <=? current - skip_blocks) eqn:E; [lia|done].
Qed.

Lemma inner_step_empty block_height current tr :
  block_height <= current - skip_blocks ->
  num_transactions e block_height = 0%nat ->
  inner_step e k start_height block_height current tr =
  {| at_pc := AtInner (block_height + 1) current;
     trace := tr ++ [GetBlock block_height] |}.
Proof.
  intros H Hn. unfold inner_step.
  destruct (block_height <=? current - skip_blocks) eqn:E; [|lia].
  by rewrite Hn.
Qed.

(** One iteration on a block that holds transactions. *)
Lemma inner_step_body block_height current tr :
  block_height <= current - skip_blocks ->
  num_transactions e block_height <> 0%nat ->
  let n := num_transactions e block_height in
  let t := length tr in
  let success := write_ok e (t + 2) in
  let raised := iteration_raises block_height (t + 3) n success in
  let tr' :=
    tr ++ [GetBlock block_height; CreateInMemoryGraph block_height;
           WriteGraph block_height success]
       ++ progress_poll (t + 3)
       ++ (if raised then [] else pause n success) in
  inner_step e k start_height block_height current tr =
  {| at_pc :=
       if raised then Crashed
       else if shutdown_flag e (length tr') then AtOuter
       else AtInner (if success then block_height + 1 else block_height) current;
     trace := tr' |}.
Proof.
  intros H Hn. simpl. unfold inner_step.
  destruct (block_height <=? current - skip_blocks) eqn:E; [|lia].
  destruct (Nat.eqb (num_transactions e block_height) 0) eqn:E0;
    [by apply Nat.eqb_eq in E0|].
  rewrite !length_app. simpl.
  replace (length tr + 1 + 1)%nat with (length tr + 2)%nat by lia.
  replace (length tr + 2 + 1)%nat with (length tr + 3)%nat by lia.
  unfold iteration_raises, progress_poll, progress_raises, pause_raises, pause.
  destruct k as [|last_height]; simpl;
    repeat (match goal with
            | |- context [division_raises ?a ?b] =>
                destruct (division_raises a b) eqn:?
            | |- context [write_ok e ?t] => destruct (write_ok e t) eqn:?
            | |- context [Z.of_nat ?n >? ?m] => destruct (Z.of_nat n >? m) eqn:?
            | |- context [sleep ?d] => destruct (sleep d) eqn:?
            end; simpl);
    rewrite <- ?app_assoc; simpl; rewrite ?app_nil_r; try reflexivity;
    match goal with
    | |- (if shutdown_flag e ?a then _ else _) =
         {| at_pc := if shutdown_flag e ?b then _ else _; trace := _ |} =>
        replace a with b by (rewrite ?length_app; simpl; lia);
        destruct (shutdown_flag e b); reflexivity
    end.
Qed.

End LoopFacts.

(** ** What every trace of a loop satisfies. *)
Section TraceFacts.
Import EthIndexer.
Variable e : env.
Variable start_height : Z.

(** An event that hands a block to the graph creator or writer does so
    for a block that holds transactions. *)
Definition touches_nonempty (ev : event) : Prop :=
  match ev with
  | CreateInMemoryGraph h | WriteGraph h _ => num_transactions e h <> 0%nat
  | _ => True
  end.

Definition no_fetch (ev : event) : Prop := forall h, ev <> GetBlock h.

Ltac quiet :=
  repeat first
    [ apply Forall_nil_2
    | apply Forall_cons_2
    | exact I
    | (intros ?; discriminate)
    | done ].

Lemma pause_no_fetch (n : nat) (success raised : bool) :
  Forall no_fetch (if raised then [] else pause e n success).
Proof.
  destruct raised; [constructor|].
  eapply Forall_impl; [apply pause_sleeps|]. by intros [] ?.
Qed.

Lemma tail_no_fetch k (n : nat) (success : bool) (t t' : nat) (raised : bool) :
  Forall no_fetch
    (progress_poll e k t ++ (if raised then [] else pause e n success)) /\
  Forall touches_nonempty
    (progress_poll e k t' ++ (if raised then [] else pause e n success)).
Proof.
  unfold progress_poll.
  split; apply Forall_app; split;
    try (destruct raised; [quiet|];
         eapply Forall_impl; [apply pause_sleeps|];
         by intros [] ?);
    repeat case_match; quiet.
Qed.

Lemma step_nonempty k s :
  Forall touches_nonempty (trace s) ->
  Forall touches_nonempty (trace (step e k start_height s)).
Proof.
  intros H. destruct s as [[|bh cur| |] tr]; unfold step; simpl in *;
    [| |exact H|exact H].
  - unfold outer_step. destruct (shutdown_flag e (length tr)); [done|].
    destruct k as [|last_height];
      repeat case_match; simpl; rewrite ?Forall_app;
      repeat split; quiet.
  - destruct (decide (bh <= cur - skip_blocks)) as [Hle|Hgt].
    + destruct (decide (num_transactions e bh = 0%nat)) as [Hz|Hnz].
      * rewrite inner_step_empty by done. simpl.
        apply Forall_app. split; [done|]. quiet.
      * rewrite inner_step_body by done. simpl.
        apply Forall_app. split; [done|].
        repeat (apply Forall_cons_2; [done|]).
        apply (tail_no_fetch k _ _ 0%nat).
    + rewrite inner_step_done by lia. done.
Qed.

Lemma run_nonempty k fuel :
  Forall touches_nonempty (trace (run e k start_height fuel)).
Proof.
  induction fuel as [|fuel IH]; [by constructor|].
  apply step_nonempty, IH.
Qed.

(** Every block fetched lies 12 below a height that the node reported
    before the fetch. *)
Definition polled (tr : list event) (t0 : nat) : Prop :=
  tr !! t0 = Some (GetCurrentHeight (tip e t0)).

Definition timed (tr : list event) : Prop :=
  forall t h, tr !! t = Some (GetBlock h) ->
    exists t0, (t0 < t)%nat /\ polled tr t0 /\ h <= tip e t0 - 12.

Lemma polled_app tr evs t0 : polled tr t0 -> polled (tr ++ evs) t0.
Proof. unfold polled. intros H. by apply lookup_app_l_Some. Qed.

Lemma timed_app_quiet tr evs :
  timed tr -> Forall no_fetch evs -> timed (tr ++ evs).
Proof.
  intros Ht Hq t h Hl. apply lookup_app_Some in Hl as [Hl|[_ Hl]].
  - destruct (Ht t h Hl) as (t0 & ? & ? & ?). exists t0.
    split; [done|]. split; [by apply polled_app|done].
  - exfalso. eapply (proj1 (Forall_lookup _ _) Hq); [exact Hl|done].
Qed.

Lemma timed_app_fetch tr bh evs t0 :
  timed tr -> (t0 < length tr)%nat -> polled tr t0 -> bh <= tip e t0 - 12 ->
  Forall no_fetch evs ->
  timed (tr ++ GetBlock bh :: evs).
Proof.
  intros Ht Ht0 Hp Hb Hq t h Hl.
  apply lookup_app_Some in Hl as [Hl|[Hlen Hl]].
  - destruct (Ht t h Hl) as (t1 & ? & ? & ?). exists t1.
    split; [done|]. split; [by apply polled_app|done].
  - destruct (t - length tr)%nat as [|j] eqn:Ej; simpl in Hl.
    + inversion Hl; subst. exists t0.
      split; [lia|]. split; [by apply polled_app|done].
    + exfalso. eapply (proj1 (Forall_lookup _ _) Hq); [exact Hl|done].
Qed.

(** The follower's invariant: the trace is timed, and the height the
    inner loop runs up to was read from the node at an earlier time. *)
Definition margin_inv (s : state) : Prop :=
  timed (trace s) /\
  match at_pc s with
  | AtInner _ cur =>
      exists t0, (t0 < length (trace s))%nat /\ polled (trace s) t0 /\
                 cur = tip e t0 - 6
  | _ => True
  end.

Lemma step_margin s :
  margin_inv s -> margin_inv (step e Follower start_height s).
Proof.
  intros [Ht Hpc]. destruct s as [[|bh cur| |] tr]; unfold step; simpl in *.
  - unfold outer_step. destruct (shutdown_flag e (length tr)); [done|].
    repeat case_match; simpl; split; try done.
    + rewrite <- app_assoc. apply timed_app_quiet; [done|]. quiet.
    + rewrite <- app_assoc. apply timed_app_quiet; [done|]. quiet.
    + apply timed_app_quiet; [done|]. quiet.
    + simpl. exists (length tr). split; [rewrite length_app; simpl; lia|].
      split; [|done]. unfold polled. by rewrite list_lookup_middle.
  - destruct Hpc as (t0 & Ht0 & Hp0 & ->).
    destruct (decide (bh <= tip e t0 - 6 - skip_blocks)) as [Hle|Hgt].
    + assert (Hb : bh <= tip e t0 - 12) by (unfold skip_blocks in Hle; lia).
      destruct (decide (num_transactions e bh = 0%nat)) as [Hz|Hnz].
      * rewrite inner_step_empty by done. simpl. split.
        -- eapply timed_app_fetch; [done|exact Ht0|done|done|quiet].
        -- simpl. exists t0. split; [rewrite length_app; lia|].
           split; [by apply polled_app|done].
      * rewrite inner_step_body by done. simpl. split.
        -- eapply timed_app_fetch; [done|exact Ht0|done|done|].
           repeat (apply Forall_cons_2; [intros ?; discriminate|]).
           apply pause_no_fetch.
        -- simpl. destruct (iteration_raises _ _ _ _ _ _ _); [done|].
           destruct (shutdown_flag e _); [done|].
           exists t0. split; [rewrite length_app; lia|].
           split; [by apply polled_app|done].
    + rewrite inner_step_done by lia. done.
  - done.
  - done.
Qed.

Lemma run_margin fuel : margin_inv (run e Follower start_height fuel).
Proof.
  induction fuel as [|fuel IH].
  - split; [|done]. intros t h Hl. done.
  - apply step_margin, IH.
Qed.

End TraceFacts.

Section LoopTheorems.
Import EthIndexer.

(** The claim of the specification about the margin: at the time of a
    fetch the block lies 6 below the height the node reports. *)
Definition margin_kept (e : env) (start_height : Z) : Prop :=
  forall fuel t h,
    trace (index_blocks e start_height fuel) !! t = Some (GetBlock h) ->
    h <= tip e t - 6.

(** C7, as amended: every block the head follower fetches lies 12 below a
    height that the node reported to it before the fetch; so, when the
    reported height never decreases, it lies at least the confirmation
    depth of 6 below the height of the time of the fetch. *)
Theorem follower_confirmation_margin (e : env) (start_height : Z)
    (fuel t : nat) (h : Z) :
  trace (index_blocks e start_height fuel) !! t = Some (GetBlock h) ->
  (exists t0,
     (t0 < t)%nat /\
     trace (index_blocks e start_height fuel) !! t0
       = Some (GetCurrentHeight (tip e t0)) /\
     h <= tip e t0 - 12) /\
  ((forall t1 t2, (t1 <= t2)%nat -> tip e t1 <= tip e t2) ->
   h <= tip e t - 6).
Proof.
  intros Hl.
  destruct (proj1 (run_margin e start_height fuel) t h Hl)
    as (t0 & Ht0 & Hp & Hh).
  split.
  - exists t0. split; [done|]. split; [exact Hp|done].
  - intros Hm. pose proof (Hm t0 t ltac:(lia)). lia.
Qed.

(** The claim of the specification about the cursor: it moves from a
    height to the next only with a successful write at that height in the
    trace. *)
Definition advance_needs_commit (e : env) (k : loop) (start_height : Z)
  : Prop :=
  forall fuel h cur,
    at_pc (run e k start_height fuel) = AtInner h cur ->
    at_pc (run e k start_height (S fuel)) = AtInner (h + 1) cur ->
    WriteGraph h true ∈ trace (run e k start_height (S fuel)).

(** C8, as amended: an iteration of either loop on a block that holds
    transactions. When the division of the progress figure raises (for
    the follower: the node answers 0, or a height so small that the
    quotient is no float) the loop is left at once, after a failed write
    too and without the sleep. Otherwise a failed write is followed by a
    sleep of 30 seconds and, unless shutdown was requested, by a new fetch
    of the same height; a successful write moves the cursor to the next
    height, with no sleep when the transaction count does not exceed the
    threshold and else with a sleep of the configured delay, or with the
    exception of [time.sleep] when it does not accept that delay. The
    cursor moves to the next height only after a successful write or on a
    block without transactions. For a worker inside its range the
    division does not raise. *)
Theorem retry_same_height_and_throttle (e : env) (k : loop)
    (start_height : Z) (s : state) (h cur : Z) :
  at_pc s = AtInner h cur ->
  h <= cur - skip_blocks ->
  let s' := step e k start_height s in
  let n := num_transactions e h in
  let success := write_ok e (length (trace s) + 2) in
  let raises := progress_raises e k start_height h (length (trace s) + 3) in
  let body :=
    trace s ++ [GetBlock h; CreateInMemoryGraph h; WriteGraph h success]
            ++ progress_poll e k (length (trace s) + 3) in
  let goes_on (h' : Z) :=
    if shutdown_flag e (length (trace s')) then at_pc s' = AtOuter
    else at_pc s' = AtInner h' cur in
  (n <> 0%nat -> raises = true -> at_pc s' = Crashed /\ trace s' = body) /\
  (n <> 0%nat -> raises = false -> success = false ->
     trace s' = body ++ [Sleep (inject_Z 30)] /\ goes_on h /\
     (shutdown_flag e (length (trace s')) = false ->
      exists evs,
        trace (step e k start_height s') = trace s' ++ GetBlock h :: evs)) /\
  (n <> 0%nat -> raises = false -> success = true ->
     if Z.of_nat n >? threshold e then
       match sleep (delay e) with
       | Some ev => trace s' = body ++ [ev] /\ goes_on (h + 1)
       | None => at_pc s' = Crashed /\ trace s' = body
       end
     else trace s' = body /\ goes_on (h + 1)) /\
  (forall h' cur',
     at_pc s' = AtInner h' cur' ->
     cur' = cur /\ (h' = h \/ h' = h + 1) /\
     (h' = h + 1 -> n = 0%nat \/ success = true)) /\
  (k = Follower -> tip e (length (trace s) + 3) = 0 -> raises = true) /\
  (forall last_height,
     k = Worker last_height ->
     start_height <= h <= last_height -> start_height < last_height ->
     raises = false).
Proof.
  intros Hpc Hle. destruct s as [pc tr]. simpl in Hpc. subst pc.
  unfold step. simpl.
  assert (Hlast :
    (k = Follower -> tip e (length tr + 3) = 0 ->
     progress_raises e k start_height h (length tr + 3) = true) /\
    (forall last_height,
       k = Worker last_height ->
       start_height <= h <= last_height -> start_height < last_height ->
       progress_raises e k start_height h (length tr + 3) = false)).
  { split.
    - intros -> Hz. unfold progress_raises, division_raises, PyFloat.true_div.
      by rewrite Hz.
    - intros last_height -> Hh Hlt. unfold progress_raises, division_raises.
      destruct (true_div_small (h - start_height) (last_height - start_height)
                  ltac:(lia) ltac:(lia)) as [x ->]. done. }
  destruct (decide (num_transactions e h = 0%nat)) as [Hz|Hnz].
  { rewrite inner_step_empty by done. simpl.
    split; [done|]. split; [done|]. split; [done|]. split; [|exact Hlast].
    intros h' cur' [= <- <-]. split; [done|]. split; [by right|by left]. }
  rewrite inner_step_body by done. simpl.
  unfold iteration_raises, pause_raises, pause.
  split; [|split; [|split; [|split; [|exact Hlast]]]].
  - intros _ Hr. rewrite Hr. simpl. rewrite app_nil_r.
    split; reflexivity.
  - intros _ Hr Hs. rewrite Hr, Hs. simpl.
    split; [by rewrite <- !app_assoc|].
    destruct (shutdown_flag e _) eqn:Hsd; (split; [done|]); [done|].
    intros _. rewrite inner_step_body by done. by eexists.
  - intros _ Hr Hs. rewrite Hr, Hs. simpl.
    destruct (Z.of_nat (num_transactions e h) >? threshold e); simpl.
    + destruct (sleep (delay e)) as [ev|]; simpl.
      * split; [by rewrite <- !app_assoc|]. by destruct (shutdown_flag e _).
      * rewrite app_nil_r. split; reflexivity.
    + rewrite app_nil_r. split; [done|]. by destruct (shutdown_flag e _).
  - intros h' cur'.
    destruct (progress_raises e k start_height h (length tr + 3) || _);
      [done|].
    destruct (shutdown_flag e _); [done|].
    intros [= <- <-]. split; [done|].
    destruct (write_ok e (length tr + 2)); split; auto; lia.
Qed.

(** C9: an iteration of either loop on a block without transactions only
    fetches the block and moves the cursor to the next height, and no
    trace of the loop hands such a block to the graph creator or to the
    writer. *)
Theorem empty_block_not_written (e : env) (k : loop) (start_height : Z)
    (s : state) (h cur : Z) :
  at_pc s = AtInner h cur ->
  h <= cur - skip_blocks ->
  num_transactions e h = 0%nat ->
  step e k start_height s =
    {| at_pc := AtInner (h + 1) cur; trace := trace s ++ [GetBlock h] |} /\
  forall fuel success,
    (CreateInMemoryGraph h ∉ trace (run e k start_height fuel)) /\
    (WriteGraph h success ∉ trace (run e k start_height fuel)).
Proof.
  intros Hpc Hle Hz. split.
  - destruct s as [pc tr]. simpl in Hpc. subst pc. unfold step. simpl.
    by apply inner_step_empty.
  - intros fuel success.
    pose proof (run_nonempty e start_height k fuel) as Hall.
    split; intros Hin;
      apply (proj1 (Forall_forall _ _) Hall) in Hin; simpl in Hin; done.
Qed.

End LoopTheorems.

Section LoopExamples.
Import EthIndexer Examples.

(** C6 fails on the code: the cursor is set back to [start_height] each
    time the outer loop comes round. With the tip at 13 and writes that
    succeed, the follower started at 1 writes block 1 twice within six
    steps, and the worker of the range 0..12 writes block 0 twice. *)
Theorem committed_height_is_indexed_again :
  trace (index_blocks (steady 13 1 false) 1 6) =
    [GetCurrentHeight 13; GetBlock 1; CreateInMemoryGraph 1; WriteGraph 1 true;
     GetCurrentHeight 13;
     GetCurrentHeight 13; GetBlock 1; CreateInMemoryGraph 1; WriteGraph 1 true;
     GetCurrentHeight 13] /\
  trace (index_blocks_by_last_height (steady 13 1 false) 0 12 6) =
    [GetBlock 0; CreateInMemoryGraph 0; WriteGraph 0 true;
     GetBlock 0; CreateInMemoryGraph 0; WriteGraph 0 true].
Proof. split; reflexivity. Qed.

Lemma follower_confirmation_margin_witness :
  trace (index_blocks (steady 30 1 false) 1 2) !! 1%nat = Some (GetBlock 1) /\
  (exists t0,
     (t0 < 1)%nat /\
     trace (index_blocks (steady 30 1 false) 1 2) !! t0
       = Some (GetCurrentHeight (tip (steady 30 1 false) t0)) /\
     1 <= tip (steady 30 1 false) t0 - 12) /\
  1 <= tip (steady 30 1 false) 1 - 6.
Proof.
  split; [reflexivity|].
  destruct (follower_confirmation_margin (steady 30 1 false) 1 2 1 1 eq_refl)
    as [H1 H2].
  split; [exact H1|]. apply H2. intros t1 t2 _. simpl. lia.
Defined.

(** C7 fails as stated: the follower reads the height once for a whole
    pass of the inner loop. When the node reports 13 and then 6, block 1
    is fetched at a time at which the node's height minus 6 is 0. *)
Lemma margin_lost_when_height_drops : ~ margin_kept shortened 1.
Proof.
  intros H. specialize (H 2%nat 1%nat 1 eq_refl). vm_compute in H.
  by apply H.
Qed.

Lemma retry_same_height_and_throttle_witness :
  (at_pc (step (steady 12 1 true) (Worker 12) 0
            {| at_pc := AtInner 0 6; trace := [] |}) = AtInner 0 6 /\
   trace (step (steady 12 1 true) (Worker 12) 0
            {| at_pc := AtInner 0 6; trace := [] |}) =
     [GetBlock 0; CreateInMemoryGraph 0; WriteGraph 0 false;
      Sleep (inject_Z 30)]) /\
  (at_pc (step vanished Follower 1
            {| at_pc := AtInner 1 7; trace := [GetCurrentHeight 13] |})
     = Crashed /\
   trace (step vanished Follower 1
            {| at_pc := AtInner 1 7; trace := [GetCurrentHeight 13] |}) =
     [GetCurrentHeight 13; GetBlock 1; CreateInMemoryGraph 1;
      WriteGraph 1 false; GetCurrentHeight 0]) /\
  (at_pc (step (throttled 12 None) (Worker 12) 0
            {| at_pc := AtInner 0 6; trace := [] |}) = AtInner 1 6 /\
   trace (step (throttled 12 None) (Worker 12) 0
            {| at_pc := AtInner 0 6; trace := [] |}) =
     [GetBlock 0; CreateInMemoryGraph 0; WriteGraph 0 true;
      Sleep (inject_Z 1)]) /\
  (at_pc (step (throttled 12 minus_one) (Worker 12) 0
            {| at_pc := AtInner 0 6; trace := [] |}) = Crashed /\
   trace (step (throttled 12 minus_one) (Worker 12) 0
            {| at_pc := AtInner 0 6; trace := [] |}) =
     [GetBlock 0; CreateInMemoryGraph 0; WriteGraph 0 true]).
Proof.
  assert (Hle : 0 <= 6 - skip_blocks) by (unfold skip_blocks; lia).
  assert (Hle1 : 1 <= 7 - skip_blocks) by (unfold skip_blocks; lia).
  split; [|split; [|split]].
  - destruct (retry_same_height_and_throttle (steady 12 1 true) (Worker 12) 0
                {| at_pc := AtInner 0 6; trace := [] |} 0 6 eq_refl Hle)
      as (_ & Hfail & _).
    destruct Hfail as (Htr & Hpc & _); [done|reflexivity|reflexivity|].
    split; [exact Hpc|exact Htr].
  - destruct (retry_same_height_and_throttle vanished Follower 1
                {| at_pc := AtInner 1 7; trace := [GetCurrentHeight 13] |}
                1 7 eq_refl Hle1)
      as (Hraise & _ & _ & _ & Hzero & _).
    destruct (Hraise ltac:(done) (Hzero eq_refl eq_refl)) as [Hpc Htr].
    split; [exact Hpc|exact Htr].
  - destruct (retry_same_height_and_throttle (throttled 12 None) (Worker 12) 0
                {| at_pc := AtInner 0 6; trace := [] |} 0 6 eq_refl Hle)
      as (_ & _ & Hok & _).
    destruct (Hok ltac:(done) eq_refl eq_refl) as [Htr Hpc].
    split; [exact Hpc|exact Htr].
  - destruct (retry_same_height_and_throttle (throttled 12 minus_one)
                (Worker 12) 0
                {| at_pc := AtInner 0 6; trace := [] |} 0 6 eq_refl Hle)
      as (_ & _ & Hok & _).
    destruct (Hok ltac:(done) eq_refl eq_refl) as [Hpc Htr].
    split; [exact Hpc|exact Htr].
Defined.

(** C8 fails as stated: on a chain of blocks without transactions the
    worker of the range 0..13 moves its cursor from 0 to 1 and its trace
    holds no write at all. *)
Lemma cursor_advances_without_commit :
  ~ advance_needs_commit (steady 13 0 false) (Worker 13) 0.
Proof.
  intros H. specialize (H 1%nat 0 7 eq_refl eq_refl).
  change (WriteGraph 0 true ∈ [GetBlock 0]) in H.
  apply list_elem_of_singleton in H. discriminate.
Qed.

Lemma empty_block_not_written_witness :
  step (steady 13 0 false) (Worker 13) 0 {| at_pc := AtInner 0 7; trace := [] |} =
  {| at_pc := AtInner 1 7; trace := [GetBlock 0] |}.
Proof.
  apply (proj1 (empty_block_not_written (steady 13 0 false) (Worker 13) 0
                  {| at_pc := AtInner 0 7; trace := [] |} 0 7
                  eq_refl ltac:(unfold skip_blocks; lia) eq_refl)).
Defined.

End LoopExamples.

(** ** The batches of a block. *)
Section BatchFacts.
Import Driver.

Lemma chunks_concat {A} (k : nat) : forall (m : nat) (l : list A),
  (length l <= m * k)%nat ->
  concat (map (fun j => take k (drop (j * k) l)) (seq 0 m)) = l.
Proof.
  induction m as [|m IH]; intros l Hl.
  - simpl in *. destruct l; [done|simpl in Hl; lia].
  - rewrite <- cons_seq. cbn [map concat]. simpl drop.
    rewrite <- seq_shift, map_map.
    transitivity (take k l ++ drop k l); [|apply take_drop]. f_equal.
    rewrite <- (IH (drop k l)) by (rewrite length_drop; lia).
    f_equal. apply map_ext. intros j.
    rewrite drop_drop. do 2 f_equal; lia.
Qed.

Lemma py_range_positive (n : nat) (batch_size : Z) :
  0 < batch_size ->
  exists m,
    py_range (Z.of_nat n) batch_size =
      Some (map (fun j => Z.of_nat j * batch_size) (seq 0 m)) /\
    (n <= m * Z.to_nat batch_size)%nat /\
    (forall j, (j < m)%nat -> (j * Z.to_nat batch_size < n)%nat).
Proof.
  intros Hb. unfold py_range.
  destruct (batch_size =? 0) eqn:E0; [lia|].
  destruct (batch_size <? 0) eqn:E1; [lia|].
  set (q := (Z.of_nat n + batch_size - 1) `div` batch_size).
  exists (Z.to_nat q). split; [done|].
  assert (Hq : 0 <= q) by (apply Z.div_pos; lia).
  pose proof (Z.mul_div_le (Z.of_nat n + batch_size - 1) batch_size Hb) as Hlo.
  pose proof (Z.mul_succ_div_gt (Z.of_nat n + batch_size - 1) batch_size Hb)
    as Hhi.
  fold q in Hlo, Hhi. split.
  - apply Nat2Z.inj_le. rewrite Nat2Z.inj_mul, !Z2Nat.id by lia. nia.
  - intros j Hj. apply Nat2Z.inj_lt. rewrite Nat2Z.inj_mul, Z2Nat.id by lia.
    assert (Z.of_nat j <= q - 1) by lia. nia.
Qed.

Lemma batches_shape {A} (l : list A) (batch_size : Z) :
  0 < batch_size ->
  exists m,
    batches l batch_size =
      Some (map (fun j => take (Z.to_nat batch_size)
                            (drop (j * Z.to_nat batch_size) l)) (seq 0 m)) /\
    (length l <= m * Z.to_nat batch_size)%nat /\
    (forall j, (j < m)%nat -> (j * Z.to_nat batch_size < length l)%nat).
Proof.
  intros Hb. unfold batches.
  destruct (py_range_positive (length l) batch_size Hb) as (m & -> & Hm & Hj).
  exists m. split; [|done]. f_equal. rewrite map_map.
  apply map_ext. intros j. unfold slice. do 2 f_equal; nia.
Qed.

Lemma batches_concat {A} (l : list A) (batch_size : Z) :
  0 < batch_size ->
  exists bts, batches l batch_size = Some bts /\ concat bts = l.
Proof.
  intros Hb. destruct (batches_shape l batch_size Hb) as (m & -> & Hm & _).
  eexists. split; [done|]. by apply chunks_concat.
Qed.

End BatchFacts.

Section BatchTheorems.
Import Driver.

(** X1: for a positive batch size the slices taken by the batch loop are
    non-empty, hold at most [batch_size] transactions each, and laid end to
    end are the block's transactions in their order: no transaction is
    left out of the loop or visited twice. *)
Theorem batches_partition {A} (l : list A) (batch_size : Z) :
  0 < batch_size ->
  exists bts,
    batches l batch_size = Some bts /\
    concat bts = l /\
    Forall (fun b => (0 < length b <= Z.to_nat batch_size)%nat) bts.
Proof.
  intros Hb. destruct (batches_shape l batch_size Hb) as (m & -> & Hm & Hj).
  eexists. split; [done|]. split.
  - by apply chunks_concat.
  - apply Forall_forall. intros b Hin.
    apply list_elem_of_In, in_map_iff in Hin as (j & <- & Hin).
    apply in_seq in Hin. rewrite length_take, length_drop.
    specialize (Hj j ltac:(lia)). lia.
Qed.

End BatchTheorems.

(** ** More on the netting of one transaction. *)
Section NettingMoreFacts.
Import PyDict Block Netting.

(** [sum(d.values())] *)
Definition values_sum (d : dict) : Z := foldr Z.add 0 (map snd d).

(** The outputs paid to one address, added up. *)
Definition paid_to (a : string) (vs : list Vout) : Z :=
  foldr Z.add 0
    (map vout_value_satoshi (filter (fun v => vout_address v = a) vs)).

Lemma contains_get d k : contains d k = true <-> exists v, get d k = Some v.
Proof.
  unfold contains. destruct (get d k); split; try done; [by eexists|].
  by intros [? ?].
Qed.

Lemma contains_false_get d k : contains d k = false <-> get d k = None.
Proof. unfold contains. by destruct (get d k). Qed.

Lemma item_nonzero_contains d k : item d k <> 0 -> contains d k = true.
Proof. unfold item, contains. by destruct (get d k). Qed.

Lemma contains_keys d k : contains d k = true <-> k ∈ keys d.
Proof.
  split.
  - intros H. apply contains_get in H as [v H]. by eapply get_Some_keys.
  - induction d as [|[k' v] d IH]; simpl; intros H.
    + by apply elem_of_nil in H.
    + unfold contains. simpl. destruct (String.eqb k k') eqn:E; [done|].
      apply elem_of_cons in H as [->|H]; [by rewrite String.eqb_refl in E|].
      by apply IH.
Qed.

Lemma keys_set_present d k v : contains d k = true -> keys (set d k v) = keys d.
Proof.
  induction d as [|[k' v'] d IH]; unfold contains; simpl; [done|].
  destruct (String.eqb k k') eqn:E; simpl; [done|].
  intros H. f_equal. by apply IH.
Qed.

Lemma keys_set_absent d k v :
  contains d k = false -> keys (set d k v) = keys d ++ [k].
Proof.
  induction d as [|[k' v'] d IH]; unfold contains; simpl; [done|].
  destruct (String.eqb k k') eqn:E; simpl; [done|].
  intros H. f_equal. by apply IH.
Qed.

Lemma values_sum_set d k v :
  values_sum (set d k v) = values_sum d - item d k + v.
Proof.
  unfold values_sum, item. induction d as [|[k' v'] d IH]; simpl; [lia|].
  destruct (String.eqb k k') eqn:E; simpl; [lia|]. rewrite IH. lia.
Qed.

Lemma values_sum_accumulate d k v :
  values_sum (accumulate d k v) = values_sum d + v.
Proof.
  unfold accumulate. destruct (contains d k) eqn:E; rewrite values_sum_set.
  - lia.
  - apply contains_false_get in E. unfold item. rewrite E. lia.
Qed.

Lemma keys_accumulate_NoDup d k v :
  NoDup (keys d) -> NoDup (keys (accumulate d k v)).
Proof.
  intros H. unfold accumulate. destruct (contains d k) eqn:E.
  - by rewrite keys_set_present.
  - rewrite keys_set_absent by done. apply NoDup_snoc; [|done].
    intros Hin. apply contains_keys in Hin. congruence.
Qed.

Lemma get_accumulate d k v a :
  get (accumulate d k v) a =
  if decide (a = k) then Some (item d k + v) else get d a.
Proof.
  unfold accumulate. case_decide as Ha.
  - subst a. destruct (contains d k) eqn:E; rewrite get_set_eq; [done|].
    apply contains_false_get in E. unfold item. by rewrite E.
  - destruct (contains d k); by rewrite get_set_ne.
Qed.

Lemma accumulate_vouts_NoDup vs : forall d,
  NoDup (keys d) -> NoDup (keys (accumulate_vouts vs d)).
Proof.
  induction vs as [|v vs IH]; intros d H; simpl; [done|].
  by apply IH, keys_accumulate_NoDup.
Qed.

Lemma accumulate_vins_NoDup node vs : forall d d',
  NoDup (keys d) -> accumulate_vins node vs d = Some d' -> NoDup (keys d').
Proof.
  induction vs as [|v vs IH]; intros d d' H E; simpl in E.
  - by inversion E; subst.
  - destruct (is_zero (vin_tx_id v)); [by eapply IH|].
    destruct (node _ _) as [[address amount]|]; [|done].
    eapply IH; [|done]. by apply keys_accumulate_NoDup.
Qed.

Lemma accumulate_vouts_sum vs : forall d,
  values_sum (accumulate_vouts vs d) =
  values_sum d + foldr Z.add 0 (map vout_value_satoshi vs).
Proof.
  induction vs as [|v vs IH]; intros d; simpl; [lia|].
  rewrite IH, values_sum_accumulate. lia.
Qed.

Lemma accumulate_vouts_get vs a : forall d,
  get (accumulate_vouts vs d) a =
  if bool_decide (contains d a = true \/ Exists (fun v => vout_address v = a) vs)
  then Some (item d a + paid_to a vs) else None.
Proof.
  unfold paid_to. induction vs as [|v vs IH]; intros d; simpl.
  - case_bool_decide as H.
    + destruct H as [H|H]; [|by apply Exists_nil in H].
      apply contains_get in H as [x H]. unfold item. rewrite H. f_equal. lia.
    + apply contains_false_get. destruct (contains d a) eqn:E; [|done].
      exfalso. apply H. by left.
  - rewrite IH. clear IH.
    set (k := vout_address v). set (x := vout_value_satoshi v).
    assert (Hc : contains (accumulate d k x) a = true <->
                 a = k \/ contains d a = true).
    { unfold contains. rewrite get_accumulate.
      case_decide; destruct (get d a); intuition congruence. }
    assert (Hi : item (accumulate d k x) a =
                 if decide (a = k) then item d k + x else item d a).
    { unfold item. rewrite get_accumulate. by case_decide. }
    rewrite Hi, filter_cons. fold k.
    case_bool_decide as H1; case_bool_decide as H2.
    + f_equal. destruct (decide (k = a)) as [<-|Hne].
      * rewrite decide_True by done. simpl. fold x. lia.
      * rewrite decide_False by congruence. done.
    + exfalso. apply H2. rewrite Exists_cons. fold k.
      destruct H1 as [H1|H1]; [|tauto]. apply Hc in H1. intuition congruence.
    + exfalso. apply H1. rewrite Hc. rewrite Exists_cons in H2. fold k in H2.
      intuition congruence.
    + done.
Qed.

(** The netting loop assigns only to keys that are present. *)
Lemma net_address_keys st a :
  keys (net_address st a).1 = keys st.1 /\ keys (net_address st a).2 = keys st.2.
Proof.
  destruct st as [i o]. unfold net_address.
  destruct (item i a =? 0) eqn:E0; [done|].
  destruct (contains o a) eqn:Eo; simpl; [|done].
  assert (contains i a = true) by (apply item_nonzero_contains; lia).
  repeat case_match; simpl; rewrite ?keys_set_present; done.
Qed.

Lemma netting_pass_keys_gen ks : forall st,
  keys (fold_left net_address ks st).1 = keys st.1 /\
  keys (fold_left net_address ks st).2 = keys st.2.
Proof.
  induction ks as [|k ks IH]; intros st; simpl; [done|].
  destruct (IH (net_address st k)) as [-> ->]. apply net_address_keys.
Qed.

Lemma net_address_balance st a :
  values_sum (net_address st a).1 - values_sum (net_address st a).2 =
  values_sum st.1 - values_sum st.2.
Proof.
  destruct st as [i o]. unfold net_address.
  repeat case_match; simpl; rewrite ?values_sum_set; lia.
Qed.

Lemma netting_pass_balance_gen ks : forall st,
  values_sum (fold_left net_address ks st).1 -
  values_sum (fold_left net_address ks st).2 =
  values_sum st.1 - values_sum st.2.
Proof.
  induction ks as [|k ks IH]; intros st; simpl; [done|].
  rewrite IH. apply net_address_balance.
Qed.

(** An address missing on one side is left as it is. *)
Lemma net_address_one_sided st a b :
  get st.1 a = None \/ get st.2 a = None ->
  get (net_address st b).1 a = get st.1 a /\
  get (net_address st b).2 a = get st.2 a.
Proof.
  intros H. destruct st as [i o]. simpl in *. unfold net_address.
  destruct (item i b =? 0) eqn:E0; [done|].
  destruct (contains o b) eqn:Eo; simpl; [|done].
  destruct (decide (b = a)) as [->|Hne].
  - exfalso. destruct H as [H|H].
    + unfold item in E0. rewrite H in E0. done.
    + apply contains_false_get in H. congruence.
  - repeat case_match; simpl; rewrite ?get_set_ne; done.
Qed.

Lemma items_of_keys d : NoDup (keys d) -> map (item d) (keys d) = map snd d.
Proof.
  induction d as [|[k v] d IH]; simpl; intros H; [done|].
  apply NoDup_cons in H as [Hk Hd]. f_equal.
  - unfold item. simpl. by rewrite String.eqb_refl.
  - rewrite <- IH by done. apply map_ext_in. intros a Ha.
    unfold item. simpl. destruct (String.eqb a k) eqn:E; [|done].
    apply String.eqb_eq in E. subst. exfalso. apply Hk.
    by apply list_elem_of_In.
Qed.

Lemma sum_nonzero (f : string -> Z) l :
  foldr Z.add 0 (map f (filter (fun a => f a <> 0) l)) = foldr Z.add 0 (map f l).
Proof.
  induction l as [|a l IH]; [done|].
  rewrite filter_cons. destruct (decide (f a <> 0)) as [H|H]; simpl.
  - by rewrite IH.
  - rewrite IH. assert (f a = 0) by (destruct (decide (f a = 0)); done). lia.
Qed.

Lemma total_nonzero d :
  NoDup (keys d) -> total d (nonzero_addresses d) = values_sum d.
Proof.
  intros H. unfold total, nonzero_addresses, values_sum.
  by rewrite sum_nonzero, items_of_keys.
Qed.

End NettingMoreFacts.

Section NettingExact.
Import PyDict Block Netting.

(** What the body of the netting loop makes of the two amounts of one
    address. *)
Definition net_pair (x y : Z) : Z * Z :=
  if (x =? 0) || (y =? 0) then (x, y)
  else if x >? y then (x - y, 0)
  else if x <? y then (0, y - x)
  else (0, 0).

Definition exact_at (a : string) (p : Z * Z) (st : dict * dict) : Prop :=
  contains st.1 a = true /\ contains st.2 a = true /\
  item st.1 a = p.1 /\ item st.2 a = p.2.

Lemma net_pair_again x y :
  net_pair (net_pair x y).1 (net_pair x y).2 = net_pair x y.
Proof.
  unfold net_pair.
  destruct (x =? 0) eqn:Ex; simpl; [by rewrite Ex|].
  destruct (y =? 0) eqn:Ey; simpl; [by rewrite Ex, Ey|].
  destruct (x >? y) eqn:E1; simpl.
  - by rewrite orb_true_r.
  - destruct (x <? y) eqn:E2; simpl; done.
Qed.

Lemma net_address_exact_other st a b p :
  a <> b -> exact_at a p st -> exact_at a p (net_address st b).
Proof.
  intros Hne (Hi & Ho & Hx & Hy). destruct st as [i o]. simpl in *.
  unfold net_address, exact_at.
  repeat case_match; simpl;
    rewrite ?item_set_ne by done; auto using contains_set.
Qed.

Lemma net_address_exact_self st a x y :
  exact_at a (x, y) st -> exact_at a (net_pair x y) (net_address st a).
Proof.
  intros (Hi & Ho & Hx & Hy). destruct st as [i o]. simpl in *.
  unfold net_address, exact_at, net_pair. rewrite Ho, Hx, Hy.
  destruct (x =? 0) eqn:Ex; simpl; [done|].
  destruct (y =? 0) eqn:Ey; simpl; [done|].
  destruct (x >? y) eqn:E1; simpl.
  - rewrite !item_set_eq. auto using contains_set.
  - destruct (x <? y) eqn:E2; simpl;
      rewrite !item_set_eq; auto using contains_set.
Qed.

Lemma fold_net_exact_done ks : forall st a x y,
  exact_at a (net_pair x y) st ->
  exact_at a (net_pair x y) (fold_left net_address ks st).
Proof.
  induction ks as [|k ks IH]; intros st a x y H; simpl; [done|].
  apply IH. destruct (decide (a = k)) as [->|Hne].
  - rewrite <- net_pair_again. apply net_address_exact_self.
    by destruct (net_pair x y).
  - by apply net_address_exact_other.
Qed.

Lemma fold_net_exact ks : forall st a x y,
  a ∈ ks -> exact_at a (x, y) st ->
  exact_at a (net_pair x y) (fold_left net_address ks st).
Proof.
  induction ks as [|k ks IH]; intros st a x y Hin H; simpl.
  - by apply elem_of_nil in Hin.
  - destruct (decide (a = k)) as [->|Hne].
    + apply fold_net_exact_done. by apply net_address_exact_self.
    + apply IH.
      * apply elem_of_cons in Hin as [?|?]; done.
      * by apply net_address_exact_other.
Qed.

Lemma netting_pass_exact (raw_in raw_out : dict) a x y :
  get raw_in a = Some x -> get raw_out a = Some y ->
  exact_at a (net_pair x y) (netting_pass raw_in raw_out).
Proof.
  intros Hx Hy. unfold netting_pass. apply fold_net_exact.
  - by eapply get_Some_keys.
  - unfold exact_at, contains, item. simpl. by rewrite Hx, Hy.
Qed.

Lemma netting_pass_keys (raw_in raw_out : dict) :
  keys (netting_pass raw_in raw_out).1 = keys raw_in /\
  keys (netting_pass raw_in raw_out).2 = keys raw_out.
Proof. apply (netting_pass_keys_gen (keys raw_in) (raw_in, raw_out)). Qed.

Lemma raw_amounts_NoDup node tx raw_in raw_out :
  raw_amounts node tx = Some (raw_in, raw_out) ->
  NoDup (keys raw_in) /\ NoDup (keys raw_out).
Proof.
  unfold raw_amounts.
  destruct (accumulate_vins node (vins tx) []) as [d|] eqn:E; [|done].
  intros [= <- <-]. split.
  - eapply accumulate_vins_NoDup; [|done]. apply NoDup_nil_2.
  - apply accumulate_vouts_NoDup, NoDup_nil_2.
Qed.

(** The rows of one side: one per key whose netted amount is not zero. *)
Lemma flow_rows_elem d id r :
  r ∈ flow_rows d (nonzero_addresses d) id <->
  fr_address r ∈ keys d /\ item d (fr_address r) <> 0 /\
  fr_amount r = item d (fr_address r) /\ fr_tx_id r = id.
Proof.
  unfold flow_rows, nonzero_addresses. rewrite list_elem_of_In, in_map_iff.
  split.
  - intros (a & <- & Ha). apply list_elem_of_In, list_elem_of_filter in Ha.
    simpl. tauto.
  - intros (Hk & Hz & Ha & Hid). exists (fr_address r). split.
    + destruct r. simpl in *. by subst.
    + apply list_elem_of_In, list_elem_of_filter. done.
Qed.

Lemma flow_rows_addresses d id :
  map fr_address (flow_rows d (nonzero_addresses d) id) = nonzero_addresses d.
Proof. unfold flow_rows. rewrite map_map. simpl. apply map_id. Qed.

Lemma flow_rows_total d id :
  foldr Z.add 0 (map fr_amount (flow_rows d (nonzero_addresses d) id)) =
  total d (nonzero_addresses d).
Proof. unfold flow_rows, total. by rewrite map_map. Qed.

Lemma process_tx_unfold node tx row ins outs :
  process_tx node tx = Some (row, ins, outs) ->
  exists raw_in raw_out,
    raw_amounts node tx = Some (raw_in, raw_out) /\
    let i := (netting_pass raw_in raw_out).1 in
    let o := (netting_pass raw_in raw_out).2 in
    ins = flow_rows i (nonzero_addresses i) (tx_id tx) /\
    outs = flow_rows o (nonzero_addresses o) (tx_id tx) /\
    tr_tx_id row = tx_id tx /\
    tr_in_total_amount row = total i (nonzero_addresses i) /\
    tr_out_total_amount row = total o (nonzero_addresses o) /\
    tr_timestamp row = timestamp tx /\
    tr_block_height row = block_height tx /\
    tr_is_coinbase row = is_coinbase tx.
Proof.
  unfold process_tx.
  destruct (raw_amounts node tx) as [[raw_in raw_out]|]; [|done].
  destruct (netting_pass raw_in raw_out) as [i o] eqn:E.
  intros [= <- <- <-]. exists raw_in, raw_out. rewrite E. simpl. done.
Qed.

End NettingExact.

Section NettingMoreTheorems.
Import PyDict Block Netting.

(** X2: an address that is missing from the raw inbound map or from the
    raw outbound map goes through the netting pass unchanged on both
    sides. *)
Theorem netting_one_sided (raw_in raw_out : dict) (a : string) :
  get raw_in a = None \/ get raw_out a = None ->
  get (netting_pass raw_in raw_out).1 a = get raw_in a /\
  get (netting_pass raw_in raw_out).2 a = get raw_out a.
Proof.
  intros H.
  enough (G : forall ks st,
            get st.1 a = None \/ get st.2 a = None ->
            get (fold_left net_address ks st).1 a = get st.1 a /\
            get (fold_left net_address ks st).2 a = get st.2 a)
    by exact (G (keys raw_in) (raw_in, raw_out) H).
  clear H. induction ks as [|k ks IH]; intros st H; simpl; [done|].
  destruct (net_address_one_sided st a k H) as [E1 E2].
  destruct (IH (net_address st k)) as [-> ->]; [by rewrite E1, E2|done].
Qed.

(** X3: the outbound raw map of a transaction holds exactly the addresses
    its outputs pay, each with the sum of the outputs paid to it. *)
Theorem raw_out_sums_outputs (node : resolver) (tx : Tx)
    (raw_in raw_out : dict) (a : string) :
  raw_amounts node tx = Some (raw_in, raw_out) ->
  get raw_out a =
    if bool_decide (Exists (fun v => vout_address v = a) (vouts tx))
    then Some (paid_to a (vouts tx)) else None.
Proof.
  unfold raw_amounts.
  destruct (accumulate_vins node (vins tx) []) as [d|]; [|done].
  intros [= <- <-]. rewrite accumulate_vouts_get.
  unfold contains, item. simpl.
  repeat case_bool_decide;
    first [done | (f_equal; lia) | (exfalso; intuition congruence)].
Qed.

(** X4: every flow row the writer emits for a transaction carries a
    non-zero amount and the id of that transaction, an address has at most
    one inbound and at most one outbound row, and no address has both. *)
Theorem flow_rows_nonzero_disjoint (node : resolver) (tx : Tx)
    (row : txn_row) (ins outs : list flow_row) :
  process_tx node tx = Some (row, ins, outs) ->
  Forall (fun r => fr_amount r <> 0 /\ fr_tx_id r = tx_id tx) (ins ++ outs) /\
  NoDup (map fr_address ins) /\
  NoDup (map fr_address outs) /\
  (forall a, a ∈ map fr_address ins -> a ∉ map fr_address outs).
Proof.
  intros H.
  apply process_tx_unfold in H
    as (ri & ro & Hraw & -> & -> & _).
  destruct (raw_amounts_NoDup _ _ _ _ Hraw) as [Ni No].
  destruct (netting_pass_keys ri ro) as [Ki Ko].
  split; [|split; [|split]].
  - apply Forall_app. split; apply Forall_forall; intros r Hr;
      apply flow_rows_elem in Hr as (_ & Hz & -> & ->); done.
  - rewrite flow_rows_addresses. apply NoDup_filter. by rewrite Ki.
  - rewrite flow_rows_addresses. apply NoDup_filter. by rewrite Ko.
  - intros a. rewrite !flow_rows_addresses. unfold nonzero_addresses.
    rewrite !list_elem_of_filter, Ki, Ko. intros [Hzi Hki] [Hzo Hko].
    apply contains_keys, contains_get in Hki as [x Hx].
    apply contains_keys, contains_get in Hko as [y Hy].
    destruct (netting_pass_correct ri ro a x y Hx Hy) as (_ & _ & [?|?] & _);
      done.
Qed.

(** X5: for an address with non-negative raw amounts [x] in and [y] out,
    equal amounts leave no row at all, a larger inbound amount leaves one
    inbound row of [x - y], and a larger outbound amount leaves one
    outbound row of [y - x]. *)
Theorem residual_row (node : resolver) (tx : Tx) (raw_in raw_out : dict)
    (row : txn_row) (ins outs : list flow_row) (a : string) (x y : Z) :
  raw_amounts node tx = Some (raw_in, raw_out) ->
  process_tx node tx = Some (row, ins, outs) ->
  get raw_in a = Some x -> get raw_out a = Some y ->
  0 <= x -> 0 <= y ->
  (x = y -> (a ∉ map fr_address ins) /\ (a ∉ map fr_address outs)) /\
  (y < x ->
     ({| fr_address := a; fr_amount := x - y; fr_tx_id := tx_id tx |} ∈ ins) /\
     (a ∉ map fr_address outs)) /\
  (x < y ->
     ({| fr_address := a; fr_amount := y - x; fr_tx_id := tx_id tx |} ∈ outs) /\
     (a ∉ map fr_address ins)).
Proof.
  intros Hraw H Hx Hy Hx0 Hy0.
  apply process_tx_unfold in H as (ri & ro & Hraw' & -> & -> & _).
  rewrite Hraw in Hraw'. inversion Hraw'; subst ri ro. clear Hraw'.
  destruct (netting_pass_exact raw_in raw_out a x y Hx Hy)
    as (Ci & Co & Ii & Io).
  apply contains_keys in Ci, Co.
  assert (Hin : forall d id, a ∈ map fr_address
                  (flow_rows d (nonzero_addresses d) id) -> item d a <> 0).
  { intros d id. rewrite flow_rows_addresses. unfold nonzero_addresses.
    rewrite list_elem_of_filter. tauto. }
  unfold net_pair in Ii, Io.
  split; [|split]; intros Hc.
  - subst y. split; intros Hr; apply Hin in Hr; apply Hr.
    + rewrite Ii. repeat case_match; simpl; lia.
    + rewrite Io. repeat case_match; simpl; lia.
  - split.
    + apply flow_rows_elem. simpl. rewrite Ii.
      repeat case_match; simpl; repeat split; try done; lia.
    + intros Hr. apply Hin in Hr. apply Hr. rewrite Io.
      repeat case_match; simpl; lia.
  - split.
    + apply flow_rows_elem. simpl. rewrite Io.
      repeat case_match; simpl; repeat split; try done; lia.
    + intros Hr. apply Hin in Hr. apply Hr. rewrite Ii.
      repeat case_match; simpl; lia.
Qed.

End NettingMoreTheorems.

Section NettingTotals.
Import PyDict Block Netting.

(** The amounts the node reports for the inputs that are looked up. *)
Definition input_amounts (node : resolver) (vs : list Vin) : list Z :=
  omap (fun vin =>
          if is_zero (vin_tx_id vin) then None
          else snd <$> node (vin_tx_id vin) (pretty (vin_vout_id vin))) vs.

(** An input that is looked up and that the node cannot resolve. *)
Definition unresolved (node : resolver) (vin : Vin) : Prop :=
  is_zero (vin_tx_id vin) = false /\
  node (vin_tx_id vin) (pretty (vin_vout_id vin)) = None.

Lemma accumulate_vins_sum node vs : forall d d',
  accumulate_vins node vs d = Some d' ->
  values_sum d' = values_sum d + foldr Z.add 0 (input_amounts node vs).
Proof.
  unfold input_amounts.
  induction vs as [|v vs IH]; intros d d' E; simpl in *.
  - inversion E; subst. lia.
  - destruct (is_zero (vin_tx_id v)); [by apply IH|].
    destruct (node _ _) as [[address amount]|]; [|done]. simpl.
    apply IH in E. rewrite values_sum_accumulate in E.
    rewrite E, <- Z.add_assoc. reflexivity.
Qed.

Lemma accumulate_vins_None node vs : forall d,
  accumulate_vins node vs d = None <-> Exists (unresolved node) vs.
Proof.
  unfold unresolved.
  induction vs as [|v vs IH]; intros d; simpl.
  - split; [done|]. intros H. by apply Exists_nil in H.
  - rewrite Exists_cons. destruct (is_zero (vin_tx_id v)) eqn:Ez.
    + rewrite IH. intuition congruence.
    + destruct (node _ _) as [[address amount]|] eqn:En.
      * rewrite IH. intuition congruence.
      * intuition.
Qed.

Lemma process_tx_None node tx :
  process_tx node tx = None <-> Exists (unresolved node) (vins tx).
Proof.
  rewrite <- (accumulate_vins_None node (vins tx) []).
  unfold process_tx, raw_amounts.
  destruct (accumulate_vins node (vins tx) []) as [d|]; [|done].
  by destruct (netting_pass _ _).
Qed.

(** X6: the totals stored on a transaction are the sums of its emitted
    inbound and outbound rows, and netting keeps their difference: it is the
    sum of the resolved input amounts minus the sum of the output
    amounts. *)
Theorem net_totals_keep_balance (node : resolver) (tx : Tx) (row : txn_row)
    (ins outs : list flow_row) :
  process_tx node tx = Some (row, ins, outs) ->
  tr_in_total_amount row = foldr Z.add 0 (map fr_amount ins) /\
  tr_out_total_amount row = foldr Z.add 0 (map fr_amount outs) /\
  tr_in_total_amount row - tr_out_total_amount row =
    foldr Z.add 0 (input_amounts node (vins tx)) -
    foldr Z.add 0 (map vout_value_satoshi (vouts tx)).
Proof.
  intros H.
  apply process_tx_unfold in H
    as (ri & ro & Hraw & -> & -> & _ & -> & -> & _).
  rewrite !flow_rows_total. split; [done|]. split; [done|].
  destruct (raw_amounts_NoDup _ _ _ _ Hraw) as [Ni No].
  destruct (netting_pass_keys ri ro) as [Ki Ko].
  rewrite !total_nonzero by (by rewrite ?Ki, ?Ko).
  unfold netting_pass. rewrite netting_pass_balance_gen. simpl.
  unfold raw_amounts in Hraw.
  destruct (accumulate_vins node (vins tx) []) as [d|] eqn:E; [|done].
  inversion Hraw; subst ri ro.
  apply accumulate_vins_sum in E. rewrite E, accumulate_vouts_sum.
  unfold values_sum. simpl. lia.
Qed.

(** X7: a transaction whose inputs all carry the coinbase reference 0 is
    processed without asking the node: whatever the node, it has no inbound
    row, an inbound total of 0 and an outbound total equal to the sum of
    its outputs. *)
Theorem coinbase_inputs_skip_resolution (node : resolver) (tx : Tx) :
  Forall (fun vin => is_zero (vin_tx_id vin) = true) (vins tx) ->
  exists row outs,
    process_tx node tx = Some (row, [], outs) /\
    process_tx (fun _ _ => None) tx = Some (row, [], outs) /\
    tr_in_total_amount row = 0 /\
    tr_out_total_amount row =
      foldr Z.add 0 (map vout_value_satoshi (vouts tx)).
Proof.
  intros Hall.
  assert (Hacc : forall nd, accumulate_vins nd (vins tx) [] = Some []).
  { intros nd. induction (vins tx) as [|v vs IH]; simpl; [done|].
    apply Forall_cons in Hall as [-> Hall]. by apply IH. }
  assert (Hp : forall nd,
    process_tx nd tx =
      let o := accumulate_vouts (vouts tx) [] in
      Some ({| tr_tx_id := tx_id tx;
               tr_in_total_amount := 0;
               tr_out_total_amount := total o (nonzero_addresses o);
               tr_timestamp := timestamp tx;
               tr_block_height := block_height tx;
               tr_is_coinbase := is_coinbase tx |},
            [], flow_rows o (nonzero_addresses o) (tx_id tx))).
  { intros nd. unfold process_tx, raw_amounts. by rewrite Hacc. }
  eexists _, _. split; [apply Hp|]. split; [apply Hp|]. split; [done|].
  simpl. rewrite total_nonzero by apply accumulate_vouts_NoDup, NoDup_nil_2.
  rewrite accumulate_vouts_sum. unfold values_sum. simpl. lia.
Qed.

End NettingTotals.

(** ** More on what the statements do to the graph. *)
Section GraphMoreFacts.
Import Block Netting Graph Driver.

Lemma merge_transactions_fresh rows : forall g,
  NoDup (map tn_tx_id rows) ->
  (forall r, r ∈ rows -> tn_tx_id r ∉ tx_ids g) ->
  fold_left (fun g n => merge_transaction n g) rows g =
  {| tx_nodes := tx_nodes g ++ rows; addr_nodes := addr_nodes g;
     edges := edges g |}.
Proof.
  induction rows as [|r rows IH]; intros g Hnd Hfresh; simpl.
  - rewrite app_nil_r. by destruct g.
  - apply NoDup_cons in Hnd as [Hr Hnd].
    unfold merge_transaction at 2.
    rewrite bool_decide_eq_false_2
      by (apply Hfresh, elem_of_cons; by left).
    rewrite IH; simpl.
    + by rewrite <- app_assoc.
    + done.
    + intros r' Hr'. unfold tx_ids. simpl. rewrite map_app. simpl.
      intros Hin. apply elem_of_app in Hin as [Hin|Hin].
      * eapply Hfresh; [|exact Hin]. apply elem_of_cons. by right.
      * apply list_elem_of_singleton in Hin. apply Hr. rewrite <- Hin.
        apply list_elem_of_In, in_map, list_elem_of_In, Hr'.
Qed.

Lemma sent_row_tx_known g e :
  se_tx_id e ∈ tx_ids g -> tx_nodes (sent_row g e) = tx_nodes g.
Proof.
  intros H. unfold sent_row, create_sent. simpl.
  assert (Ha : tx_nodes (merge_address (se_address e) g) = tx_nodes g).
  { unfold merge_address. by case_bool_decide. }
  unfold merge_transaction. simpl.
  rewrite bool_decide_eq_true_2; [exact Ha|].
  unfold tx_ids. by rewrite Ha.
Qed.

Lemma sent_rows_tx_known rows : forall g,
  (forall e, e ∈ rows -> se_tx_id e ∈ tx_ids g) ->
  tx_nodes (fold_left sent_row rows g) = tx_nodes g.
Proof.
  induction rows as [|e rows IH]; intros g H; simpl; [done|].
  assert (He : tx_nodes (sent_row g e) = tx_nodes g).
  { apply sent_row_tx_known, H, elem_of_cons. by left. }
  rewrite IH; [done|]. intros e' He'. unfold tx_ids. rewrite He.
  apply H, elem_of_cons. by right.
Qed.

(** A property of relationships that holds of the store and of the rows of
    a statement holds of the store after the statement. *)
Lemma sent_rows_Forall (P : sent_edge -> Prop) rows : forall g,
  Forall P (edges g) -> Forall P rows ->
  Forall P (edges (fold_left sent_row rows g)).
Proof.
  induction rows as [|e rows IH]; intros g Hg Hr; simpl; [done|].
  apply Forall_cons in Hr as [He Hr]. apply IH; [|done].
  unfold sent_row, create_sent. simpl. apply Forall_app. split.
  - change (Forall P (edges (merge_ends e g))). by rewrite merge_ends_edges.
  - apply Forall_forall. intros x Hx.
    apply elem_of_replicate in Hx as [-> _]. done.
Qed.

Lemma exec_query_Forall (P : sent_edge -> Prop) q g :
  Forall P (edges g) -> Forall P (q_edges q) -> Forall P (edges (exec_query q g)).
Proof.
  intros Hg Hq. destruct q as [rows|rows]; simpl.
  - by rewrite merge_transactions_edges.
  - by apply sent_rows_Forall.
Qed.

Lemma exec_all_Forall (P : sent_edge -> Prop) qs : forall g,
  Forall P (edges g) -> Forall (fun q => Forall P (q_edges q)) qs ->
  Forall P (edges (exec_all qs g)).
Proof.
  induction qs as [|q qs IH]; intros g Hg Hq; [done|].
  apply Forall_cons in Hq as [Hq Hqs].
  change (exec_all (q :: qs) g) with (exec_all qs (exec_query q g)).
  apply IH; [|done]. by apply exec_query_Forall.
Qed.

Lemma build_batch_all node b rows :
  FundsFlowV2.build_batch node b = Some rows ->
  Forall (fun tx => process_tx node tx <> None) b /\
  Forall (fun r => fr_amount r <> 0) rows.1.2 /\
  Forall (fun r => fr_amount r <> 0) rows.2.
Proof.
  revert rows. induction b as [|tx b IH]; intros rows H; simpl in H.
  - inversion H; subst. simpl. done.
  - destruct (process_tx node tx) as [[[row ins] outs]|] eqn:E; [|done].
    destruct (FundsFlowV2.build_batch node b) as [[[ts ins0] os]|]; [|done].
    inversion H; subst. simpl.
    destruct (IH _ eq_refl) as (Hb & Hi & Ho). simpl in Hi, Ho.
    assert (Hnz : Forall (fun r => fr_amount r <> 0) ins /\
                  Forall (fun r => fr_amount r <> 0) outs).
    { apply process_tx_unfold in E as (ri & ro & _ & -> & -> & _).
      split; apply Forall_forall; intros r Hr;
        apply flow_rows_elem in Hr as (_ & Hz & -> & _); done. }
    destruct Hnz as [Hnzi Hnzo].
    split; [apply Forall_cons; split; [congruence|done]|].
    split; apply Forall_app; done.
Qed.

Lemma block_queries_all node bts : forall qs,
  FundsFlowV2.block_queries node bts = Some qs ->
  Forall (fun tx => process_tx node tx <> None) (concat bts) /\
  Forall (fun q => Forall (fun e => se_value_satoshi e <> 0) (q_edges q)) qs.
Proof.
  induction bts as [|b bts IH]; intros qs H; simpl in H.
  - inversion H; subst. done.
  - destruct (FundsFlowV2.build_batch node b) as [[[ts ins0] os]|] eqn:E; [|done].
    destruct (FundsFlowV2.block_queries node bts) as [qs'|]; [|done].
    inversion H; subst.
    destruct (IH _ eq_refl) as [Hb Hq].
    destruct (build_batch_all node b _ E) as (Hall & Hi & Ho). simpl in Hi, Ho.
    split; [simpl; apply Forall_app; done|].
    unfold FundsFlowV2.batch_queries.
    repeat apply Forall_cons_2; simpl; try done.
    + apply Forall_forall. intros e He.
      apply list_elem_of_In, in_map_iff in He as (r & <- & Hr). simpl.
      apply list_elem_of_In in Hr.
      by apply (proj1 (Forall_forall _ _) Hi).
    + apply Forall_forall. intros e He.
      apply list_elem_of_In, in_map_iff in He as (r & <- & Hr). simpl.
      apply list_elem_of_In in Hr.
      by apply (proj1 (Forall_forall _ _) Ho).
Qed.

End GraphMoreFacts.

(** ** More on the writers. *)
Section WriterMoreFacts.
Import Block Netting Graph Driver.
Variable fl : faults.

Lemma v2_for_each_unbuilt node txs bs starts : forall s,
  (forall n, fl n = None) ->
  FundsFlowV2.block_queries node (map (fun i => slice txs i bs) starts) = None ->
  exists s',
    for_each starts (FundsFlowV2.write_batch fl node txs bs) s
      = (Raised Exception, s').
Proof.
  induction starts as [|i starts IH]; intros s Hfl Hq; simpl in Hq; [done|].
  cbn [for_each]. unfold bind.
  destruct (FundsFlowV2.write_batch fl node txs bs i s) as [r s1] eqn:E.
  unfold FundsFlowV2.write_batch in E.
  destruct (FundsFlowV2.build_batch node (slice txs i bs)) as [rows|].
  - destruct (for_each_run_no_fault fl (FundsFlowV2.batch_queries rows) s Hfl)
      as (s1' & Hs1 & _).
    rewrite Hs1 in E. inversion E; subst r s1.
    apply IH; [done|].
    by destruct (FundsFlowV2.block_queries node _).
  - inversion E; subst. by eexists.
Qed.

(** When the second writer's loop returns, no transaction raised and the
    working view is the statements of the block applied in order. *)
Lemma write_tx2_returned tx s s' :
  FundsFlow.write_tx2 fl tx s = (Returned tt, s') ->
  exists qs,
    FundsFlow.tx2_queries tx = Some qs /\
    working s' = exec_all qs (working s).
Proof.
  unfold FundsFlow.write_tx2, FundsFlow.tx2_queries.
  set (per := fun vout => CreateSent [FundsFlow.vout_edge tx vout false]).
  intros H.
  assert (Hrun : forall qs s0 s1,
            for_each qs (run fl) s0 = (Returned tt, s1) ->
            working s1 = exec_all qs (working s0)).
  { intros qs s0 s1 E. by apply for_each_run_returned in E as [? _]. }
  destruct (is_coinbase tx).
  - destruct (vouts tx) as [|v rest] eqn:Hv.
    + exfalso. unfold bind in H.
      destruct (run fl _ s) as [[[]|e] s1]; [|done].
      unfold raise in H. done.
    + eexists. split; [done|]. apply Hrun. cbn [for_each].
      unfold bind in *.
      destruct (run fl _ s) as [[[]|e] s1]; [|done].
      destruct (run fl _ s1) as [[[]|e] s2]; [|done].
      by rewrite <- for_each_map_run.
  - eexists. split; [done|]. apply Hrun. cbn [for_each].
    unfold bind in *.
    destruct (run fl _ s) as [[[]|e] s1]; [|done].
    unfold ret in H. by rewrite <- for_each_map_run.
Qed.

Lemma block2_returned txs : forall s s',
  for_each txs (FundsFlow.write_tx2 fl) s = (Returned tt, s') ->
  exists qs,
    FundsFlow.block2_queries txs = Some qs /\
    working s' = exec_all qs (working s).
Proof.
  induction txs as [|tx txs IH]; intros s s' H; cbn [for_each] in H.
  - inversion H; subst. by exists [].
  - unfold bind in H.
    destruct (FundsFlow.write_tx2 fl tx s) as [[[]|e] s1] eqn:E; [|done].
    apply write_tx2_returned in E as (q1 & Hq1 & Hw1).
    apply IH in H as (q2 & Hq2 & Hw2).
    exists (q1 ++ q2). simpl. rewrite Hq1, Hq2. split; [done|].
    by rewrite exec_all_app, Hw2, Hw1.
Qed.

Lemma tx2_queries_outputs tx qs :
  FundsFlow.tx2_queries tx = Some qs ->
  is_coinbase tx = true -> vouts tx <> [].
Proof.
  unfold FundsFlow.tx2_queries. intros H Hc. rewrite Hc in H.
  by destruct (vouts tx).
Qed.

Lemma block2_queries_outputs txs : forall qs,
  FundsFlow.block2_queries txs = Some qs ->
  forall tx, tx ∈ txs -> is_coinbase tx = true -> vouts tx <> [].
Proof.
  induction txs as [|t txs IH]; intros qs H tx Hin; simpl in H.
  - by apply elem_of_nil in Hin.
  - destruct (FundsFlow.tx2_queries t) as [q1|] eqn:E1; [|done].
    destruct (FundsFlow.block2_queries txs) as [q2|] eqn:E2; [|done].
    apply elem_of_cons in Hin as [->|Hin].
    + by eapply tx2_queries_outputs.
    + by eapply IH.
Qed.

Lemma v1_block_edges bts :
  concat (map q_edges (FundsFlow.block_queries bts)) =
  FundsFlow.batch_vouts (concat bts).
Proof.
  unfold FundsFlow.block_queries, FundsFlow.batch_vouts.
  induction bts as [|b bts IH]; [done|].
  cbn [map concat]. rewrite !map_app, !concat_app, IH. simpl.
  by rewrite app_nil_r.
Qed.

Lemma batch_vouts_tx_ids b e :
  e ∈ FundsFlow.batch_vouts b -> se_tx_id e ∈ map tx_id b.
Proof.
  unfold FundsFlow.batch_vouts.
  rewrite list_elem_of_In, in_concat. intros (l & Hl & He).
  apply in_map_iff in Hl as (tx & <- & Htx).
  assert (Hid : forall vs n x,
            In x (FundsFlow.vout_rows tx n vs) -> se_tx_id x = tx_id tx).
  { induction vs as [|v vs IHv]; intros n x Hx; simpl in Hx; [done|].
    destruct Hx as [<-|Hx]; [done|]. by eapply IHv. }
  rewrite (Hid _ _ _ He). apply list_elem_of_In, in_map, Htx.
Qed.

Lemma v1_block_tx_nodes bts : forall g,
  NoDup (map tx_id (concat bts)) ->
  (forall tx, tx ∈ concat bts -> tx_id tx ∉ tx_ids g) ->
  tx_nodes (exec_all (FundsFlow.block_queries bts) g) =
  tx_nodes g ++ map FundsFlow.tx_node_of (concat bts).
Proof.
  induction bts as [|b bts IH]; intros g Hnd Hfresh.
  - simpl. by rewrite app_nil_r.
  - rewrite v1_block_queries_cons, exec_all_app.
    cbn [concat] in *. rewrite map_app in Hnd.
    apply NoDup_app in Hnd as (Hb & Hdisj & Hrest).
    set (g1 := fold_left (fun g n => merge_transaction n g)
                 (map FundsFlow.tx_node_of b) g).
    assert (Hg1 : g1 = {| tx_nodes := tx_nodes g ++ map FundsFlow.tx_node_of b;
                          addr_nodes := addr_nodes g; edges := edges g |}).
    { apply merge_transactions_fresh.
      - by rewrite map_map.
      - intros r Hr. apply list_elem_of_In, in_map_iff in Hr as (tx & <- & Htx).
        simpl. apply Hfresh, elem_of_app. left. by apply list_elem_of_In. }
    assert (Hids1 : tx_ids g1 = tx_ids g ++ map tx_id b).
    { rewrite Hg1. unfold tx_ids. simpl. by rewrite map_app, map_map. }
    set (g2 := exec_all (FundsFlow.batch_queries b) g).
    assert (Hg2 : tx_nodes g2 = tx_nodes g1).
    { unfold g2, FundsFlow.batch_queries, exec_all. simpl. fold g1.
      apply sent_rows_tx_known. intros e He. rewrite Hids1.
      apply elem_of_app. right. by apply batch_vouts_tx_ids. }
    rewrite IH.
    + rewrite Hg2, Hg1. simpl. by rewrite map_app, app_assoc.
    + done.
    + intros tx Htx. unfold tx_ids. rewrite Hg2. fold (tx_ids g1).
      rewrite Hids1. intros Hin. apply elem_of_app in Hin as [Hin|Hin].
      * eapply Hfresh; [|exact Hin]. apply elem_of_app. by right.
      * eapply Hdisj; [exact Hin|].
        apply list_elem_of_In, in_map, list_elem_of_In, Htx.
Qed.

End WriterMoreFacts.

Section WriterMoreTheorems.
Import Block Netting Graph Driver.

(** X8: when an input of some transaction of the block cannot be resolved
    by the node, the netting writer with a positive batch size never
    returns True, whatever else fails: the store is left as it was and the
    transaction is closed; with no driver call raising it returns False. *)
Theorem unresolved_input_fails_block (fl : faults) (node : resolver)
    (g : graph) (txs : list Tx) (batch_size : Z) (tx : Tx) :
  0 < batch_size ->
  tx ∈ txs ->
  Exists (unresolved node) (vins tx) ->
  let out :=
    FundsFlowV2.create_graph_focused_on_money_flow fl node g txs batch_size in
  out.1 <> Returned true /\
  committed out.2 = g /\
  closed out.2 = true /\
  ((forall n, fl n = None) -> out.1 = Returned false).
Proof.
  intros Hb Hin Hun out.
  pose proof (writer_outcome fl (FundsFlowV2.batch_loop fl node txs batch_size)
                close_if_open g (v2_batch_loop_inert fl node txs batch_size)
                releases_close_if_open) as (Hcl & Hno & _ & Hexc & _ & Hr).
  change (try_except_finally _ _ _ _) with out in Hcl, Hno, Hexc, Hr.
  destruct (batches_concat txs batch_size Hb) as (bts & Hbts & Hcat).
  assert (Hnone : FundsFlowV2.block_queries node bts = None).
  { destruct (FundsFlowV2.block_queries node bts) as [qs|] eqn:E; [|done].
    exfalso. apply block_queries_all in E as [Hall _].
    rewrite Hcat in Hall.
    apply (proj1 (Forall_forall _ _) Hall tx Hin).
    by apply process_tx_None. }
  assert (Hnot : out.1 <> Returned true).
  { intros Ht. destruct (Hr Ht) as [Hl _].
    destruct (FundsFlowV2.batch_loop fl node txs batch_size
                (begin_transaction g)) as [r l] eqn:El.
    simpl in Hl. subst r.
    apply v2_loop_returned in El as (bts' & qs & Hb' & Hq & _).
    congruence. }
  split; [done|]. split; [by apply Hno|]. split; [done|].
  intros Hfl. apply Hexc; [|apply Hfl].
  unfold FundsFlowV2.batch_loop. unfold batches in Hbts.
  destruct (py_range _ _) as [starts|]; [|done].
  inversion Hbts; subst bts.
  destruct (v2_for_each_unbuilt fl node txs batch_size starts
              (begin_transaction g) Hfl Hnone) as (s' & ->).
  done.
Qed.

(** X9: the netting writer never stores a relationship with amount zero:
    if the store has none before, it has none after, for every block,
    batch size and pattern of failing calls. *)
Theorem zero_amount_never_stored (fl : faults) (node : resolver) (g : graph)
    (txs : list Tx) (batch_size : Z) :
  Forall (fun e => se_value_satoshi e <> 0) (edges g) ->
  Forall (fun e => se_value_satoshi e <> 0)
    (edges (committed
       (FundsFlowV2.create_graph_focused_on_money_flow
          fl node g txs batch_size).2)).
Proof.
  intros Hg.
  pose proof (writer_outcome fl (FundsFlowV2.batch_loop fl node txs batch_size)
                close_if_open g (v2_batch_loop_inert fl node txs batch_size)
                releases_close_if_open) as (_ & Hno & _ & _ & _ & Hr).
  change (try_except_finally _ _ _ _) with
    (FundsFlowV2.create_graph_focused_on_money_flow fl node g txs batch_size)
    in Hno, Hr.
  destruct (FundsFlowV2.create_graph_focused_on_money_flow fl node g txs
              batch_size) as [r s]. simpl in *.
  destruct (returned_true_dec r) as [->|Hne]; [|by rewrite Hno].
  destruct (Hr eq_refl) as [Hl ->].
  destruct (FundsFlowV2.batch_loop fl node txs batch_size
              (begin_transaction g)) as [r l] eqn:El.
  simpl in *. subst r.
  apply v2_loop_returned in El as (bts & qs & _ & Hq & ->). simpl.
  apply exec_all_Forall; [done|]. by apply block_queries_all in Hq as [_ ?].
Qed.

(** X10: create_graph_focused_on_money_flow2 is all-or-nothing like the
    batch writers: the transaction is closed on every exit, the store is
    unchanged unless True is returned, and a store without duplicate keys
    stays without; and a block that holds a coinbase transaction without
    outputs (where tx.vouts[0] raises) is never committed. *)
Theorem second_writer_atomic (fl : faults) (g : graph) (txs : list Tx) :
  let out := FundsFlow.create_graph_focused_on_money_flow2 fl g txs in
  atomic_write fl g
    (for_each txs (FundsFlow.write_tx2 fl) (begin_transaction g)) out /\
  (unique_keys g -> unique_keys (committed out.2)) /\
  (forall tx, tx ∈ txs -> is_coinbase tx = true -> vouts tx = [] ->
     out.1 <> Returned true /\ committed out.2 = g).
Proof.
  intros out.
  pose proof (writer_outcome fl (for_each txs (FundsFlow.write_tx2 fl))
                close g (inert_for_each _ _ (write_tx2_inert fl))
                releases_close) as Hat.
  change (try_except_finally _ _ _ _) with out in Hat.
  split; [exact Hat|].
  destruct Hat as (_ & Hno & _ & _ & _ & Hr).
  assert (Hret : out.1 = Returned true ->
            exists qs, FundsFlow.block2_queries txs = Some qs /\
                       committed out.2 = exec_all qs g).
  { intros Ht. destruct (Hr Ht) as [Hl Hc].
    destruct (for_each txs (FundsFlow.write_tx2 fl) (begin_transaction g))
      as [r l] eqn:El. simpl in *. subst r.
    apply block2_returned in El as (qs & Hq & Hw).
    exists qs. split; [done|]. by rewrite Hc, Hw. }
  split.
  - intros Hu. destruct (returned_true_dec out.1) as [Ht|Hne].
    + destruct (Hret Ht) as (qs & _ & ->). by apply exec_all_unique.
    + by rewrite Hno.
  - intros tx Hin Hcb Hv.
    assert (Hnot : out.1 <> Returned true).
    { intros Ht. destruct (Hret Ht) as (qs & Hq & _).
      by apply (block2_queries_outputs txs qs Hq tx Hin Hcb). }
    split; [done|by apply Hno].
Qed.

(** X11: with no call raising, a positive batch size and a store without
    duplicate keys, the first batch writer commits exactly one SENT
    relationship per output, in the order of the block and whatever the
    batch size, the flag is_coinbase being true only on the first output
    of a coinbase transaction; and when the block's transaction ids are
    distinct and new to the store it adds one Transaction node per
    transaction, in block order, with that transaction's timestamp,
    height and coinbase flag. *)
Theorem first_writer_result (fl : faults) (g : graph) (txs : list Tx)
    (batch_size : Z) :
  (forall n, fl n = None) ->
  0 < batch_size ->
  unique_keys g ->
  exists s,
    FundsFlow.create_graph_focused_on_money_flow fl g txs batch_size
      = (Returned true, s) /\
    edges (committed s) = edges g ++ FundsFlow.batch_vouts txs /\
    (NoDup (map tx_id txs) ->
     (forall tx, tx ∈ txs -> tx_id tx ∉ tx_ids g) ->
     tx_nodes (committed s) = tx_nodes g ++ map FundsFlow.tx_node_of txs).
Proof.
  intros Hfl Hb Hu.
  destruct (batches_concat txs batch_size Hb) as (bts & Hbts & Hcat).
  pose proof (writer_outcome fl (FundsFlow.batch_loop fl txs batch_size)
                close_if_open g (v1_batch_loop_inert fl txs batch_size)
                releases_close_if_open) as (_ & _ & _ & _ & Hok & _).
  change (try_except_finally _ _ _ _) with
    (FundsFlow.create_graph_focused_on_money_flow fl g txs batch_size) in Hok.
  assert (Hl : exists l,
            FundsFlow.batch_loop fl txs batch_size (begin_transaction g)
              = (Returned tt, l) /\
            working l = exec_all (FundsFlow.block_queries bts) g).
  { unfold FundsFlow.batch_loop. unfold batches in Hbts.
    destruct (py_range _ _) as [starts|]; [|done].
    inversion Hbts; subst bts.
    apply (v1_for_each_no_fault fl txs batch_size starts
             (begin_transaction g) Hfl). }
  destruct Hl as (l & Hl & Hw). rewrite Hl in Hok. simpl in Hok.
  destruct (Hok eq_refl (Hfl _)) as [Hr Hc].
  destruct (FundsFlow.create_graph_focused_on_money_flow fl g txs batch_size)
    as [r s]. simpl in *. subst r.
  exists s. split; [done|]. rewrite Hc, Hw. split.
  - rewrite exec_all_edges by done. by rewrite v1_block_edges, Hcat.
  - intros Hnd Hfresh. rewrite <- Hcat in Hnd, Hfresh.
    rewrite v1_block_tx_nodes by done. by rewrite Hcat.
Qed.

(** X12: the batch size is not checked. With batch size 0 the range raises
    inside the try block, so the writers roll back and return False; with
    a negative batch size the loop is empty, so the writers commit nothing
    and still return True. Either way the store is unchanged. *)
Theorem nonpositive_batch_size (fl : faults) (node : resolver) (g : graph)
    (txs : list Tx) (batch_size : Z) :
  batch_size <= 0 ->
  fl 0%nat = None ->
  let expected := if batch_size =? 0 then Returned false else Returned true in
  let out2 :=
    FundsFlowV2.create_graph_focused_on_money_flow fl node g txs batch_size in
  let out1 :=
    FundsFlow.create_graph_focused_on_money_flow fl g txs batch_size in
  out2.1 = expected /\ committed out2.2 = g /\ closed out2.2 = true /\
  out1.1 = expected /\ committed out1.2 = g /\ closed out1.2 = true.
Proof.
  intros Hb Hfl. simpl.
  unfold FundsFlowV2.create_graph_focused_on_money_flow,
    FundsFlow.create_graph_focused_on_money_flow,
    FundsFlowV2.batch_loop, FundsFlow.batch_loop, py_range,
    try_except_finally, bind.
  destruct (batch_size =? 0) eqn:E0; simpl.
  - unfold rollback, close_if_open. simpl. rewrite Hfl. simpl. done.
  - destruct (batch_size <? 0) eqn:E1; [|lia]. simpl.
    unfold commit, close_if_open. simpl. rewrite Hfl. simpl. done.
Qed.

End WriterMoreTheorems.

(** ** More on the two indexing loops. *)
Ltac calm :=
  repeat first
    [ apply Forall_nil_2
    | apply Forall_cons_2
    | exact I
    | (intros ?; discriminate)
    | done ].

Section LoopMoreFacts.
Import EthIndexer.
Variable e : env.
Variable start_height : Z.

(** The heights a loop may fetch: from its start height, and for a worker
    up to 12 below its last height. *)
Definition in_reach (k : loop) (h : Z) : Prop :=
  start_height <= h /\
  match k with
  | Follower => True
  | Worker last_height => h <= last_height - 12
  end.

Definition fetch_in_reach (k : loop) (ev : event) : Prop :=
  match ev with
  | GetBlock h => in_reach k h
  | _ => True
  end.

Definition reach_inv (k : loop) (s : state) : Prop :=
  Forall (fetch_in_reach k) (trace s) /\
  match at_pc s with
  | AtInner bh cur =>
      start_height <= bh /\
      match k with
      | Follower => True
      | Worker last_height => cur = last_height - 6
      end
  | _ => True
  end.

Lemma tail_in_reach k (n : nat) (success : bool) (t : nat) (raised : bool) :
  Forall (fetch_in_reach k)
    (progress_poll e k t ++ (if raised then [] else pause e n success)).
Proof.
  unfold progress_poll. apply Forall_app; split; [repeat case_match; calm|].
  destruct raised; [calm|].
  eapply Forall_impl; [apply pause_sleeps|]. by intros [] ?.
Qed.

Lemma step_reach k s : reach_inv k s -> reach_inv k (step e k start_height s).
Proof.
  intros [Ht Hpc]. destruct s as [[|bh cur| |] tr]; unfold step; simpl in *;
    [| |done|done].
  - unfold outer_step. destruct (shutdown_flag e (length tr)); [done|].
    destruct k as [|last_height]; repeat case_match;
      unfold reach_inv; simpl;
      rewrite ?Forall_app; repeat split; calm; lia.
  - destruct Hpc as [Hlo Hcur].
    destruct (decide (bh <= cur - skip_blocks)) as [Hle|Hgt].
    + assert (Hb : in_reach k bh).
      { split; [done|]. destruct k; [done|]. unfold skip_blocks in Hle. lia. }
      destruct (decide (num_transactions e bh = 0%nat)) as [Hz|Hnz].
      * rewrite inner_step_empty by done. simpl. split.
        -- apply Forall_app. split; [done|]. calm.
        -- split; [lia|done].
      * rewrite inner_step_body by done. simpl. split.
        -- apply Forall_app. split; [done|].
           apply Forall_cons_2; [done|].
           do 2 (apply Forall_cons_2; [exact I|]).
           apply tail_in_reach.
        -- destruct (iteration_raises _ _ _ _ _ _ _); [done|].
           destruct (shutdown_flag e _); [done|].
           split; [|done]. destruct (write_ok e (length tr + 2)); lia.
    + rewrite inner_step_done by lia. done.
Qed.

Lemma run_reach k fuel : reach_inv k (run e k start_height fuel).
Proof.
  induction fuel as [|fuel IH].
  - split; [apply Forall_nil_2|done].
  - apply step_reach, IH.
Qed.

End LoopMoreFacts.

Section LoopMoreTheorems.
Import EthIndexer.

(** X13: neither loop ever fetches a block below its start height, and a
    backfill worker never fetches a block above its last height minus 12:
    the last 12 heights of a worker's sub-range are left out, and a worker
    whose sub-range spans fewer than 13 heights fetches nothing. *)
Theorem fetches_within_reach (e : env) (k : loop) (start_height : Z)
    (fuel : nat) (h : Z) :
  GetBlock h ∈ trace (run e k start_height fuel) ->
  start_height <= h /\
  match k with
  | Follower => True
  | Worker last_height => h <= last_height - 12 /\ 12 <= last_height - start_height
  end.
Proof.
  intros Hin.
  destruct (run_reach e start_height k fuel) as [Hall _].
  apply (proj1 (Forall_forall _ _) Hall) in Hin. simpl in Hin.
  destruct Hin as [Hlo Hhi]. split; [done|].
  destruct k as [|last_height]; [done|]. lia.
Qed.

(** X14: a loop returns only once shutdown has been requested: reaching
    the end of a sub-range or catching up with the chain tip never ends
    it, so without a shutdown request neither loop ever returns. *)
Theorem returns_only_on_shutdown (e : env) (k : loop) (start_height : Z)
    (fuel : nat) :
  at_pc (run e k start_height fuel) = Stopped ->
  shutdown_flag e (length (trace (run e k start_height fuel))) = true.
Proof.
  induction fuel as [|fuel IH]; [done|].
  change (run e k start_height (S fuel))
    with (step e k start_height (run e k start_height fuel)).
  destruct (run e k start_height fuel) as [[|bh cur| |] tr];
    unfold step; simpl in *.
  - unfold outer_step. destruct (shutdown_flag e (length tr)) eqn:Hs.
    + by intros _.
    + destruct k as [|l]; repeat case_match; simpl; done.
  - destruct (decide (bh <= cur - skip_blocks)) as [Hle|Hgt].
    + destruct (decide (num_transactions e bh = 0%nat)) as [Hz|Hnz].
      * rewrite inner_step_empty by done. done.
      * rewrite inner_step_body by done. simpl. repeat case_match; done.
    + rewrite inner_step_done by lia. done.
  - done.
  - done.
Qed.

(** X15: a worker whose sub-range ends 6 to 11 heights above its start
    busy-waits: as long as no shutdown is requested it makes no node call
    and never sleeps, going round the outer loop without a pause. *)
Theorem short_range_worker_spins (e : env) (start last_height : Z)
    (fuel : nat) :
  shutdown_at e = None ->
  12 <= last_height ->
  last_height - 12 < start <= last_height - 6 ->
  trace (index_blocks_by_last_height e start last_height fuel) = [] /\
  (at_pc (index_blocks_by_last_height e start last_height fuel) = AtOuter \/
   at_pc (index_blocks_by_last_height e start last_height fuel)
     = AtInner start (last_height - 6)).
Proof.
  intros Hs Hl Hr. unfold index_blocks_by_last_height.
  induction fuel as [|fuel [IHt IHp]]; [split; [done|by left]|].
  change (run e (Worker last_height) start (S fuel))
    with (step e (Worker last_height) start
            (run e (Worker last_height) start fuel)).
  destruct (run e (Worker last_height) start fuel) as [pc tr].
  simpl in IHt, IHp. subst tr. unfold step. simpl.
  destruct IHp as [->| ->].
  - unfold outer_step, shutdown_flag. rewrite Hs. simpl.
    unfold skip_blocks.
    destruct (last_height - 6 - 6 <? 0) eqn:E1; [lia|].
    destruct (start >? last_height - 6) eqn:E2; [lia|].
    simpl. split; [done|by right].
  - rewrite inner_step_done by (unfold skip_blocks; lia).
    simpl. split; [done|by left].
Qed.

(** X16: over a run of blocks without transactions the inner loop only
    fetches: it steps through the heights one by one without sleeping,
    without writing and without looking at the shutdown flag, whatever
    the flag says. *)
Theorem empty_run_only_fetches (e : env) (k : loop) (start_height : Z)
    (n : nat) (s : state) (h cur : Z) :
  at_pc s = AtInner h cur ->
  (forall j, (j < n)%nat -> num_transactions e (h + Z.of_nat j) = 0%nat) ->
  h + Z.of_nat n - 1 <= cur - skip_blocks ->
  Nat.iter n (step e k start_height) s =
  {| at_pc := AtInner (h + Z.of_nat n) cur;
     trace := trace s ++ map (fun j => GetBlock (h + Z.of_nat j)) (seq 0 n) |}.
Proof.
  intros Hpc. induction n as [|n IH]; intros Hz Hle.
  - simpl. rewrite app_nil_r, Z.add_0_r. destruct s. simpl in *. by subst.
  - rewrite seq_S, map_app, app_assoc. cbn [map].
    simpl Nat.iter. rewrite IH by (intros; try apply Hz; lia).
    unfold step. cbn [at_pc trace]. rewrite inner_step_empty.
    + replace (h + Z.of_nat n + 1) with (h + Z.of_nat (S n)) by lia.
      replace (Z.of_nat (0 + n)) with (Z.of_nat n) by lia. done.
    + lia.
    + apply Hz. lia.
Qed.

End LoopMoreTheorems.

(** ** What can end a backfill worker. *)
Section WorkerCrashTheorem.
Import EthIndexer.


End WorkerCrashTheorem.

(** ** The backfill ranges and what the workers make of them. *)
Section BackfillFacts.
Import EthIndexer.

Lemma thread_ranges_elem start stop n rs r :
  1 <= n -> 0 <= stop - start < 2 ^ 53 ->
  thread_ranges start stop n = Some rs ->
  r ∈ rs ->
  exists i,
    0 <= i < n /\
    r.1 = start + i * ((stop - start) `div` n) /\
    r.2 = (if decide (i = n - 1) then stop
           else start + (i + 1) * ((stop - start) `div` n) - 1).
Proof.
  intros Hn Hb Hrs Hin.
  destruct (thread_ranges_shape start stop n Hn Hb) as (k & Hk & Hshape).
  rewrite Hshape in Hrs. inversion Hrs; subst rs. clear Hrs.
  apply elem_of_app in Hin as [Hin|Hin].
  - apply list_elem_of_In, in_map_iff in Hin as (i & <- & Hi).
    apply in_seq in Hi. exists (Z.of_nat i). split; [lia|].
    unfold even_range. simpl. split; [done|].
    rewrite decide_False by lia. done.
  - apply list_elem_of_singleton in Hin as ->. exists (n - 1).
    split; [lia|]. simpl. split; [done|]. by rewrite decide_True.
Qed.

End BackfillFacts.

Section BackfillTheorems.
Import EthIndexer.

(** X17: the last 12 heights of every backfill sub-range are indexed by
    nobody. For a plan with at least one worker, a start height not above
    the end height and fewer than 2^53 heights between them (so that the
    float quotient is exact), a height in the last 12 of some worker's
    sub-range is fetched neither by any backfill worker nor by the head
    follower, in any environment and however long they run. *)
Theorem backfill_leaves_gaps (cfg : settings) (latest current : Z) (p : plan)
    (r : Z * Z) (h : Z) :
  main cfg latest current = Some p ->
  1 <= num_threads cfg ->
  backfill_start p <= backfill_last p ->
  backfill_last p - backfill_start p < 2 ^ 53 ->
  r ∈ workers p ->
  r.1 <= h -> r.2 - 12 < h <= r.2 ->
  (forall r' e fuel,
     r' ∈ workers p ->
     GetBlock h ∉ trace (index_blocks_by_last_height e r'.1 r'.2 fuel)) /\
  (forall e fuel,
     GetBlock h ∉ trace (index_blocks e (follower_start p) fuel)).
Proof.
  intros Hm Hn Hle Hb Hr Hlo Hhi. unfold main in Hm.
  destruct (thread_ranges _ _ _) as [rs|] eqn:Hrs; [|done].
  inversion Hm; subst p. clear Hm. simpl in *.
  set (s := start_height cfg latest) in *.
  set (l := last_height cfg current) in *.
  set (n := num_threads cfg) in *.
  set (d := (l - s) `div` n) in *.
  assert (Hd : 0 <= d) by (apply Z.div_pos; lia).
  assert (Hnd : n * d <= l - s) by (apply Z.mul_div_le; lia).
  assert (Hb' : 0 <= l - s < 2 ^ 53) by lia.
  destruct (thread_ranges_elem s l n rs r Hn Hb' Hrs Hr)
    as (i & Hi & Hr1 & Hr2).
  fold d in Hr1, Hr2.
  split.
  - intros r' e fuel Hr' Hin.
    destruct (thread_ranges_elem s l n rs r' Hn Hb' Hrs Hr')
      as (j & Hj & Hr1' & Hr2').
    fold d in Hr1', Hr2'.
    destruct (run_reach e r'.1 (Worker r'.2) fuel) as [Hall _].
    apply (proj1 (Forall_forall _ _) Hall) in Hin. simpl in Hin.
    destruct Hin as [Hlo' Hhi'].
    destruct (Z.lt_trichotomy i j) as [Hij|[Hij|Hij]].
    + assert ((i + 1) * d <= j * d) by nia.
      rewrite decide_False in Hr2 by lia. lia.
    + subst j. rewrite Hr2' in Hhi'. rewrite Hr2 in Hhi. lia.
    + assert ((j + 1) * d <= i * d) by nia.
      rewrite decide_False in Hr2' by lia. lia.
  - intros e fuel Hin.
    destruct (run_reach e (l + 1) Follower fuel) as [Hall _].
    apply (proj1 (Forall_forall _ _) Hall) in Hin. simpl in Hin.
    destruct Hin as [Hlo' _].
    assert ((i + 1) * d <= n * d) by nia.
    case_decide; lia.
Qed.

End BackfillTheorems.

(** ** The order in which a loop fetches heights. *)
Section FetchOrderFacts.
Import EthIndexer.
Variable e : env.
Variable start_height : Z.

(** The height of the latest fetch in a trace. *)
Definition last_fetch (tr : list event) : option Z :=
  fold_left (fun acc ev => match ev with GetBlock h => Some h | _ => acc end)
    tr None.

(** A fetch of [h] after a latest fetch [prev]: the first fetch is at the
    start height; a later one repeats the height, moves to the next one or
    goes back to the start height. *)
Definition follows (prev : option Z) (h : Z) : Prop :=
  match prev with
  | None => h = start_height
  | Some h0 => h = h0 \/ h = h0 + 1 \/ h = start_height
  end.

Definition stepwise (tr : list event) : Prop :=
  forall t h, tr !! t = Some (GetBlock h) -> follows (last_fetch (take t tr)) h.

Lemma follows_start prev : follows prev start_height.
Proof. destruct prev; simpl; auto. Qed.

Lemma last_fetch_quiet tr evs :
  Forall no_fetch evs -> last_fetch (tr ++ evs) = last_fetch tr.
Proof.
  unfold last_fetch. rewrite fold_left_app.
  generalize (fold_left
    (fun acc ev => match ev with GetBlock h => Some h | _ => acc end) tr None).
  induction evs as [|ev evs IH]; intros acc H; simpl; [done|].
  apply Forall_cons in H as [Hev H]. rewrite IH by done.
  destruct ev; try done. by destruct (Hev h).
Qed.

Lemma last_fetch_fetch tr h evs :
  Forall no_fetch evs -> last_fetch (tr ++ GetBlock h :: evs) = Some h.
Proof.
  intros H. change (GetBlock h :: evs) with ([GetBlock h] ++ evs).
  rewrite app_assoc, last_fetch_quiet by done.
  unfold last_fetch. by rewrite fold_left_app.
Qed.

Lemma stepwise_app_quiet tr evs :
  stepwise tr -> Forall no_fetch evs -> stepwise (tr ++ evs).
Proof.
  intros Ht Hq t h Hl. apply lookup_app_Some in Hl as [Hl|[_ Hl]].
  - rewrite take_app_le by (apply lookup_lt_Some in Hl; lia). by apply Ht.
  - exfalso. eapply (proj1 (Forall_lookup _ _) Hq); [exact Hl|done].
Qed.

Lemma stepwise_app_fetch tr bh evs :
  stepwise tr -> follows (last_fetch tr) bh -> Forall no_fetch evs ->
  stepwise (tr ++ GetBlock bh :: evs).
Proof.
  intros Ht Hb Hq t h Hl. apply lookup_app_Some in Hl as [Hl|[Hlen Hl]].
  - rewrite take_app_le by (apply lookup_lt_Some in Hl; lia). by apply Ht.
  - destruct (t - length tr)%nat as [|j] eqn:Ej; simpl in Hl.
    + inversion Hl; subst. replace t with (length tr) by lia.
      by rewrite take_app_length.
    + exfalso. eapply (proj1 (Forall_lookup _ _) Hq); [exact Hl|done].
Qed.

Definition order_inv (s : state) : Prop :=
  stepwise (trace s) /\
  match at_pc s with
  | AtInner bh _ => follows (last_fetch (trace s)) bh
  | _ => True
  end.

Lemma tail_quiet k (n : nat) (success : bool) (t : nat) (raised : bool) :
  Forall no_fetch
    (CreateInMemoryGraph 0 :: WriteGraph 0 success ::
     progress_poll e k t ++ (if raised then [] else pause e n success)).
Proof.
  do 2 (apply Forall_cons_2; [intros ?; discriminate|]).
  unfold progress_poll.
  apply Forall_app; split; [repeat case_match; calm|].
  apply pause_no_fetch.
Qed.

Lemma step_order k s : order_inv s -> order_inv (step e k start_height s).
Proof.
  intros [Ht Hpc]. destruct s as [[|bh cur| |] tr]; unfold step; simpl in *;
    [| |done|done].
  - unfold outer_step. destruct (shutdown_flag e (length tr)); [done|].
    destruct k as [|last_height]; repeat case_match;
      unfold order_inv; simpl; rewrite <- ?app_assoc; split;
      try done; try apply follows_start;
      try (apply stepwise_app_quiet; [done|calm]).
  - destruct (decide (bh <= cur - skip_blocks)) as [Hle|Hgt].
    + destruct (decide (num_transactions e bh = 0%nat)) as [Hz|Hnz].
      * rewrite inner_step_empty by done. split; simpl.
        -- apply stepwise_app_fetch; [done|done|calm].
        -- rewrite last_fetch_fetch by calm. simpl. auto.
      * rewrite inner_step_body by done.
        assert (Hq : Forall no_fetch
                  (CreateInMemoryGraph bh
                   :: WriteGraph bh (write_ok e (length tr + 2))
                   :: progress_poll e k (length tr + 3) ++
                      (if iteration_raises e k start_height bh
                            (length tr + 3) (num_transactions e bh)
                            (write_ok e (length tr + 2)) then []
                       else pause e (num_transactions e bh)
                              (write_ok e (length tr + 2))))).
        { pose proof (tail_quiet k (num_transactions e bh)
                        (write_ok e (length tr + 2)) (length tr + 3)
                        (iteration_raises e k start_height bh
                           (length tr + 3) (num_transactions e bh)
                           (write_ok e (length tr + 2)))) as H.
          apply Forall_cons in H as [_ H]. apply Forall_cons in H as [_ H].
          do 2 (apply Forall_cons_2; [intros ?; discriminate|]). done. }
        split; simpl.
        -- by apply stepwise_app_fetch.
        -- destruct (iteration_raises e k start_height bh (length tr + 3)
                       (num_transactions e bh) (write_ok e (length tr + 2)))
             eqn:Hr; [done|].
           destruct (shutdown_flag e (length (_ ++ _))); [done|].
           rewrite last_fetch_fetch by (first [done | by rewrite Hr in Hq]). simpl.
           destruct (write_ok e (length tr + 2)); auto.
    + rewrite inner_step_done by lia. done.
Qed.

End FetchOrderFacts.

Section FetchOrderTheorem.
Import EthIndexer.

(** X18: neither loop ever skips a height going up. The first block a loop
    fetches is the one at its start height, and every later fetch is at
    the height of the fetch before it (a retry), at the next height, or
    back at the start height. *)
Theorem fetches_never_skip (e : env) (k : loop) (start_height : Z)
    (fuel t : nat) (h : Z) :
  trace (run e k start_height fuel) !! t = Some (GetBlock h) ->
  match last_fetch (take t (trace (run e k start_height fuel))) with
  | None => h = start_height
  | Some h0 => h = h0 \/ h = h0 + 1 \/ h = start_height
  end.
Proof.
  revert t h.
  enough (Hinv : order_inv start_height (run e k start_height fuel))
    by (intros t h Hl; exact (proj1 Hinv t h Hl)).
  induction fuel as [|fuel IH].
  - split; [|done]. intros t h Hl. done.
  - apply (step_order e), IH.
Qed.

End FetchOrderTheorem.

(** ** The progress queries. *)
Section ProgressFacts.
Import Graph ProgressTracker.

Lemma fold_max_spec l : forall x,
  x <= fold_left Z.max l x /\
  Forall (fun y => y <= fold_left Z.max l x) l /\
  fold_left Z.max l x ∈ x :: l.
Proof.
  induction l as [|y l IH]; intros x; simpl.
  - split; [lia|]. split; [done|]. apply list_elem_of_here.
  - destruct (IH (Z.max x y)) as (H1 & H2 & H3). split; [lia|]. split.
    + apply Forall_cons_2; [lia|done].
    + apply elem_of_cons in H3 as [H3|H3].
      * rewrite H3. destruct (Z.max_spec x y) as [[_ ->]|[_ ->]].
        -- apply elem_of_cons. right. apply list_elem_of_here.
        -- apply list_elem_of_here.
      * do 2 (apply elem_of_cons; right). done.
Qed.

Lemma fold_min_spec l : forall x,
  fold_left Z.min l x <= x /\
  Forall (fun y => fold_left Z.min l x <= y) l /\
  fold_left Z.min l x ∈ x :: l.
Proof.
  induction l as [|y l IH]; intros x; simpl.
  - split; [lia|]. split; [done|]. apply list_elem_of_here.
  - destruct (IH (Z.min x y)) as (H1 & H2 & H3). split; [lia|]. split.
    + apply Forall_cons_2; [lia|done].
    + apply elem_of_cons in H3 as [H3|H3].
      * rewrite H3. destruct (Z.min_spec x y) as [[_ ->]|[_ ->]].
        -- apply list_elem_of_here.
        -- apply elem_of_cons. right. apply list_elem_of_here.
      * do 2 (apply elem_of_cons; right). done.
Qed.

Lemma latest_bounds l h :
  h ∈ l ->
  match aggregate Z.min l, aggregate Z.max l with
  | Some lo, Some hi => lo <= h <= hi /\ lo ∈ l /\ hi ∈ l
  | _, _ => False
  end.
Proof.
  destruct l as [|x l]; simpl; [by intros ?%elem_of_nil|].
  intros Hh.
  destruct (fold_max_spec l x) as (M1 & M2 & M3).
  destruct (fold_min_spec l x) as (m1 & m2 & m3).
  split; [|done].
  apply elem_of_cons in Hh as [->|Hh]; [lia|].
  pose proof (proj1 (Forall_forall _ _) M2 h Hh).
  pose proof (proj1 (Forall_forall _ _) m2 h Hh). simpl in *. lia.
Qed.

Lemma fold_max_app l l' x :
  fold_left Z.max l x <= fold_left Z.max (l ++ l') x.
Proof. rewrite fold_left_app. apply fold_max_spec. Qed.

Lemma fold_min_app l l' x :
  fold_left Z.min (l ++ l') x <= fold_left Z.min l x.
Proof. rewrite fold_left_app. apply fold_min_spec. Qed.

(** The writers' statements only append Transaction nodes. *)
Lemma merge_transaction_prefix n g :
  tx_nodes g `prefix_of` tx_nodes (merge_transaction n g).
Proof.
  unfold merge_transaction. case_bool_decide; [done|]. by exists [n].
Qed.

Lemma sent_row_prefix g e : tx_nodes g `prefix_of` tx_nodes (sent_row g e).
Proof.
  unfold sent_row, create_sent. simpl.
  etrans; [|apply merge_transaction_prefix].
  unfold merge_address. by case_bool_decide.
Qed.

Lemma exec_query_prefix q g :
  tx_nodes g `prefix_of` tx_nodes (exec_query q g).
Proof.
  destruct q as [rows|rows]; simpl; revert g;
    induction rows as [|r rows IH]; intros g; simpl; try done;
    (etrans; [|apply IH]).
  - apply merge_transaction_prefix.
  - apply sent_row_prefix.
Qed.

Lemma exec_all_prefix qs : forall g,
  tx_nodes g `prefix_of` tx_nodes (exec_all qs g).
Proof.
  induction qs as [|q qs IH]; intros g; simpl; [done|].
  etrans; [apply exec_query_prefix|apply IH].
Qed.

(** The progress reported for [g'] is at least as far as for [g] at both
    ends. *)
Definition keeps_progress (g g' : graph) : Prop :=
  get_latest_block_number g <= get_latest_block_number g' /\
  get_min_block_number g' <= get_min_block_number g.

Lemma prefix_keeps_progress g g' :
  block_heights g <> [] ->
  tx_nodes g `prefix_of` tx_nodes g' -> keeps_progress g g'.
Proof.
  intros Hne [k Hk]. unfold keeps_progress, get_latest_block_number,
    get_min_block_number, block_heights in *.
  rewrite Hk, omap_app.
  destruct (omap tn_block_height (tx_nodes g)) as [|x l]; [done|]. simpl.
  split; [apply fold_max_app|apply fold_min_app].
Qed.

Lemma keeps_progress_refl g : keeps_progress g g.
Proof. unfold keeps_progress. lia. Qed.

End ProgressFacts.

Section ProgressTheorems.
Import Block Netting Graph Driver ProgressTracker.

(** X19: get_min_block_number and get_latest_block_number bound the height
    of every stored transaction that has one, and when some transaction
    has a height both are heights of stored transactions; when none has
    (an empty store, or only nodes made by the bare MERGE of a
    relationship statement) both answer 0. *)
Theorem progress_bounds (g : graph) :
  (forall n h, n ∈ tx_nodes g -> tn_block_height n = Some h ->
     get_min_block_number g <= h <= get_latest_block_number g /\
     get_min_block_number g ∈ block_heights g /\
     get_latest_block_number g ∈ block_heights g) /\
  (Forall (fun n => tn_block_height n = None) (tx_nodes g) ->
     get_min_block_number g = 0 /\ get_latest_block_number g = 0).
Proof.
  split.
  - intros n h Hn Hh.
    assert (Hin : h ∈ block_heights g).
    { unfold block_heights. apply list_elem_of_omap. by exists n. }
    apply latest_bounds in Hin.
    unfold get_min_block_number, get_latest_block_number.
    destruct (aggregate Z.min (block_heights g)); [|done].
    destruct (aggregate Z.max (block_heights g)); done.
  - intros Hnone.
    assert (Hb : block_heights g = []).
    { unfold block_heights. induction (tx_nodes g) as [|n l IH]; [done|].
      apply Forall_cons in Hnone as [Hn Hl]. simpl. rewrite Hn. by apply IH. }
    unfold get_min_block_number, get_latest_block_number. by rewrite Hb.
Qed.

(** X20: no write moves the reported progress backwards. On a store in
    which some transaction has a height, after a call of any of the three
    writers (whatever it returns, whichever calls fail) the latest block
    number is not lower and the minimum block number is not higher than
    before. *)
Theorem writers_keep_progress (fl : faults) (node : resolver) (g : graph)
    (txs : list Tx) (batch_size : Z) :
  block_heights g <> [] ->
  keeps_progress g
    (committed (FundsFlowV2.create_graph_focused_on_money_flow
                  fl node g txs batch_size).2) /\
  keeps_progress g
    (committed (FundsFlow.create_graph_focused_on_money_flow
                  fl g txs batch_size).2) /\
  keeps_progress g
    (committed (FundsFlow.create_graph_focused_on_money_flow2 fl g txs).2).
Proof.
  intros Hne. split; [|split].
  - pose proof (writer_outcome fl (FundsFlowV2.batch_loop fl node txs batch_size)
                  close_if_open g (v2_batch_loop_inert fl node txs batch_size)
                  releases_close_if_open) as (_ & Hno & _ & _ & _ & Hr).
    change (try_except_finally _ _ _ _) with
      (FundsFlowV2.create_graph_focused_on_money_flow fl node g txs batch_size)
      in Hno, Hr.
    destruct (FundsFlowV2.create_graph_focused_on_money_flow fl node g txs
                batch_size) as [r s]. simpl in *.
    destruct (returned_true_dec r) as [->|Hd];
      [|rewrite Hno by done; apply keeps_progress_refl].
    destruct (Hr eq_refl) as [Hl ->].
    destruct (FundsFlowV2.batch_loop fl node txs batch_size
                (begin_transaction g)) as [r l] eqn:El.
    simpl in *. subst r.
    apply v2_loop_returned in El as (bts & qs & _ & _ & ->). simpl.
    apply prefix_keeps_progress; [done|apply exec_all_prefix].
  - pose proof (writer_outcome fl (FundsFlow.batch_loop fl txs batch_size)
                  close_if_open g (v1_batch_loop_inert fl txs batch_size)
                  releases_close_if_open) as (_ & Hno & _ & _ & _ & Hr).
    change (try_except_finally _ _ _ _) with
      (FundsFlow.create_graph_focused_on_money_flow fl g txs batch_size)
      in Hno, Hr.
    destruct (FundsFlow.create_graph_focused_on_money_flow fl g txs
                batch_size) as [r s]. simpl in *.
    destruct (returned_true_dec r) as [->|Hd];
      [|rewrite Hno by done; apply keeps_progress_refl].
    destruct (Hr eq_refl) as [Hl ->].
    destruct (FundsFlow.batch_loop fl txs batch_size
                (begin_transaction g)) as [r l] eqn:El.
    simpl in *. subst r.
    apply v1_loop_returned in El as (bts & _ & ->). simpl.
    apply prefix_keeps_progress; [done|apply exec_all_prefix].
  - pose proof (writer_outcome fl (for_each txs (FundsFlow.write_tx2 fl))
                  close g (inert_for_each _ _ (write_tx2_inert fl))
                  releases_close) as (_ & Hno & _ & _ & _ & Hr).
    change (try_except_finally _ _ _ _) with
      (FundsFlow.create_graph_focused_on_money_flow2 fl g txs) in Hno, Hr.
    destruct (FundsFlow.create_graph_focused_on_money_flow2 fl g txs)
      as [r s]. simpl in *.
    destruct (returned_true_dec r) as [->|Hd];
      [|rewrite Hno by done; apply keeps_progress_refl].
    destruct (Hr eq_refl) as [Hl ->].
    destruct (for_each txs (FundsFlow.write_tx2 fl)
                (begin_transaction g)) as [r l] eqn:El.
    simpl in *. subst r.
    apply block2_returned in El as (qs & _ & ->). simpl.
    apply prefix_keeps_progress; [done|apply exec_all_prefix].
Qed.

End ProgressTheorems.

(** ** The miner's wait for synchronisation. *)
Section SyncFacts.
Import Miner.

Lemma sync_loop_first polls fuel : forall t n,
  sync_loop polls t fuel = Some n <->
  (t <= n < t + fuel)%nat /\ synced (polls n) = true /\
  (forall m, (t <= m < n)%nat -> synced (polls m) = false).
Proof.
  induction fuel as [|fuel IH]; intros t n; simpl.
  - split; [done|]. intros [? _]. lia.
  - destruct (synced (polls t)) eqn:E.
    + split.
      * intros [= <-]. split; [lia|]. split; [done|]. intros m ?. lia.
      * intros (Hn & Hs & Hfirst). f_equal.
        destruct (decide (t = n)) as [->|Hne]; [done|].
        rewrite Hfirst in E by lia. done.
    + rewrite IH. split.
      * intros (Hn & Hs & Hfirst). split; [lia|]. split; [done|].
        intros m Hm. destruct (decide (m = t)) as [->|]; [done|].
        apply Hfirst. lia.
      * intros (Hn & Hs & Hfirst).
        assert (t <> n) by (intros ->; congruence).
        split; [lia|]. split; [done|]. intros m Hm. apply Hfirst. lia.
Qed.

End SyncFacts.

Section SyncTheorems.
Import Miner.

(** X21: wait_for_blocks_sync returns False only when waiting is switched
    off, and then at once. When it is switched on, the call returns
    exactly when some pass sees the node less than 100 blocks ahead of the
    graph; it returns True at the first such pass, having slept once for
    every earlier pass, and a pass in which a call raises never ends the
    wait. *)
Theorem wait_returns_at_first_sync (polls : nat -> poll) (fuel : nat)
    (r : bool) (n : nat) :
  (wait_for_blocks_sync false polls fuel = Some (false, 0%nat)) /\
  (wait_for_blocks_sync true polls fuel = Some (r, n) <->
   r = true /\ (n < fuel)%nat /\
   (exists latest_block_height current_block_height,
      polls n = Heights latest_block_height current_block_height /\
      latest_block_height - current_block_height < 100) /\
   (forall m, (m < n)%nat ->
      match polls m with
      | Heights latest_block_height current_block_height =>
          100 <= latest_block_height - current_block_height
      | Fails => True
      end)).
Proof.
  split; [done|]. unfold wait_for_blocks_sync. simpl.
  pose proof (sync_loop_first polls fuel 0 n) as Hn.
  split.
  - destruct (sync_loop polls 0 fuel) as [n'|] eqn:E; [|done].
    intros [= <- <-]. destruct (proj1 Hn eq_refl) as (Hlt & Hs & Hfirst).
    split; [done|]. split; [lia|]. split.
    + destruct (polls n') as [a b|]; [|done]. exists a, b. split; [done|].
      simpl in Hs. by apply bool_decide_eq_true in Hs.
    + intros m Hm. specialize (Hfirst m ltac:(lia)).
      destruct (polls m) as [a b|]; [|done]. simpl in Hfirst.
      apply bool_decide_eq_false in Hfirst. lia.
  - intros (-> & Hlt & (a & b & Hp & Hd) & Hfirst).
    rewrite (proj2 Hn); [done|]. split; [lia|]. split.
    + rewrite Hp. simpl. by apply bool_decide_eq_true.
    + intros m Hm. specialize (Hfirst m ltac:(lia)).
      destruct (polls m) as [a' b'|]; [|done]. simpl.
      apply bool_decide_eq_false. lia.
Qed.

End SyncTheorems.

(** ** Instances of the theorems above on the example block and chains. *)
Section MoreExamples.
Import PyDict Block Netting Graph Driver EthIndexer ProgressTracker Examples.

Lemma batches_partition_witness :
  exists bts,
    batches [coinbase_tx; change_tx] 1 = Some bts /\
    concat bts = [coinbase_tx; change_tx] /\
    Forall (fun b => (0 < length b <= Z.to_nat 1)%nat) bts.
Proof.
  apply (batches_partition [coinbase_tx; change_tx] 1). lia.
Defined.

Lemma netting_one_sided_witness :
  get (netting_pass [("C"%string, 500)]
         [("C"%string, 200); ("B"%string, 300)]).1 "B" = None /\
  get (netting_pass [("C"%string, 500)]
         [("C"%string, 200); ("B"%string, 300)]).2 "B" = Some 300.
Proof.
  apply (netting_one_sided
           [("C"%string, 500)] [("C"%string, 200); ("B"%string, 300)] "B").
  left. reflexivity.
Defined.

Lemma raw_out_sums_outputs_witness :
  get [("C"%string, 200); ("B"%string, 300)] "B" =
  if bool_decide (Exists (fun v => vout_address v = "B"%string)
                    (vouts change_tx))
  then Some (paid_to "B" (vouts change_tx)) else None.
Proof.
  apply (raw_out_sums_outputs change_node change_tx
           [("C"%string, 500)] [("C"%string, 200); ("B"%string, 300)] "B").
  reflexivity.
Defined.

Lemma flow_rows_nonzero_disjoint_witness :
  exists row ins outs,
    process_tx change_node change_tx = Some (row, ins, outs) /\
    Forall (fun r => fr_amount r <> 0 /\ fr_tx_id r = tx_id change_tx)
      (ins ++ outs) /\
    NoDup (map fr_address ins) /\
    NoDup (map fr_address outs) /\
    (forall a, a ∈ map fr_address ins -> a ∉ map fr_address outs).
Proof.
  eexists _, _, _. split; [reflexivity|].
  eapply (flow_rows_nonzero_disjoint change_node change_tx). reflexivity.
Defined.

Lemma residual_row_witness :
  exists row ins outs,
    process_tx change_node change_tx = Some (row, ins, outs) /\
    ({| fr_address := "C"; fr_amount := 500 - 200; fr_tx_id := "t1" |} ∈ ins) /\
    ("C"%string ∉ map fr_address outs).
Proof.
  eexists _, _, _. split; [reflexivity|].
  refine (proj1 (proj2 (residual_row change_node change_tx
                          [("C"%string, 500)]
                          [("C"%string, 200); ("B"%string, 300)]
                          _ _ _ "C" 500 200 eq_refl eq_refl eq_refl eq_refl
                          _ _)) _); lia.
Defined.

Lemma net_totals_keep_balance_witness :
  exists row ins outs,
    process_tx change_node change_tx = Some (row, ins, outs) /\
    tr_in_total_amount row = foldr Z.add 0 (map fr_amount ins) /\
    tr_out_total_amount row = foldr Z.add 0 (map fr_amount outs) /\
    tr_in_total_amount row - tr_out_total_amount row =
      foldr Z.add 0 (input_amounts change_node (vins change_tx)) -
      foldr Z.add 0 (map vout_value_satoshi (vouts change_tx)).
Proof.
  eexists _, _, _. split; [reflexivity|].
  apply (net_totals_keep_balance change_node change_tx). reflexivity.
Defined.

Lemma coinbase_inputs_skip_resolution_witness :
  exists row outs,
    process_tx change_node coinbase_tx = Some (row, [], outs) /\
    process_tx (fun _ _ => None) coinbase_tx = Some (row, [], outs) /\
    tr_in_total_amount row = 0 /\
    tr_out_total_amount row =
      foldr Z.add 0 (map vout_value_satoshi (vouts coinbase_tx)).
Proof.
  apply (coinbase_inputs_skip_resolution change_node coinbase_tx).
  apply Forall_cons_2; [reflexivity|apply Forall_nil_2].
Defined.

Lemma unresolved_input_fails_block_witness :
  (FundsFlowV2.create_graph_focused_on_money_flow no_faults (fun _ _ => None)
     Graph.empty [coinbase_tx; change_tx] 8).1 = Returned false.
Proof.
  assert (Hin : change_tx ∈ [coinbase_tx; change_tx]).
  { apply list_elem_of_further, list_elem_of_here. }
  assert (Hun : Exists (unresolved (fun _ _ => None)) (vins change_tx)).
  { apply Exists_cons_hd. split; reflexivity. }
  destruct (unresolved_input_fails_block no_faults (fun _ _ => None)
              Graph.empty [coinbase_tx; change_tx] 8 change_tx
              ltac:(lia) Hin Hun) as (_ & _ & _ & H).
  apply H. intros n. reflexivity.
Defined.

Lemma zero_amount_never_stored_witness :
  Forall (fun e => se_value_satoshi e <> 0)
    (edges (committed
       (FundsFlowV2.create_graph_focused_on_money_flow
          no_faults change_node Graph.empty [coinbase_tx; change_tx] 8).2)).
Proof.
  apply (zero_amount_never_stored no_faults change_node Graph.empty
           [coinbase_tx; change_tx] 8).
  apply Forall_nil_2.
Defined.

Lemma first_writer_result_witness :
  exists s,
    FundsFlow.create_graph_focused_on_money_flow no_faults Graph.empty
      [coinbase_tx; change_tx] 8 = (Returned true, s) /\
    edges (committed s) =
      edges Graph.empty ++ FundsFlow.batch_vouts [coinbase_tx; change_tx].
Proof.
  assert (Hu : unique_keys Graph.empty).
  { split; apply NoDup_nil_2. }
  destruct (first_writer_result no_faults Graph.empty [coinbase_tx; change_tx]
              8 (fun _ => eq_refl) ltac:(lia) Hu) as (s & H1 & H2 & _).
  exists s. split; [exact H1|exact H2].
Defined.

Lemma nonpositive_batch_size_witness :
  (FundsFlowV2.create_graph_focused_on_money_flow no_faults change_node
     Graph.empty [change_tx] 0).1 = Returned false /\
  (FundsFlow.create_graph_focused_on_money_flow no_faults
     Graph.empty [change_tx] 0).1 = Returned false.
Proof.
  destruct (nonpositive_batch_size no_faults change_node Graph.empty
              [change_tx] 0 ltac:(lia) eq_refl) as (H1 & _ & _ & H2 & _).
  split; [exact H1|exact H2].
Defined.

Lemma fetches_within_reach_witness :
  GetBlock 0 ∈ trace (run (steady 30 1 false) (Worker 30) 0 2) /\
  0 <= 0 /\ 0 <= 30 - 12 /\ 12 <= 30 - 0.
Proof.
  assert (H : GetBlock 0 ∈ trace (run (steady 30 1 false) (Worker 30) 0 2)).
  { vm_compute. apply list_elem_of_here. }
  split; [exact H|].
  exact (fetches_within_reach (steady 30 1 false) (Worker 30) 0 2 0 H).
Defined.

Lemma short_range_worker_spins_witness :
  trace (index_blocks_by_last_height (steady 13 1 false) 5 12 3) = [].
Proof.
  apply (short_range_worker_spins (steady 13 1 false) 5 12 3);
    [reflexivity|lia|lia].
Defined.

Lemma empty_run_only_fetches_witness :
  Nat.iter 2 (step (steady 30 0 false) (Worker 30) 0)
    {| at_pc := AtInner 0 18; trace := [] |} =
  {| at_pc := AtInner (0 + Z.of_nat 2) 18;
     trace := [] ++ map (fun j => GetBlock (0 + Z.of_nat j)) (seq 0 2) |}.
Proof.
  apply (empty_run_only_fetches (steady 30 0 false) (Worker 30) 0 2
           {| at_pc := AtInner 0 18; trace := [] |} 0 18).
  - reflexivity.
  - intros j _. reflexivity.
  - unfold skip_blocks. lia.
Defined.

Lemma backfill_leaves_gaps_witness :
  main default_settings 99 200 =
    Some {| backfill_start := 100; backfill_last := 200;
            workers := [(100, 111); (112, 123); (124, 135); (136, 147);
                        (148, 159); (160, 171); (172, 183); (184, 200)];
            follower_start := 201 |} /\
  (forall r' e fuel,
     r' ∈ [(100, 111); (112, 123); (124, 135); (136, 147);
           (148, 159); (160, 171); (172, 183); (184, 200)] ->
     GetBlock 105 ∉ trace (index_blocks_by_last_height e r'.1 r'.2 fuel)) /\
  (forall e fuel, GetBlock 105 ∉ trace (index_blocks e 201 fuel)).
Proof.
  split; [reflexivity|].
  apply (backfill_leaves_gaps default_settings 99 200
           {| backfill_start := 100; backfill_last := 200;
              workers := [(100, 111); (112, 123); (124, 135); (136, 147);
                          (148, 159); (160, 171); (172, 183); (184, 200)];
              follower_start := 201 |} (100, 111) 105).
  - reflexivity.
  - vm_compute. discriminate.
  - vm_compute. discriminate.
  - reflexivity.
  - apply list_elem_of_here.
  - simpl. lia.
  - simpl. lia.
Defined.

Lemma fetches_never_skip_witness :
  trace (run (steady 30 1 false) Follower 1 3) !! 5%nat = Some (GetBlock 2) /\
  match last_fetch (take 5 (trace (run (steady 30 1 false) Follower 1 3))) with
  | None => 2 = 1
  | Some h0 => 2 = h0 \/ 2 = h0 + 1 \/ 2 = 1
  end.
Proof.
  split; [reflexivity|].
  apply (fetches_never_skip (steady 30 1 false) Follower 1 3 5 2).
  reflexivity.
Defined.

Lemma writers_keep_progress_witness :
  keeps_progress
    {| tx_nodes := [FundsFlow.tx_node_of coinbase_tx];
       addr_nodes := []; edges := [] |}
    (committed
       (FundsFlowV2.create_graph_focused_on_money_flow no_faults change_node
          {| tx_nodes := [FundsFlow.tx_node_of coinbase_tx];
             addr_nodes := []; edges := [] |} [change_tx] 8).2).
Proof.
  apply (writers_keep_progress no_faults change_node
           {| tx_nodes := [FundsFlow.tx_node_of coinbase_tx];
              addr_nodes := []; edges := [] |} [change_tx] 8).
  discriminate.
Defined.

Lemma returns_only_on_shutdown_witness :
  at_pc (run {| tip := fun _ => 30;
                num_transactions := fun _ => 1%nat;
                write_ok := fun _ => true;
                shutdown_at := Some 0%nat;
                BLOCK_PROCESSING_TRANSACTION_THRESHOLD := None;
                BLOCK_PROCESSING_DELAY := None |} Follower 1 1) = Stopped /\
  shutdown_flag {| tip := fun _ => 30;
                   num_transactions := fun _ => 1%nat;
                   write_ok := fun _ => true;
                   shutdown_at := Some 0%nat;
                   BLOCK_PROCESSING_TRANSACTION_THRESHOLD := None;
                   BLOCK_PROCESSING_DELAY := None |} 0 = true.
Proof.
  split; [reflexivity|].
  apply (returns_only_on_shutdown
           {| tip := fun _ => 30;
              num_transactions := fun _ => 1%nat;
              write_ok := fun _ => true;
              shutdown_at := Some 0%nat;
              BLOCK_PROCESSING_TRANSACTION_THRESHOLD := None;
              BLOCK_PROCESSING_DELAY := None |} Follower 1 1).
  reflexivity.
Defined.

(** The bound on the number of heights is needed for the gaps too: for
    the heights 0 to 2^53 + 3 and two threads the float quotient is
    rounded up, the final sub-range ends two heights above the end height,
    and the head follower, started at 2^53 + 4, fetches a block in the
    last 12 heights of that sub-range. *)
Lemma rounded_range_reaches_follower :
  main two_threads 0 (2 ^ 53 + 3) =
    Some {| backfill_start := 0; backfill_last := 2 ^ 53 + 3;
            workers := [(0, 2 ^ 52 + 1); (2 ^ 52 + 2, 2 ^ 53 + 5)];
            follower_start := 2 ^ 53 + 4 |} /\
  GetBlock (2 ^ 53 + 4)
    ∈ trace (index_blocks (steady (2 ^ 53 + 16) 0 false) (2 ^ 53 + 4) 2).
Proof.
  split; [reflexivity|]. vm_compute.
  apply list_elem_of_further, list_elem_of_here.
Qed.


End MoreExamples.
